(** * puter-ai-cli: the agent loop, the permission gate and the file tools

    A shallow embedding of [src/agent.js] (the response normalizers,
    askPermission, handleToolCall, runAgentLoop) and of [src/tools.js]
    (TOOL_RISK, editFileImpl, listDirectoryImpl, searchFilesImpl,
    executeTool), followed by the properties of the specification that
    concern them.

    Conventions of the embedding:
    - a JavaScript string is a [string] of code units below 256;
    - an exception is a value [Throw msg] carrying [err.message], and a
      [try]/[catch] is a match on it;
    - the arguments of a tool call are an object, a finite map from
      property names to values; a reply of the model is an object with
      a [message];
    - console output and the calls to the collaborators (the model, the
      human at the prompt, the executor) are recorded as a trace of
      tagged events, without the terminal styling;
    - the file system is a finite map from resolved paths to nodes, and
      node's [path] module is a parameter;
    - a recursion bounded by a depth or an iteration counter is written
      by recursion on a fuel; each such function comes with the lemma
      that the fuel it is given is enough. *)

From Stdlib Require Import ZArith Ascii String List Lia Bool.
From Stdlib Require Import Numbers.DecimalString.
From stdpp Require Import base option list strings gmap.

Local Open Scope string_scope.

(** ** JavaScript strings *)

Module JS.

(** [s.length] *)
Definition len (s : string) : nat := String.length s.

(** Code units are compared as numbers. *)
Definition code (c : ascii) : nat := nat_of_ascii c.

(** [String.prototype.toLowerCase] on code units below 256: the letters
    A-Z and the Latin-1 capitals (0xC0-0xDE without the multiplication
    sign 0xD7) move up by 32, everything else stays. *)
Definition lowerChar (c : ascii) : ascii :=
  let n := code c in
  if (((65 <=? n) && (n <=? 90))
      || ((192 <=? n) && (n <=? 222) && negb (n =? 215)))%nat
  then ascii_of_nat (n + 32) else c.

Fixpoint toLowerCase (s : string) : string :=
  match s with
  | EmptyString => EmptyString
  | String c r => String (lowerChar c) (toLowerCase r)
  end.

(** ECMAScript WhiteSpace and LineTerminator code units below 256:
    TAB, LF, VT, FF, CR, SPACE and NBSP. *)
Definition isSpace (c : ascii) : bool :=
  let n := code c in
  (((9 <=? n) && (n <=? 13)) || (n =? 32) || (n =? 160))%nat.

Fixpoint trimStart (s : string) : string :=
  match s with
  | EmptyString => EmptyString
  | String c r => if isSpace c then trimStart r else s
  end.

(** [trimEnd] keeps a character when it is not white space or when
    something remains after it. *)
Fixpoint trimEnd (s : string) : string :=
  match s with
  | EmptyString => EmptyString
  | String c r =>
      match trimEnd r with
      | EmptyString => if isSpace c then EmptyString else String c EmptyString
      | r' => String c r'
      end
  end.

(** [String.prototype.trim] *)
Definition trim (s : string) : string := trimEnd (trimStart s).

(** [s.startsWith(t)] *)
Fixpoint startsWith (s t : string) {struct t} : bool :=
  match t, s with
  | EmptyString, _ => true
  | String _ _, EmptyString => false
  | String b t', String a s' => if Ascii.eqb a b then startsWith s' t' else false
  end.

(** [s.slice(n)] *)
Fixpoint drop (n : nat) (s : string) : string :=
  match n, s with
  | O, _ => s
  | S _, EmptyString => EmptyString
  | S n', String _ s' => drop n' s'
  end.

(** [s.includes(t)] *)
Fixpoint includes (s t : string) : bool :=
  if startsWith s t then true
  else match s with
       | EmptyString => false
       | String _ s' => includes s' t
       end.

(** The text before and after the leftmost occurrence of [t] in [s]:
    [s.indexOf(t)] as a split. *)
Fixpoint splitFirst (s t : string) : option (string * string) :=
  if startsWith s t then Some (EmptyString, drop (len t) s)
  else match s with
       | EmptyString => None
       | String c s' =>
           match splitFirst s' t with
           | Some (pre, post) => Some (String c pre, post)
           | None => None
           end
       end.

(** [s.endsWith(t)] *)
Definition endsWith (s t : string) : bool :=
  (len t <=? len s)%nat && String.eqb (drop (len s - len t) s) t.

(** GetSubstitution of ECMAScript for a string pattern (no captures):
    in the replacement text [$$] is a dollar sign, [$&] the matched text,
    [$`] the text before the match and [$'] the text after it; any other
    use of [$] stands for itself. *)
Fixpoint getSubstitution (matched pre post repl : string) : string :=
  match repl with
  | EmptyString => EmptyString
  | String c r =>
      if Ascii.eqb c "$" then
        match r with
        | String d r' =>
            if Ascii.eqb d "$" then String "$" (getSubstitution matched pre post r')
            else if Ascii.eqb d "&" then matched +:+ getSubstitution matched pre post r'
            else if Ascii.eqb d "`" then pre +:+ getSubstitution matched pre post r'
            else if Ascii.eqb d "'" then post +:+ getSubstitution matched pre post r'
            else String c (getSubstitution matched pre post r)
        | EmptyString => String c EmptyString
        end
      else String c (getSubstitution matched pre post r)
  end.

(** [s.replace(t, r)] with a string pattern [t] and a string [r]: only
    the leftmost occurrence is replaced. *)
Definition replace (s t r : string) : string :=
  match splitFirst s t with
  | Some (pre, post) => pre +:+ getSubstitution t pre post r +:+ post
  | None => s
  end.

(** [s.split('\n')]: the pieces between line feeds, always at least one. *)
Fixpoint splitLines (s : string) : list string :=
  match s with
  | EmptyString => [EmptyString]
  | String c r =>
      if Ascii.eqb c "010" then EmptyString :: splitLines r
      else match splitLines r with
           | l :: ls => String c l :: ls
           | [] => [String c EmptyString]
           end
  end.

(** [xs.join(sep)] *)
Fixpoint join (sep : string) (xs : list string) : string :=
  match xs with
  | [] => EmptyString
  | [x] => x
  | x :: rest => x +:+ sep +:+ join sep rest
  end.

Definition LF : string := String "010" EmptyString.

(** A string is truthy when it is not empty. *)
Definition nonEmpty (s : string) : bool := negb (String.eqb s EmptyString).

(** Decimal rendering of a number in a template string. *)
Definition ofNat (n : nat) : string := NilZero.string_of_uint (Nat.to_uint n).
Definition ofZ (z : Z) : string := NilZero.string_of_int (Z.to_int z).

(** *** Numbers as text

    A number of the program is a double. The number an integer literal
    [m] stands for is the double nearest to [m], a tie going to the even
    significand of 53 bits; an integer up to 2^53 is its own double. *)

(** The value of that double for [m > 0]; [None] is [Infinity]. *)
Definition nearestDouble (m : Z) : option Z :=
  let bits := (Z.log2 m + 1)%Z in
  if (bits <=? 53)%Z then Some m
  else
    let e := (bits - 53)%Z in
    let q := (m / 2 ^ e)%Z in
    let r := (m mod 2 ^ e)%Z in
    let half := (2 ^ (e - 1))%Z in
    let q' :=
      if ((half <? r) || ((r =? half) && Z.odd q))%Z then (q + 1)%Z else q in
    let d := (q' * 2 ^ e)%Z in
    if (2 ^ 1024 <=? d)%Z then None else Some d.

(** The decimal [v] is read as the double [d]. *)
Definition readsAs (d v : Z) : bool :=
  match nearestDouble v with
  | Some d' => (d' =? d)%Z
  | None => false
  end.

(** Number::toString: the decimal with the fewest digits that is read
    as [d], and of two of them the nearer to [d], a tie going to the even
    one. With [k] digits kept the candidates are the multiples of
    [scale] on each side of [d]; [scale] starts at the power of ten of
    the first digit and goes down to 1, where [d] itself is found. *)
Fixpoint shortest (fuel : nat) (d scale : Z) : Z :=
  match fuel with
  | O => d
  | S fuel' =>
      let lo := (d / scale * scale)%Z in
      let hi := (lo + scale)%Z in
      match readsAs d lo, readsAs d hi with
      | true, true =>
          if (d - lo <? hi - d)%Z then lo
          else if (hi - d <? d - lo)%Z then hi
          else if Z.even (d / scale) then lo else hi
      | true, false => lo
      | false, true => hi
      | false, false => shortest fuel' d (scale / 10)%Z
      end
  end.

(** [v] without the zeros at its end. *)
Fixpoint significand (fuel : nat) (v : Z) : Z :=
  match fuel with
  | O => v
  | S fuel' =>
      if ((0 <? v) && (v mod 10 =? 0))%Z then significand fuel' (v / 10)%Z
      else v
  end.

(** ToString of the number the integer [z] stands for: its digits when
    there are at most 21 of them, and from 1e21 on one digit, the
    further ones after a point, and the exponent. *)
Definition ofNumber (z : Z) : string :=
  if (z =? 0)%Z then "0"
  else
    let sign := if (z <? 0)%Z then "-" else EmptyString in
    match nearestDouble (Z.abs z) with
    | None => sign +:+ "Infinity"
    | Some d =>
        let width := len (ofZ d) in
        let v := shortest width d (10 ^ (Z.of_nat width - 1))%Z in
        let n := len (ofZ v) in
        if (n <=? 21)%nat then sign +:+ ofZ v
        else
          match ofZ (significand n v) with
          | String c EmptyString =>
              sign +:+ String c ("e+" +:+ ofNat (n - 1))
          | String c more =>
              sign +:+ String c ("." +:+ more +:+ "e+" +:+ ofNat (n - 1))
          | EmptyString => sign
          end
    end.

End JS.

(** ** JavaScript values and exceptions *)

(** The values a parsed tool-call argument can hold. [JNum z] is the
    number the integer literal [z] stands for, [JObj] a plain object,
    [JArr items] an array. *)
#[local] Unset Elimination Schemes.
Inductive JSVal : Type :=
| JUndefined
| JNull
| JBool (b : bool)
| JNum (z : Z)
| JStr (s : string)
| JObj
| JArr (items : list JSVal).
#[local] Set Elimination Schemes.

(** ToBoolean *)
Definition truthy (v : JSVal) : bool :=
  match v with
  | JUndefined | JNull => false
  | JBool b => b
  | JNum z => negb (z =? 0)%Z
  | JStr s => JS.nonEmpty s
  | JObj | JArr _ => true
  end.

(** ToString, as a template string or a string method applies it. An
    array gives its elements joined by commas, [null] and [undefined]
    among them giving nothing. *)
Fixpoint toStr (v : JSVal) : string :=
  match v with
  | JUndefined => "undefined"
  | JNull => "null"
  | JBool true => "true"
  | JBool false => "false"
  | JNum z => JS.ofNumber z
  | JStr s => s
  | JObj => "[object Object]"
  | JArr items =>
      JS.join ","
        (map (fun item => match item with
                          | JUndefined | JNull => EmptyString
                          | _ => toStr item
                          end) items)
  end.

(** [v || ''] for a value printed in a message. *)
Definition orEmpty (v : JSVal) : JSVal :=
  if truthy v then v else JStr EmptyString.

(** The outcome of code that may throw: a value, or the message of the
    error thrown. *)
Inductive Exc (A : Type) : Type :=
| Ok (a : A)
| Throw (msg : string).
Arguments Ok {A} a.
Arguments Throw {A} msg.

Definition bindExc {A B} (m : Exc A) (k : A -> Exc B) : Exc B :=
  match m with
  | Ok a => k a
  | Throw msg => Throw msg
  end.

(** The parsed arguments of a tool call: a JavaScript object used as a
    mapping from parameter names to values. *)
Abbreviation Args := (gmap string JSVal).

(** [args.key]; an absent property reads as [undefined]. *)
Definition prop (args : Args) (key : string) : JSVal :=
  match args !! key with
  | Some v => v
  | None => JUndefined
  end.

(** ** Tool registry (tools.js) *)

Inductive Risk : Type := safe | ask | danger.

(** The own properties of the object literal [TOOL_RISK]. *)
Definition TOOL_RISK_entries : list (string * Risk) :=
  [ ("read_file", safe); ("list_directory", safe); ("search_files", safe);
    ("get_project_info", safe); ("write_file", ask); ("edit_file", ask);
    ("run_command", danger) ].

Definition TOOL_RISK : gmap string Risk := list_to_map TOOL_RISK_entries.

(** [TOOL_RISK] is an ordinary object, so a property read that finds no
    own property continues in [Object.prototype]; these are its keys, each
    holding a function (or, for [__proto__], the prototype object). *)
Definition Object_prototype_keys : list string :=
  [ "constructor"; "__defineGetter__"; "__defineSetter__"; "hasOwnProperty";
    "__lookupGetter__"; "__lookupSetter__"; "isPrototypeOf";
    "propertyIsEnumerable"; "toString"; "valueOf"; "__proto__";
    "toLocaleString" ].

(** What [TOOL_RISK[name]] evaluates to when it is not [undefined]. *)
Inductive RiskVal : Type :=
| Tag (r : Risk)
| Inherited (key : string).

(** [TOOL_RISK[name]] *)
Definition TOOL_RISK_get (name : string) : option RiskVal :=
  match TOOL_RISK !! name with
  | Some r => Some (Tag r)
  | None =>
      if bool_decide (name ∈ Object_prototype_keys) then Some (Inherited name)
      else None
  end.

(** [TOOL_RISK[name] || 'ask']: every value the read can produce is
    truthy, so the default applies exactly to [undefined]. *)
Definition riskOf (name : string) : RiskVal :=
  match TOOL_RISK_get name with
  | Some v => v
  | None => Tag ask
  end.

(** [risk !== 'safe'] *)
Definition notSafe (v : RiskVal) : bool :=
  match v with
  | Tag safe => false
  | _ => true
  end.

(** [risk === 'danger'] *)
Definition isDanger (v : RiskVal) : bool :=
  match v with
  | Tag danger => true
  | _ => false
  end.

(** ** The host platform: node's [path] module and string collation *)

Class Platform : Type := {
  path_resolve : string -> string -> string;
  path_join : string -> string -> string;
  path_relative : string -> string -> string;
  path_extname : string -> string;
  localeCompare : string -> string -> Z
}.

(** ** File system *)

(** A directory entry as [fs.readdir(dir, {withFileTypes: true})] gives it. *)
Record Dirent : Type := { d_name : string; isDirectory : bool }.

(** A regular file: its text as read with the utf-8 encoding, its size
    in bytes as [fs.stat] reports it, and the access the process has. *)
Record File : Type := {
  f_content : string;
  f_size : N;
  f_readable : bool;
  f_writable : bool
}.

(** A directory holds what [fs.readdir] answers for it: its entries, or
    the error raised (for instance when it cannot be opened). *)
Inductive Node : Type :=
| NFile (f : File)
| NDir (listing : Exc (list Dirent)).

Abbreviation FS := (gmap string Node).

Definition quoted (p : string) : string := "'" +:+ p +:+ "'".

(** [fs.readFile(p, 'utf-8')] *)
Definition readFile (fs : FS) (p : string) : Exc string :=
  match fs !! p with
  | Some (NFile f) =>
      if f_readable f then Ok (f_content f)
      else Throw ("EACCES: permission denied, open " +:+ quoted p)
  | Some (NDir _) => Throw "EISDIR: illegal operation on a directory, read"
  | None => Throw ("ENOENT: no such file or directory, open " +:+ quoted p)
  end.

(** Bytes of a string in utf-8: two for a code unit from 128 on. *)
Fixpoint utf8Length (s : string) : N :=
  match s with
  | EmptyString => 0%N
  | String c r => ((if (JS.code c <? 128)%nat then 1 else 2) + utf8Length r)%N
  end.

(** [fs.writeFile(p, text, 'utf-8')]: an existing file is overwritten when
    it is writable; a path that holds nothing yet receives a new file.
    The entry of a new file in the listing of its directory is added
    where a file can come into being, in [FileTools.createFile]. *)
Definition writeFile (fs : FS) (p text : string) : Exc FS :=
  match fs !! p with
  | Some (NFile f) =>
      if f_writable f then
        Ok (<[p := NFile {| f_content := text; f_size := utf8Length text;
                            f_readable := f_readable f;
                            f_writable := true |}]> fs)
      else Throw ("EACCES: permission denied, open " +:+ quoted p)
  | Some (NDir _) =>
      Throw ("EISDIR: illegal operation on a directory, open " +:+ quoted p)
  | None =>
      Ok (<[p := NFile {| f_content := text; f_size := utf8Length text;
                          f_readable := true; f_writable := true |}]> fs)
  end.

(** [fs.readdir(p, {withFileTypes: true})] *)
Definition readdir (fs : FS) (p : string) : Exc (list Dirent) :=
  match fs !! p with
  | Some (NDir listing) => listing
  | Some (NFile _) => Throw ("ENOTDIR: not a directory, scandir " +:+ quoted p)
  | None => Throw ("ENOENT: no such file or directory, scandir " +:+ quoted p)
  end.

(** [(await fs.stat(p)).size] *)
Definition statSize (fs : FS) (p : string) : Exc N :=
  match fs !! p with
  | Some (NFile f) => Ok (f_size f)
  | Some (NDir _) => Ok 4096%N
  | None => Throw ("ENOENT: no such file or directory, stat " +:+ quoted p)
  end.

(** How node's argument check describes a value that is not a string. *)
Definition received (v : JSVal) : string :=
  match v with
  | JUndefined => "undefined"
  | JNull => "null"
  | JBool b => "type boolean (" +:+ toStr v +:+ ")"
  | JNum z => "type number (" +:+ toStr v +:+ ")"
  | JStr s => "type string (" +:+ quoted s +:+ ")"
  | JObj => "an instance of Object"
  | JArr _ => "an instance of Array"
  end.

Definition dquote : string := String "034" EmptyString.

(** [path.resolve(projectDir, v)] throws a TypeError unless [v] is a
    string. *)
Definition resolveArg `{Platform} (projectDir : string) (v : JSVal) : Exc string :=
  match v with
  | JStr p => Ok (path_resolve projectDir p)
  | _ => Throw ("The " +:+ dquote +:+ "paths[1]" +:+ dquote
                +:+ " argument must be of type string. Received "
                +:+ received v)
  end.

(** The tools whose inside no property below looks into: they are taken
    as given, each with the signature of its implementation. *)
Class ExternalTools : Type := {
  readFileImpl : Args -> string -> FS -> Exc string * FS;
  writeFileImpl : Args -> string -> FS -> Exc string * FS;
  runCommandImpl : Args -> string -> FS -> Exc string * FS;
  getProjectInfoImpl : Args -> string -> FS -> Exc string * FS
}.

(** ** Tool implementations (tools.js) *)

Module Tools.
Section WithPlatform.
Context `{Platform}.

(** *** edit_file *)

(** [editFileImpl(args, projectDir)]: the text returned (or the error
    thrown by [path.resolve], which sits outside the [try]) and the file
    system afterwards. *)
Definition editFileImpl (args : Args) (projectDir : string) (fs : FS)
  : Exc string * FS :=
  match resolveArg projectDir (prop args "path") with
  | Throw msg => (Throw msg, fs)
  | Ok filePath =>
      match readFile fs filePath with
      | Throw msg => (Ok ("Error editing file: " +:+ msg), fs)
      | Ok content =>
          let target := toStr (prop args "target") in
          if negb (JS.includes content target) then
            (Ok ("Error: Target string not found in " +:+ toStr (prop args "path")
                 +:+ ". Make sure it matches exactly."), fs)
          else
            let newContent :=
              JS.replace content target (toStr (prop args "replacement")) in
            match writeFile fs filePath newContent with
            | Throw msg => (Ok ("Error editing file: " +:+ msg), fs)
            | Ok fs' => (Ok ("File edited successfully: " +:+ filePath), fs')
            end
      end
  end.

(** *** list_directory *)

Definition maxEntries : nat := 200.

Definition SKIP_DIRS : list string :=
  [ "node_modules"; ".git"; "__pycache__"; ".next"; "dist"; ".cache";
    ".gemini"; ".vscode"; ".idea"; "AppData"; "Application Data";
    "Local Settings"; "Desktop"; "Documents"; "Downloads"; "Music";
    "Pictures"; "Videos"; "OneDrive"; "Contacts"; "Favorites";
    "Links"; "Saved Games"; "Searches"; "PrintHood"; "Recent";
    "SendTo"; "Templates"; "NetHood"; "ntuser.dat"; "NTUSER.DAT";
    "coverage"; ".nyc_output"; ".angular"; ".npm"; ".yarn";
    ".nuget"; ".dotnet"; ".cargo"; "vendor"; "target" ].

(** [SKIP_DIRS.has(entry.name) || entry.name.startsWith('ntuser')] *)
Definition isSkipped (name : string) : bool :=
  bool_decide (name ∈ SKIP_DIRS) || JS.startsWith name "ntuser".

(** The comparator given to [entries.sort]: directories first, then by
    name. *)
Definition compareEntries (a b : Dirent) : Z :=
  if isDirectory a && negb (isDirectory b) then (-1)%Z
  else if negb (isDirectory a) && isDirectory b then 1%Z
  else localeCompare (d_name a) (d_name b).

(** [Array.prototype.sort] is stable: an element goes in front of the
    first one it does not come after. *)
Fixpoint insertEntry (x : Dirent) (l : list Dirent) : list Dirent :=
  match l with
  | [] => [x]
  | y :: r =>
      if (compareEntries x y <=? 0)%Z then x :: l else y :: insertEntry x r
  end.

Definition sortEntries (l : list Dirent) : list Dirent :=
  foldr insertEntry [] l.

(** One line of the listing, kept apart from its rendering so that the
    kinds of lines can be counted. *)
Inductive Line : Type :=
| LCapped (pre : string)
| LSkipped (pre name : string)
| LDir (pre name : string)
| LFile (pre name : string) (size : option N)
| LError (pre msg : string).

(** [x.toFixed(1)] for [x = size / unit] with [unit] a power of two: the
    quotient is exact, and of the two nearest tenths the larger is taken. *)
Definition toFixed1 (size unit : N) : string :=
  let tenths := ((10 * size + unit / 2) / unit)%N in
  JS.ofNat (N.to_nat (tenths / 10)) +:+ "." +:+ JS.ofNat (N.to_nat (tenths mod 10)).

Definition formatSize (size : N) : string :=
  if (size <? 1024)%N then JS.ofNat (N.to_nat size) +:+ "B"
  else if (size <? 1048576)%N then toFixed1 size 1024 +:+ "KB"
  else toFixed1 size 1048576 +:+ "MB".

Definition renderLine (l : Line) : string :=
  match l with
  | LCapped pre => pre +:+ "... (capped at " +:+ JS.ofNat maxEntries +:+ " entries)"
  | LSkipped pre name => pre +:+ name +:+ "/ [skipped]"
  | LDir pre name => pre +:+ name +:+ "/"
  | LFile pre name (Some size) => pre +:+ name +:+ " (" +:+ formatSize size +:+ ")"
  | LFile pre name None => pre +:+ name
  | LError pre msg => pre +:+ "[Error: " +:+ msg +:+ "]"
  end.

Section ListDir.
Variable fs : FS.
Variable recursive : bool.

(** [args.recursive ? 3 : 1] *)
Definition maxDepth : nat := if recursive then 3 else 1.

(** The [for (const entry of sorted)] loop of [listDir]; [sub] is the
    recursive call [listDir(path.join(dir, entry.name), depth + 1,
    prefix + '  ')]. The shared counter [entryCount] is passed in and
    returned. *)
Fixpoint listEntries (sub : string -> string -> nat -> list Line * nat)
    (dir pre : string) (sorted : list Dirent) (entryCount : nat)
  : list Line * nat :=
  match sorted with
  | [] => ([], entryCount)
  | entry :: rest =>
      if (maxEntries <=? entryCount)%nat then ([LCapped pre], entryCount)
      else if isSkipped (d_name entry) then
        let '(out, n) := listEntries sub dir pre rest (S entryCount) in
        (LSkipped pre (d_name entry) :: out, n)
      else if isDirectory entry then
        let '(below, n1) :=
          if recursive
          then sub (path_join dir (d_name entry)) (pre +:+ "  ") (S entryCount)
          else ([], S entryCount) in
        let '(out, n2) := listEntries sub dir pre rest n1 in
        (LDir pre (d_name entry) :: below ++ out, n2)
      else
        let size :=
          match statSize fs (path_join dir (d_name entry)) with
          | Ok sz => Some sz
          | Throw _ => None
          end in
        let '(out, n) := listEntries sub dir pre rest (S entryCount) in
        (LFile pre (d_name entry) size :: out, n)
  end.

(** [listDir(dir, depth, prefix)]. The recursion is on [fuel], one unit
    per level; [listDir_fuel] below shows that the guard on [depth]
    always fires before the fuel is used up. *)
Fixpoint listDir (fuel : nat) (dir : string) (depth : nat) (pre : string)
    (entryCount : nat) : list Line * nat :=
  match fuel with
  | O => ([], entryCount)
  | S fuel' =>
      if (maxDepth <? depth)%nat || (maxEntries <=? entryCount)%nat
      then ([], entryCount)
      else
        match readdir fs dir with
        | Throw msg => ([LError pre msg], entryCount)
        | Ok entries =>
            listEntries (fun d p n => listDir fuel' d (S depth) p n)
                        dir pre (sortEntries entries) entryCount
        end
  end.

End ListDir.

(** [listDirectoryImpl(args, projectDir)] *)
Definition listDirectoryLines (args : Args) (projectDir : string) (fs : FS)
  : Exc (list Line) :=
  let pathArg := if truthy (prop args "path") then prop args "path" else JStr "." in
  bindExc (resolveArg projectDir pathArg) (fun dirPath =>
    let recursive := truthy (prop args "recursive") in
    Ok (fst (listDir fs recursive (S (maxDepth recursive)) dirPath 1 EmptyString 0))).

Definition listDirectoryImpl (args : Args) (projectDir : string) (fs : FS)
  : Exc string :=
  bindExc (listDirectoryLines args projectDir fs) (fun items =>
    let text := JS.join JS.LF (map renderLine items) in
    Ok (if JS.nonEmpty text then text else "(empty directory)")).

(** *** search_files *)

Definition maxResults : nat := 30.
Definition maxSearchDepth : nat := 5.

Definition SEARCH_SKIP : list string :=
  [ "node_modules"; ".git"; "__pycache__"; ".next"; "dist" ].

(** What the scan touches, most recent first: a directory listed, a file
    opened, a line tested against the pattern (with its 1-based number
    and whether it matched). *)
Inductive SearchEvent : Type :=
| SList (dir : string)
| SRead (file : string)
| STest (file : string) (lineNo : nat) (hit : bool).

(** The array [results] shared by the two closures, and the record of
    the scan. *)
Record SearchState : Type := {
  results : list string;
  scanned : list SearchEvent
}.

Definition note (e : SearchEvent) (st : SearchState) : SearchState :=
  {| results := results st; scanned := e :: scanned st |}.

Definition push (r : string) (st : SearchState) : SearchState :=
  {| results := results st ++ [r]; scanned := scanned st |}.

Definition capReached (st : SearchState) : bool :=
  (maxResults <=? length (results st))%nat.

Section Search.
Variable fs : FS.
Variable args : Args.
Variable projectDir : string.

(** [args.pattern] as [includes] reads it *)
Definition searchPattern : string := toStr (prop args "pattern").

(** The [for (let i = 0; i < lines.length; i++)] loop of [searchInFile]. *)
Fixpoint scanLines (filePath : string) (lines : list string) (i : nat)
    (st : SearchState) : SearchState :=
  match lines with
  | [] => st
  | line :: rest =>
      if JS.includes line searchPattern then
        let relPath := path_relative projectDir filePath in
        let st' :=
          push (relPath +:+ ":" +:+ JS.ofNat (i + 1) +:+ ": " +:+ JS.trim line)
               (note (STest filePath (i + 1) true) st) in
        if capReached st' then st' else scanLines filePath rest (S i) st'
      else scanLines filePath rest (S i) (note (STest filePath (i + 1) false) st)
  end.

(** [searchInFile(filePath)]: a file that cannot be read is passed over. *)
Definition searchInFile (filePath : string) (st : SearchState) : SearchState :=
  match readFile fs filePath with
  | Throw _ => note (SRead filePath) st
  | Ok content => scanLines filePath (JS.splitLines content) 0 (note (SRead filePath) st)
  end.

(** The [for (const entry of entries)] loop of [walkDir]; [sub] is the
    recursive call [walkDir(fullPath, depth + 1)]. A [file_pattern] that
    is truthy but not a string makes [args.file_pattern.replace] throw;
    the enclosing [catch] ends the loop and keeps what was found. *)
Fixpoint walkEntries (sub : string -> SearchState -> SearchState)
    (dir : string) (entries : list Dirent) (st : SearchState) : SearchState :=
  match entries with
  | [] => st
  | entry :: rest =>
      if capReached st then st
      else if bool_decide (d_name entry ∈ SEARCH_SKIP) then walkEntries sub dir rest st
      else
        let fullPath := path_join dir (d_name entry) in
        if isDirectory entry then walkEntries sub dir rest (sub fullPath st)
        else if truthy (prop args "file_pattern") then
          match prop args "file_pattern" with
          | JStr fp =>
              let ext := path_extname (d_name entry) in
              let pattern := JS.replace fp "*" EmptyString in
              if negb (JS.endsWith (d_name entry) pattern)
                 && negb (String.eqb ext pattern)
              then walkEntries sub dir rest st
              else walkEntries sub dir rest (searchInFile fullPath st)
          | _ => st
          end
        else walkEntries sub dir rest (searchInFile fullPath st)
  end.

(** [walkDir(dir, depth)], by recursion on [fuel] as for [listDir]. *)
Fixpoint walkDir (fuel : nat) (dir : string) (depth : nat) (st : SearchState)
  : SearchState :=
  match fuel with
  | O => st
  | S fuel' =>
      if (maxSearchDepth <? depth)%nat || capReached st then st
      else
        match readdir fs dir with
        | Throw _ => note (SList dir) st
        | Ok entries =>
            walkEntries (fun d s => walkDir fuel' d (S depth) s)
                        dir entries (note (SList dir) st)
        end
  end.

End Search.

(** The state [searchFilesImpl] ends its walk in. *)
Definition searchFilesWalk (args : Args) (projectDir : string) (fs : FS)
  : Exc SearchState :=
  let pathArg := if truthy (prop args "path") then prop args "path" else JStr "." in
  bindExc (resolveArg projectDir pathArg) (fun searchDir =>
    Ok (walkDir fs args projectDir (maxSearchDepth + 2) searchDir 0
          {| results := []; scanned := [] |})).

(** The text returned for the matches collected. *)
Definition searchReport (found : list string) : string :=
  if (0 <? length found)%nat then
    JS.join JS.LF found
    +:+ (if (maxResults <=? length found)%nat
         then JS.LF +:+ "... (capped at " +:+ JS.ofNat maxResults +:+ " results)"
         else EmptyString)
  else "No matches found.".

(** [searchFilesImpl(args, projectDir)] *)
Definition searchFilesImpl (args : Args) (projectDir : string) (fs : FS)
  : Exc string :=
  bindExc (searchFilesWalk args projectDir fs) (fun st =>
    Ok (searchReport (results st))).

(** *** The executor *)

(** [executeTool(name, args, projectDir)] *)
Definition executeTool `{ExternalTools} (name : string) (args : Args)
    (projectDir : string) (fs : FS) : Exc string * FS :=
  if String.eqb name "read_file" then readFileImpl args projectDir fs
  else if String.eqb name "write_file" then writeFileImpl args projectDir fs
  else if String.eqb name "edit_file" then editFileImpl args projectDir fs
  else if String.eqb name "list_directory" then (listDirectoryImpl args projectDir fs, fs)
  else if String.eqb name "search_files" then (searchFilesImpl args projectDir fs, fs)
  else if String.eqb name "run_command" then runCommandImpl args projectDir fs
  else if String.eqb name "get_project_info" then getProjectInfoImpl args projectDir fs
  else (Ok ("Unknown tool: " +:+ name), fs).

End WithPlatform.
End Tools.

(** ** The agent (agent.js) *)

(** [JSON.parse] and [JSON.stringify] for tool-call arguments. *)
Class JSON : Type := {
  JSON_parse : string -> Exc Args;
  JSON_stringify : Args -> string
}.

Module Agent.

(** *** Replies of the model and conversation history *)

(** A normalized tool call [{id, name, args}]. *)
Record ToolCall : Type := { tc_id : string; tc_name : string; tc_args : Args }.

(** The argument payload of a call as the provider sends it: JSON text,
    an object, or nothing. *)
Inductive Payload : Type :=
| PJson (text : string)
| PObject (a : Args)
| PAbsent.

(** An entry of [message.tool_calls]: [{id, function: {name, arguments},
    name}]; an absent name is the empty string. *)
Record FunctionCall : Type := {
  fc_id : string;
  fc_function_name : string;
  fc_name : string;
  fc_arguments : Payload
}.

(** A typed block of a content list. *)
Inductive Block : Type :=
| TextBlock (text : string)
| ToolUseBlock (id name : string) (input : Payload)
| OtherBlock.

Inductive Content : Type :=
| CAbsent
| CText (s : string)
| CBlocks (bs : list Block).

Record Message : Type := {
  content : Content;
  tool_calls : option (list FunctionCall)
}.

(** The reply object: its [message], and what its [toString()] gives. *)
Record Response : Type := { message : Message; asString : string }.

(** The canonical encoding of a call in an assistant turn:
    [{id, type: 'function', function: {name, arguments}}]. *)
Record CanonicalCall : Type := {
  cc_id : string;
  cc_name : string;
  cc_arguments : string
}.

(** An element of the [messages] array. *)
Inductive Turn : Type :=
| TSystem (text : string)
| TUser (text : string)
| TAssistantRaw (m : Message)
| TAssistant (text : option string) (calls : list CanonicalCall)
| TTool (tool_call_id : string) (text : string).

(** *** What happens on the terminal and towards the collaborators *)

Inductive Preview : Type :=
| PDiff (existing content path : string)
| PNewFile (firstLines : list string) (more : option nat)
| PEditOld (target : string)
| PEditNew (replacement : string).

Inductive Report : Type :=
| RLines (lineCount : nat)
| RCommandOutput (firstLines : list string)
| RCommandMore (more : nat)
| RDone.

Inductive Event : Type :=
| EvChat (history : list Turn)
| EvSay (text : string)
| EvFinal (text : string)
| EvShowCall (name detail : string)
| EvPreview (p : Preview)
| EvReplPause
| EvReplResume
| EvAsk (question : string)
| EvAnswer (line : string)
| EvExec (name : string) (args : Args)
| EvReport (r : Report)
| EvToolError (msg : string)
| EvError (msg : string)
| EvWait
| EvWarnMax (maxIterations : nat).

(** The state a run threads through: the working-directory file system,
    the events so far in the order they happened, and how many questions
    and model calls were made. *)
Record St : Type := {
  fs : FS;
  out : list Event;
  prompts : nat;
  chats : nat
}.

(** Code that may throw, over that state; what was done before a throw
    stays done. *)
Definition Act (A : Type) : Type := St -> Exc A * St.

#[global] Instance act_ret : MRet Act := fun A a st => (Ok a, st).

#[global] Instance act_bind : MBind Act := fun A B k m st =>
  match m st with
  | (Ok a, st') => k a st'
  | (Throw msg, st') => (Throw msg, st')
  end.

Definition throw {A} (msg : string) : Act A := fun st => (Throw msg, st).

Definition emitSt (e : Event) (st : St) : St :=
  {| fs := fs st; out := out st ++ [e]; prompts := prompts st; chats := chats st |}.

Definition emit (e : Event) : Act unit := fun st => (Ok tt, emitSt e st).

Definition when (b : bool) (m : Act unit) : Act unit :=
  if b then m else mret tt.

(** *** Response normalizer *)

Section Normalizer.
Context `{JSON}.

(** [typeof p === 'string' ? JSON.parse(p) : (p || {})] *)
Definition parsePayload (p : Payload) : Exc Args :=
  match p with
  | PJson text => JSON_parse text
  | PObject a => Ok a
  | PAbsent => Ok ∅
  end.

Fixpoint fromFunctionCalls (tcs : list FunctionCall) : Exc (list ToolCall) :=
  match tcs with
  | [] => Ok []
  | tc :: rest =>
      bindExc (parsePayload (fc_arguments tc)) (fun args =>
      bindExc (fromFunctionCalls rest) (fun calls =>
        Ok ({| tc_id := fc_id tc;
               tc_name := if JS.nonEmpty (fc_function_name tc)
                          then fc_function_name tc else fc_name tc;
               tc_args := args |} :: calls)))
  end.

Fixpoint fromBlocks (bs : list Block) : Exc (list ToolCall) :=
  match bs with
  | [] => Ok []
  | ToolUseBlock id name input :: rest =>
      bindExc (parsePayload input) (fun args =>
      bindExc (fromBlocks rest) (fun calls =>
        Ok ({| tc_id := id; tc_name := name; tc_args := args |} :: calls)))
  | _ :: rest => fromBlocks rest
  end.

(** [normalizeToolCalls(message)]; [JSON.parse] may throw. *)
Definition normalizeToolCalls (m : Message) : Exc (list ToolCall) :=
  match tool_calls m with
  | Some (tc :: rest) => fromFunctionCalls (tc :: rest)
  | _ =>
      match content m with
      | CBlocks bs => fromBlocks bs
      | _ => Ok []
      end
  end.

(** [content.filter(c => c.type === 'text').map(c => c.text)] *)
Fixpoint textsOf (bs : list Block) : list string :=
  match bs with
  | [] => []
  | TextBlock t :: rest => t :: textsOf rest
  | _ :: rest => textsOf rest
  end.

Definition canonical (tc : ToolCall) : CanonicalCall :=
  {| cc_id := tc_id tc; cc_name := tc_name tc;
     cc_arguments := JSON_stringify (tc_args tc) |}.

(** [normalizeAssistantMessage(message, toolCalls)] *)
Definition normalizeAssistantMessage (m : Message) (toolCalls : list ToolCall)
  : Turn :=
  match tool_calls m with
  | Some _ => TAssistantRaw m
  | None =>
      if (0 <? length toolCalls)%nat then
        let textContent :=
          match content m with
          | CBlocks bs =>
              let texts := textsOf bs in
              if (0 <? length texts)%nat
              then Some (JS.join EmptyString texts) else None
          | CText s => Some s
          | CAbsent => None
          end in
        TAssistant textContent (map canonical toolCalls)
      else
        match content m with
        | CBlocks bs => TAssistant (Some (JS.join EmptyString (textsOf bs))) []
        | _ => TAssistantRaw m
        end
  end.

(** [extractText(response)] for a reply object. *)
Definition extractText (r : Response) : string :=
  let fallback :=
    let str := asString r in
    if JS.nonEmpty str && negb (String.eqb str "[object Object]")
       && negb (JS.startsWith str "undefined")
    then str else EmptyString in
  match content (message r) with
  | CText s => if JS.nonEmpty s then s else fallback
  | CBlocks bs =>
      let texts := textsOf bs in
      if (0 <? length texts)%nat then JS.join EmptyString texts else fallback
  | CAbsent => fallback
  end.

End Normalizer.

(** *** The permission gate and the handling of one tool call *)

Section Loop.
Context `{Platform} `{JSON}.

(** [executeTool] as imported from tools.js; the loop is studied for
    any executor of that signature. *)
Variable executeTool : string -> Args -> string -> FS -> Exc string * FS.

(** [puter.ai.chat(messages, {model, tools})]: what the k-th call of a
    run answers for the history it is given, or the error it raises. *)
Variable chat : nat -> list Turn -> Exc Response.

(** The line the human types at the k-th permission question. *)
Variable answers : nat -> string.

(** Whether the interactive prompt [globalRl] exists. When it does, it
    is paused for the question but its handler of lines stays attached:
    the line typed as the answer reaches that handler too, which acts on
    it when it is one of its commands ([/clear] cuts the shared history
    in the middle of the run). The loop is modelled for answers that are
    no such command, for which the handler does nothing
    ([Repl.heardByPrompt]), and for runs during which no other line is
    typed. *)
Variable globalRl : bool.

Variable projectDir : string.
Variable autoApprove : bool.

(** [askPermission(question)]; the answer is what the permission check
    gets, and is taken to be no command of the prompt (see [globalRl]). *)
Definition askPermission (question : string) : Act string := fun st =>
  let st1 := if globalRl then emitSt EvReplPause st else st in
  let answer := answers (prompts st) in
  let st2 := emitSt (EvAnswer answer) (emitSt (EvAsk question) st1) in
  let st3 := if globalRl then emitSt EvReplResume st2 else st2 in
  (Ok (JS.trim (JS.toLowerCase answer)),
   {| fs := fs st3; out := out st3; prompts := S (prompts st3); chats := chats st3 |}).

(** A string method called on a value that is not a string. *)
Definition asText (what : string) (v : JSVal) : Act string :=
  match v with
  | JStr s => mret s
  | _ => throw (what +:+ " is not a function")
  end.

(** The line that announces the call. *)
Definition showCall (name : string) (args : Args) : Act unit :=
  let shown (key : string) := toStr (orEmpty (prop args key)) in
  let shownDir :=
    toStr (if truthy (prop args "path") then prop args "path" else JStr ".") in
  if String.eqb name "run_command" then emit (EvShowCall name (shown "command"))
  else if String.eqb name "write_file" || String.eqb name "edit_file"
  then emit (EvShowCall name (shown "path"))
  else if String.eqb name "read_file" then emit (EvShowCall name (shown "path"))
  else if String.eqb name "list_directory" then emit (EvShowCall name shownDir)
  else if String.eqb name "search_files"
  then emit (EvShowCall name (dquote +:+ shown "pattern" +:+ dquote
                              +:+ " in " +:+ shownDir))
  else emit (EvShowCall name EmptyString).

(** The preview of a new file: the first 15 lines of the content. *)
Definition previewNewFile (v : JSVal) : Act unit :=
  text ← asText "args.content.split" v;
  let contentLines := JS.splitLines text in
  emit (EvPreview (PNewFile (take 15 contentLines)
          (if (15 <? length contentLines)%nat
           then Some (length contentLines - 15) else None))).

(** The preview of a [write_file]: a diff against the file when it can
    be read (and [generateDiff] can split the content), else the preview
    of a new file. *)
Definition previewWrite (args : Args) : Act unit := fun st =>
  match resolveArg projectDir (prop args "path") with
  | Throw msg => (Throw msg, st)
  | Ok filePath =>
      match readFile (fs st) filePath, prop args "content" with
      | Ok existing, JStr text =>
          emit (EvPreview (PDiff existing text (toStr (prop args "path")))) st
      | _, v => previewNewFile v st
      end
  end.

(** The preview of an [edit_file]: the target, then the replacement. *)
Definition previewEdit (args : Args) : Act unit :=
  target ← asText "args.target.split" (prop args "target");
  emit (EvPreview (PEditOld target));;
  replacement ← asText "(args.replacement || (intermediate value)).split"
                       (orEmpty (prop args "replacement"));
  emit (EvPreview (PEditNew replacement)).

(** The permission check: [Some text] is the early [return] of a
    refusal, [None] lets the call proceed to the executor. *)
Definition permissionGate (name : string) (args : Args) (risk : RiskVal)
  : Act (option string) :=
  when (String.eqb name "write_file" && truthy (prop args "content"))
       (previewWrite args);;
  when (String.eqb name "edit_file" && truthy (prop args "target"))
       (previewEdit args);;
  let riskLabel := if isDanger risk then "[DANGER]" else "[WRITE]" in
  answer ← askPermission ("  " +:+ riskLabel +:+ " Allow? [Y/n/skip] ");
  if String.eqb answer "n" || String.eqb answer "no"
  then mret (Some "Operation denied by user.")
  else if String.eqb answer "skip" || String.eqb answer "s"
  then mret (Some "Operation skipped by user.")
  else mret None.

(** [await executeTool(name, args, projectDir)] *)
Definition runExecutor (name : string) (args : Args) : Act string := fun st =>
  let st1 := emitSt (EvExec name args) st in
  let '(r, fs') := executeTool name args projectDir (fs st1) in
  (r, {| fs := fs'; out := out st1; prompts := prompts st1; chats := chats st1 |}).

(** Execution and the brief account of the output. *)
Definition executeAndReport (name : string) (args : Args) : Act string :=
  r ← runExecutor name args;
  let result := if JS.nonEmpty r then r else "(no output)" in
  when (bool_decide (name ∈ ["read_file"; "list_directory"; "search_files";
                              "get_project_info"])
        && (5 <? length (JS.splitLines result))%nat)
       (emit (EvReport (RLines (length (JS.splitLines result)))));;
  when (String.eqb name "run_command")
       (emit (EvReport (RCommandOutput (take 20 (JS.splitLines result))));;
        when (20 <? length (JS.splitLines result))%nat
             (emit (EvReport (RCommandMore (length (JS.splitLines result) - 20)))));;
  when ((String.eqb name "write_file" || String.eqb name "edit_file")
        && negb (JS.startsWith result "Error"))
       (emit (EvReport RDone));;
  mret result.

(** The body of the [try] of [handleToolCall]. *)
Definition handleBody (toolCall : ToolCall) : Act string :=
  let name := tc_name toolCall in
  let args := tc_args toolCall in
  let risk := riskOf name in
  showCall name args;;
  if notSafe risk && negb autoApprove then
    refusal ← permissionGate name args risk;
    match refusal with
    | Some text => mret text
    | None => executeAndReport name args
    end
  else executeAndReport name args.

(** [handleToolCall(toolCall, projectDir, autoApprove)]: the [catch]
    turns whatever was thrown into the result text. *)
Definition handleToolCall (toolCall : ToolCall) (st : St) : string * St :=
  match handleBody toolCall st with
  | (Ok result, st') => (result, st')
  | (Throw msg, st') =>
      ("Error executing tool: " +:+ msg, emitSt (EvToolError msg) st')
  end.

(** *** The loop *)

(** The [for (const tc of toolCalls)] loop: one tool turn per call. *)
Fixpoint dispatch (toolCalls : list ToolCall) (messages : list Turn) (st : St)
  : list Turn * St :=
  match toolCalls with
  | [] => (messages, st)
  | tc :: rest =>
      let '(result, st') := handleToolCall tc st in
      dispatch rest (messages ++ [TTool (tc_id tc) result]) st'
  end.

(** How an iteration hands control back to the [while]. *)
Inductive Control : Type := Next | Break.

(** The [catch] of the loop body. [errMsg] is the message of the error,
    or its name when the message is empty. *)
Definition onError (msg : string) (messages : list Turn) (st : St)
  : Control * list Turn * St :=
  let errMsg := if JS.nonEmpty msg then msg else "Error" in
  let st1 := emitSt (EvError errMsg) st in
  if JS.nonEmpty errMsg
     && (JS.includes errMsg "rate limit" || JS.includes errMsg "429")
  then (Next, messages, emitSt EvWait st1)
  else (Break, messages, st1).

(** One pass through the body of the [while]. After the final response
    is printed the [try] block simply ends, and control is back at the
    loop condition. *)
Definition iteration (messages : list Turn) (st : St)
  : Control * list Turn * St :=
  let st1 :=
    {| fs := fs st; out := out st ++ [EvChat messages];
       prompts := prompts st; chats := S (chats st) |} in
  match chat (chats st) messages with
  | Throw msg => onError msg messages st1
  | Ok response =>
      match normalizeToolCalls (message response) with
      | Throw msg => onError msg messages st1
      | Ok toolCalls =>
          let textParts := extractText response in
          let hasText := JS.nonEmpty textParts && JS.nonEmpty (JS.trim textParts) in
          let st2 :=
            if hasText && (0 <? length toolCalls)%nat
            then emitSt (EvSay (JS.trim textParts)) st1 else st1 in
          let messages1 :=
            (messages ++ [normalizeAssistantMessage (message response) toolCalls])%list in
          if (0 <? length toolCalls)%nat then
            let '(messages2, st3) := dispatch toolCalls messages1 st2 in
            (Next, messages2, st3)
          else
            (Next, messages1,
             if hasText then emitSt (EvFinal textParts) st2 else st2)
      end
  end.

(** [while (iterations < maxIterations) { iterations++; ... }], by
    recursion on [fuel]; [runAgentLoop] gives it [maxIterations] units,
    one per pass. *)
Fixpoint agentWhile (fuel maxIterations iterations : nat)
    (messages : list Turn) (st : St) : nat * list Turn * St :=
  match fuel with
  | O => (iterations, messages, st)
  | S fuel' =>
      if (iterations <? maxIterations)%nat then
        match iteration messages st with
        | (Next, messages', st') =>
            agentWhile fuel' maxIterations (S iterations) messages' st'
        | (Break, messages', st') => (S iterations, messages', st')
        end
      else (iterations, messages, st)
  end.

(** [runAgentLoop(puter, messages, modelName, projectDir, autoApprove,
    maxIterations)] *)
Definition runAgentLoop (messages : list Turn) (maxIterations : nat) (st : St)
  : list Turn * St :=
  let '(iterations, messages', st') :=
    agentWhile maxIterations maxIterations 0 messages st in
  (messages',
   if (maxIterations <=? iterations)%nat
   then emitSt (EvWarnMax maxIterations) st' else st').

End Loop.
End Agent.

(** ** Notions used to state the properties *)

(** The names the registry knows. *)
Definition registryNames : list string := TOOL_RISK_entries.*1.

(** [t] occurs in [s]. *)
Definition occursIn (t s : string) : Prop :=
  exists pre post, s = pre +:+ t +:+ post.

(** [pre] ends where the leftmost occurrence of [t] in [s] begins. *)
Definition leftmost (pre t s : string) : Prop :=
  forall a b, s = a +:+ t +:+ b -> (JS.len pre <= JS.len a)%nat.

(** Replacing every occurrence, left to right and without overlap: what
    the words "replaces all occurrences" describe. [fuel] bounds the
    number of positions visited. *)
Fixpoint replaceEvery (fuel : nat) (s t r : string) : string :=
  match fuel with
  | O => s
  | S fuel' =>
      if JS.startsWith s t && JS.nonEmpty t
      then r +:+ replaceEvery fuel' (JS.drop (JS.len t) s) t r
      else match s with
           | EmptyString => EmptyString
           | String c s' => String c (replaceEvery fuel' s' t r)
           end
  end.

Definition replaceAllOccurrences (s t r : string) : string :=
  replaceEvery (S (JS.len s)) s t r.

(** The replacement text holds no dollar sign. *)
Fixpoint dollarFree (r : string) : bool :=
  match r with
  | EmptyString => true
  | String c r' => negb (Ascii.eqb c "$") && dollarFree r'
  end.

Section ListingNotions.
Context `{Platform}.
Import Tools.

Definition isEntry (l : Line) : bool :=
  match l with
  | LSkipped _ _ | LDir _ _ | LFile _ _ _ => true
  | _ => false
  end.

Definition isCapped (l : Line) : bool :=
  match l with
  | LCapped _ => true
  | _ => false
  end.

Definition countEntries (ls : list Line) : nat := length (List.filter isEntry ls).
Definition countCapped (ls : list Line) : nat := length (List.filter isCapped ls).

(** A name on the deny-list appears only as a skipped line, and a
    skipped line only for such a name. *)
Definition wellMarked (l : Line) : Prop :=
  match l with
  | LSkipped _ name => isSkipped name = true
  | LDir _ name | LFile _ name _ => isSkipped name = false
  | _ => True
  end.

(** The number of entries the traversal comes to when nothing caps it:
    the entries of a directory it lists, and below each directory that is
    not skipped those of the next level, down to [maxDepth]. *)
Fixpoint reachEntries (recursive : bool) (sub : string -> nat) (dir : string)
    (sorted : list Dirent) : nat :=
  match sorted with
  | [] => 0
  | entry :: rest =>
      S ((if negb (isSkipped (d_name entry)) && isDirectory entry && recursive
          then sub (path_join dir (d_name entry)) else 0)
         + reachEntries recursive sub dir rest)
  end.

Fixpoint reachDir (fs : FS) (recursive : bool) (fuel : nat) (dir : string)
    (depth : nat) : nat :=
  match fuel with
  | O => 0
  | S fuel' =>
      if (maxDepth recursive <? depth)%nat then 0
      else match readdir fs dir with
           | Throw _ => 0
           | Ok entries =>
               reachEntries recursive
                 (fun d => reachDir fs recursive fuel' d (S depth))
                 dir (sortEntries entries)
           end
  end.

Definition reachable (fs : FS) (recursive : bool) (dir : string) : nat :=
  reachDir fs recursive (S (maxDepth recursive)) dir 1.

(** What a listing started at counter [c] amounts to, when [reach]
    entries lie ahead and at most [k] levels can leave a notice. *)
Definition listed (c reach k : nat) (res : list Line * nat) : Prop :=
  snd res = Nat.min maxEntries (c + reach)
  /\ countEntries (fst res) = (snd res - c)%nat
  /\ (countCapped (fst res) <= k)%nat
  /\ ((0 < countCapped (fst res))%nat -> (maxEntries < c + reach)%nat)
  /\ Forall wellMarked (fst res).

(** Matching line tests in a record of a scan. *)
Definition isHit (e : SearchEvent) : bool :=
  match e with
  | STest _ _ true => true
  | _ => false
  end.

Definition countHits (es : list SearchEvent) : nat := length (List.filter isHit es).

(** The most recent thing the scan did was to test a line that matched. *)
Definition endsOnHit (es : list SearchEvent) : Prop :=
  exists file lineNo earlier, es = STest file lineNo true :: earlier.

(** What holds of the state of a scan at every moment: at most
    [maxResults] matches, one per matching test, none of them empty, and
    when the cap is reached nothing was touched after the last match. *)
Definition scanInv (st : SearchState) : Prop :=
  (length (results st) <= maxResults)%nat
  /\ countHits (scanned st) = length (results st)
  /\ (capReached st = true -> endsOnHit (scanned st))
  /\ Forall (fun r => r <> EmptyString) (results st).

End ListingNotions.

Section TraversalNotions.
Context `{Platform}.
Import Tools.

(** The traversal the listing makes when nothing cuts it: the entries
    of a directory in sorted order, each followed by what lies below it
    when it is a directory that is not skipped and the listing is
    recursive. A name on the deny-list gives its one line, marked
    skipped, and nothing below. Only entries are kept: no notice, no
    error line. *)
Fixpoint fullEntries (fs : FS) (recursive : bool)
    (sub : string -> string -> list Line) (dir pre : string)
    (sorted : list Dirent) : list Line :=
  match sorted with
  | [] => []
  | entry :: rest =>
      (if isSkipped (d_name entry) then [LSkipped pre (d_name entry)]
       else if isDirectory entry then
         LDir pre (d_name entry)
         :: (if recursive then sub (path_join dir (d_name entry)) (pre +:+ "  ")
             else [])
       else
         [LFile pre (d_name entry)
            match statSize fs (path_join dir (d_name entry)) with
            | Ok sz => Some sz
            | Throw _ => None
            end])
      ++ fullEntries fs recursive sub dir pre rest
  end.

Fixpoint fullDir (fs : FS) (recursive : bool) (fuel : nat) (dir : string)
    (depth : nat) (pre : string) : list Line :=
  match fuel with
  | O => []
  | S fuel' =>
      if (maxDepth recursive <? depth)%nat then []
      else match readdir fs dir with
           | Throw _ => []
           | Ok entries =>
               fullEntries fs recursive
                 (fun d p => fullDir fs recursive fuel' d (S depth) p)
                 dir pre (sortEntries entries)
           end
  end.

Definition fullListing (fs : FS) (recursive : bool) (dir : string) : list Line :=
  fullDir fs recursive (S (maxDepth recursive)) dir 1 EmptyString.

(** The lines of a listing that are entries. *)
Definition entriesOf (items : list Line) : list Line := List.filter isEntry items.

End TraversalNotions.

Section TraceNotions.
Import Agent.

Definition isChat (e : Event) : bool :=
  match e with EvChat _ => true | _ => false end.
Definition isExec (e : Event) : bool :=
  match e with EvExec _ _ => true | _ => false end.
Definition isAsk (e : Event) : bool :=
  match e with EvAsk _ => true | _ => false end.
Definition isAnswer (e : Event) : bool :=
  match e with EvAnswer _ => true | _ => false end.
Definition isFinal (e : Event) : bool :=
  match e with EvFinal _ => true | _ => false end.
Definition isLoopError (e : Event) : bool :=
  match e with EvError _ => true | _ => false end.
Definition isWarning (e : Event) : bool :=
  match e with EvWarnMax _ => true | _ => false end.

(** The events the handling of a tool call can leave. *)
Definition isToolEvent (e : Event) : Prop :=
  match e with
  | EvShowCall _ _ | EvPreview _ | EvReplPause | EvReplResume | EvAsk _
  | EvAnswer _ | EvExec _ _ | EvReport _ | EvToolError _ => True
  | _ => False
  end.
Definition isToolTurn (t : Turn) : bool :=
  match t with TTool _ _ => true | _ => false end.

Definition count {A} (p : A -> bool) (l : list A) : nat := length (List.filter p l).

(** Every executor call in [evs] comes after an answer to a permission
    question given earlier in [evs]. *)
Definition execAfterAnswer (evs : list Event) : Prop :=
  forall before name args after,
    evs = (before ++ EvExec name args :: after)%list ->
    exists line, In (EvAnswer line) before.

(** The decision read from a line typed at the permission question. *)
Inductive Decision : Type := Allowed | Denied | Skipped.

Definition decisionOf (line : string) : Decision :=
  let answer := JS.trim (JS.toLowerCase line) in
  if String.eqb answer "n" || String.eqb answer "no" then Denied
  else if String.eqb answer "skip" || String.eqb answer "s" then Skipped
  else Allowed.

(** An event that is neither a model call nor the warning of the loop. *)
Definition loopSilent (e : Event) : Prop :=
  isChat e = false /\ isWarning e = false.

(** The state after the events [evs] were added to the trace. *)
Definition addOut (evs : list Event) (st : St) : St :=
  {| fs := fs st; out := out st ++ evs; prompts := prompts st; chats := chats st |}.

Definition isPreviewEv (e : Event) : Prop :=
  match e with EvPreview _ => True | _ => False end.
Definition isReportEv (e : Event) : Prop :=
  match e with EvReport _ => True | _ => False end.

(** An action that only adds events satisfying [P] to the trace. *)
Definition onlyEmits {A} (P : Event -> Prop) (m : Act A) : Prop :=
  forall st, exists r evs, m st = (r, addOut evs st) /\ Forall P evs.

(** The same for an action that moreover returns [a] without throwing. *)
Definition emitsAndReturns {A} (P : Event -> Prop) (m : Act A) (a : A) : Prop :=
  forall st, exists evs, m st = (Ok a, addOut evs st) /\ Forall P evs.

(** The early return a decision leads to. *)
Definition refusalOf (d : Decision) : option string :=
  match d with
  | Denied => Some "Operation denied by user."
  | Skipped => Some "Operation skipped by user."
  | Allowed => None
  end.

(** [r || '(no output)'] *)
Definition orNoOutput (r : string) : string :=
  if JS.nonEmpty r then r else "(no output)".

Section HandlingNotions.
Context `{Platform}.
Variable executeTool : string -> Args -> string -> FS -> Exc string * FS.
Variable answers : nat -> string.
Variable globalRl : bool.
Variable projectDir : string.
Variable autoApprove : bool.

(** The events of one permission question answered with [line]. *)
Definition askEvents (question line : string) : list Event :=
  ((if globalRl then [EvReplPause] else [])
   ++ [EvAsk question; EvAnswer line]
   ++ (if globalRl then [EvReplResume] else []))%list.

(** How the executor's outcome [r] shows in the result text of
    [handleToolCall] and in the events after the call. *)
Definition afterExec (r : Exc string) (tail : list Event) (result : string)
  : Prop :=
  match r with
  | Ok text => result = orNoOutput text /\ Forall isReportEv tail
  | Throw msg =>
      result = "Error executing tool: " +:+ msg /\ tail = [EvToolError msg]
  end.

(** The four ways the handling of a tool call can go, with the result
    text and the state each ends in. *)
Inductive Handled (tc : ToolCall) (st : St) : string -> St -> Prop :=
| HandledDirectly detail r fs' tail result :
    notSafe (riskOf (tc_name tc)) && negb autoApprove = false ->
    executeTool (tc_name tc) (tc_args tc) projectDir (fs st) = (r, fs') ->
    afterExec r tail result ->
    Handled tc st result
      {| fs := fs';
         out := out st ++ EvShowCall (tc_name tc) detail
                  :: EvExec (tc_name tc) (tc_args tc) :: tail;
         prompts := prompts st; chats := chats st |}
| HandledPreviewFailed detail previews msg :
    notSafe (riskOf (tc_name tc)) && negb autoApprove = true ->
    Forall isPreviewEv previews ->
    Handled tc st ("Error executing tool: " +:+ msg)
      {| fs := fs st;
         out := out st ++ EvShowCall (tc_name tc) detail
                  :: previews ++ [EvToolError msg];
         prompts := prompts st; chats := chats st |}
| HandledRefused detail previews question text :
    notSafe (riskOf (tc_name tc)) && negb autoApprove = true ->
    Forall isPreviewEv previews ->
    refusalOf (decisionOf (answers (prompts st))) = Some text ->
    Handled tc st text
      {| fs := fs st;
         out := out st ++ EvShowCall (tc_name tc) detail
                  :: previews ++ askEvents question (answers (prompts st));
         prompts := S (prompts st); chats := chats st |}
| HandledAllowed detail previews question r fs' tail result :
    notSafe (riskOf (tc_name tc)) && negb autoApprove = true ->
    Forall isPreviewEv previews ->
    decisionOf (answers (prompts st)) = Allowed ->
    executeTool (tc_name tc) (tc_args tc) projectDir (fs st) = (r, fs') ->
    afterExec r tail result ->
    Handled tc st result
      {| fs := fs';
         out := out st ++ EvShowCall (tc_name tc) detail
                  :: previews ++ askEvents question (answers (prompts st))
                  ++ EvExec (tc_name tc) (tc_args tc) :: tail;
         prompts := S (prompts st); chats := chats st |}.

End HandlingNotions.

End TraceNotions.

(** ** A sample host, for concrete runs *)

(** Paths with [/] as separator; names are compared code unit by code
    unit. *)
Definition posixResolve (base p : string) : string :=
  if JS.startsWith p "/" then p
  else if String.eqb p "." then base
  else base +:+ "/" +:+ p.

Definition posixRelative (base p : string) : string :=
  if JS.startsWith p (base +:+ "/") then JS.drop (S (JS.len base)) p else p.

Fixpoint posixExtname (name : string) : string :=
  match name with
  | EmptyString => EmptyString
  | String c r =>
      match posixExtname r with
      | EmptyString => if Ascii.eqb c "." then name else EmptyString
      | ext => ext
      end
  end.

Definition codeCompare (a b : string) : Z :=
  match String.compare a b with
  | Lt => (-1)%Z
  | Eq => 0%Z
  | Gt => 1%Z
  end.

#[local] Instance posix : Platform := {|
  path_resolve := posixResolve;
  path_join := fun d n => d +:+ "/" +:+ n;
  path_relative := posixRelative;
  path_extname := posixExtname;
  localeCompare := codeCompare
|}.

(** Arguments arrive as objects in the sample runs, so nothing is parsed. *)
#[local] Instance plainJSON : JSON := {|
  JSON_parse := fun _ => Throw "Unexpected token";
  JSON_stringify := fun _ => "{}"
|}.

(** The tools taken as given answer as follows in the sample runs:
    read_file with the line count and the content of a (short) file, the
    others with a fixed text. *)
Definition sampleReadFile (args : Args) (projectDir : string) (fs : FS)
  : Exc string * FS :=
  match resolveArg projectDir (prop args "path") with
  | Throw msg => (Throw msg, fs)
  | Ok filePath =>
      match readFile fs filePath with
      | Ok text =>
          (Ok ("[" +:+ JS.ofNat (length (JS.splitLines text)) +:+ " lines]"
               +:+ JS.LF +:+ text), fs)
      | Throw msg => (Ok ("Error reading file: " +:+ msg), fs)
      end
  end.

#[local] Instance sampleTools : ExternalTools := {|
  readFileImpl := sampleReadFile;
  writeFileImpl := fun _ _ fs => (Ok "File written successfully", fs);
  runCommandImpl := fun _ _ fs => (Ok "(command completed with no output)", fs);
  getProjectInfoImpl := fun _ _ fs => (Ok "Project directory: /p", fs)
|}.

Definition textFile (text : string) : Node :=
  NFile {| f_content := text; f_size := utf8Length text;
           f_readable := true; f_writable := true |}.

(** A file holding [aa], edited with target [a] and replacement [b]. *)
Definition editSampleFS : FS := {[ "/p/f.txt" := textFile "aa" ]}.
Definition editSampleArgs : Args :=
  {[ "path" := JStr "f.txt"; "target" := JStr "a"; "replacement" := JStr "b" ]}.

(** [n] lines, each holding [text]. *)
Fixpoint linesOf (text : string) (n : nat) : string :=
  match n with
  | O => EmptyString
  | S n' => text +:+ JS.LF +:+ linesOf text n'
  end.

(** A project with a file of 40 lines that all hold [hit], and a second
    file that holds it once. *)
Definition searchSampleFS : FS :=
  {[ "/p" := NDir (Ok [ {| d_name := "a.txt"; isDirectory := false |};
                        {| d_name := "b.txt"; isDirectory := false |} ]);
     "/p/a.txt" := textFile (linesOf "  a hit " 40);
     "/p/b.txt" := textFile "hit" ]}.

(** Names [f000], [f001], ... of fixed width, so that their order is the
    numeric one. *)
Definition digit (n : nat) : ascii := ascii_of_nat (48 + n mod 10).

Definition numbered (stem : string) (n : nat) : string :=
  stem +:+ String (digit (n / 100)) (String (digit (n / 10)) (String (digit n) EmptyString)).

Definition fileEntries (stem : string) (n : nat) : list Dirent :=
  map (fun k => {| d_name := numbered stem k; isDirectory := false |}) (seq 0 n).

Definition dirEntries (stem : string) (n : nat) : list Dirent :=
  map (fun k => {| d_name := numbered stem k; isDirectory := true |}) (seq 0 n).

(** A project [/p] with a directory [a] of 250 files and one more file
    [z.txt] next to it: 252 entries in all. *)
Definition nestedFS : FS :=
  foldr (fun k fs => <["/p/a/" +:+ numbered "f" k := textFile "x"]> fs)
        ({[ "/p" := NDir (Ok [ {| d_name := "z.txt"; isDirectory := false |};
                               {| d_name := "a"; isDirectory := true |} ]);
            "/p/a" := NDir (Ok (fileEntries "f" 250));
            "/p/z.txt" := textFile "z" ]})
        (seq 0 250).

Definition recursiveListing : Args :=
  {[ "path" := JStr "."; "recursive" := JBool true ]}.

Definition plainListing : Args := {[ "path" := JStr "." ]}.

(** A project [/p] with 200 directories [d000] ... [d199] and a
    directory [vendor], whose name is on the deny-list and sorts last. *)
Definition cappedSkipFS : FS :=
  {[ "/p" := NDir (Ok (dirEntries "d" 200
                       ++ [ {| d_name := "vendor"; isDirectory := true |} ])%list) ]}.

(** A project [/p] with a directory [a] of 198 files and a directory
    [b] of one file: 201 entries in all, [b] being the 200th. *)
Definition lastDirFS : FS :=
  foldr (fun k fs => <["/p/a/" +:+ numbered "f" k := textFile "x"]> fs)
        ({[ "/p" := NDir (Ok [ {| d_name := "b"; isDirectory := true |};
                               {| d_name := "a"; isDirectory := true |} ]);
            "/p/a" := NDir (Ok (fileEntries "f" 198));
            "/p/b" := NDir (Ok [ {| d_name := "g.txt"; isDirectory := false |} ]);
            "/p/b/g.txt" := textFile "g" ]})
        (seq 0 198).

(** The sample project and the stubs of the model used in concrete
    runs of the agent. *)
Section SampleRuns.
Import Agent.

Definition projectFS : FS :=
  {[ "/p" := NDir (Ok [ {| d_name := "index.js"; isDirectory := false |} ]);
     "/p/index.js" := textFile "console.log(1)" ]}.

Definition startState (files : FS) : St :=
  {| fs := files; out := []; prompts := 0; chats := 0 |}.

Definition runCommandCall : ToolCall :=
  {| tc_id := "call_1"; tc_name := "run_command";
     tc_args := {[ "command" := JStr "npm test" ]} |}.

Definition replyWithCall (name : string) (args : Args) : Response :=
  {| message :=
       {| content := CAbsent;
          tool_calls := Some [ {| fc_id := "call_1"; fc_function_name := name;
                                  fc_name := EmptyString;
                                  fc_arguments := PObject args |} ] |};
     asString := EmptyString |}.

Definition replyWithText (text : string) : Response :=
  {| message := {| content := CText text; tool_calls := None |};
     asString := text |}.

(** A model that requests a tool call whatever it is told. *)
Definition alwaysToolCall (k : nat) (history : list Turn) : Exc Response :=
  Ok (replyWithCall "list_directory" {[ "path" := JStr "." ]}).

(** The model of the scenario: first a [read_file] of [index.js], from
    then on the final text and no tool call. *)
Definition scenarioChat (k : nat) (history : list Turn) : Exc Response :=
  match k with
  | O => Ok (replyWithCall "read_file" {[ "path" := JStr "index.js" ]})
  | S _ => Ok (replyWithText "Added a guard clause.")
  end.

Definition scenarioHistory : list Turn :=
  [ TSystem "You are an expert AI coding assistant operating in an agentic mode.";
    TUser "add error handling" ].

(** The human who answers every question with the same line. *)
Definition alwaysAnswers (line : string) (k : nat) : string := line.

(** A model that first asks for [npm test] to be run, which needs
    permission, and then gives its final text. *)
Definition commandChat (k : nat) (history : list Turn) : Exc Response :=
  match k with
  | O => Ok (replyWithCall "run_command" {[ "command" := JStr "npm test" ]})
  | S _ => Ok (replyWithText "The tests pass.")
  end.

End SampleRuns.

(** * Further code of the repository

    The parts of the program around the ones above: [generateDiff] and
    the handler of a line of the interactive mode in [src/agent.js]; the
    tools of [src/tools.js] that read, write and run, and the executor
    with every tool in place; [pickModel] of [src/models.js].

    The conventions are the same. What node gives beyond the files and
    [path] (running a command, making directories, parsing a manifest)
    is a parameter, the class [Host]. A character of a message that is no
    code unit below 256 (the dash and the rules drawn in some texts)
    stands in a string by the bytes of its utf-8 encoding. *)

(** ** The diff shown before a write (agent.js) *)

Module Diff.

(** A line of the text [generateDiff] returns, without its colour: the
    two file headers, the hunk header [@@ -n +n @@], and a line of the
    hunk that is unchanged, removed or added. *)
Inductive DiffLine : Type :=
| DOld (filePath : string)
| DNew (filePath : string)
| DHunk (start : nat)
| DContext (text : string)
| DRemoved (text : string)
| DAdded (text : string).

Definition renderDiffLine (l : DiffLine) : string :=
  match l with
  | DOld filePath => "--- a/" +:+ filePath
  | DNew filePath => "+++ b/" +:+ filePath
  | DHunk start =>
      "@@ -" +:+ JS.ofNat start +:+ " +" +:+ JS.ofNat start +:+ " @@"
  | DContext text => "  " +:+ text
  | DRemoved text => "- " +:+ text
  | DAdded text => "+ " +:+ text
  end.

(** [oldLines[i] !== newLines[i]]; an index past the end reads as
    [undefined]. *)
Definition differAt (oldLines newLines : list string) (i : nat) : bool :=
  negb (bool_decide (oldLines !! i = newLines !! i)).

(** The first loop: the least [i < maxLen] at which the lines differ. *)
Definition firstDifference (oldLines newLines : list string) (maxLen : nat)
  : option nat :=
  List.find (differAt oldLines newLines) (seq 0 maxLen).

(** The second loop: the greatest such [i], found from [maxLen - 1] down. *)
Definition lastDifference (oldLines newLines : list string) (maxLen : nat)
  : option nat :=
  List.find (differAt oldLines newLines) (rev (seq 0 maxLen)).

(** What the third loop pushes for index [i]. *)
Definition hunkLines (oldLines newLines : list string) (i : nat)
  : list DiffLine :=
  let oldLine := if (i <? length oldLines)%nat then oldLines !! i else None in
  let newLine := if (i <? length newLines)%nat then newLines !! i else None in
  if bool_decide (oldLine = newLine) then
    [DContext (match oldLine with Some text => text | None => "undefined" end)]
  else
    (match oldLine with Some text => [DRemoved text] | None => [] end
     ++ match newLine with Some text => [DAdded text] | None => [] end)%list.

(** [diffStart] and [diffEnd] once the two loops are through; [None] when
    [diffStart] is still -1. A [diffEnd] still at -1 leaves the third loop
    without a pass, as the bound 0 does. *)
Definition diffWindow (oldLines newLines : list string) : option (nat * nat) :=
  let maxLen := Nat.max (length oldLines) (length newLines) in
  match firstDifference oldLines newLines maxLen with
  | None => None
  | Some i =>
      Some ((i - 2)%nat,
            match lastDifference oldLines newLines maxLen with
            | Some j => Nat.min maxLen (j + 3)
            | None => 0%nat
            end)
  end.

(** The lines of [generateDiff(oldContent, newContent, filePath)], or
    [None] when it answers that nothing changed. *)
Definition generateDiffLines (oldContent newContent filePath : string)
  : option (list DiffLine) :=
  let oldLines := JS.splitLines oldContent in
  let newLines := JS.splitLines newContent in
  let maxLen := Nat.max (length oldLines) (length newLines) in
  match diffWindow oldLines newLines with
  | None => None
  | Some (diffStart, diffEnd) =>
      Some ([DOld filePath; DNew filePath; DHunk (diffStart + 1)]
            ++ flat_map (hunkLines oldLines newLines)
                 (seq diffStart (Nat.min diffEnd maxLen - diffStart)))%list
  end.

Definition generateDiff (oldContent newContent filePath : string) : string :=
  match generateDiffLines oldContent newContent filePath with
  | None => "  (no changes)"
  | Some lines => JS.join JS.LF (map renderDiffLine lines)
  end.

End Diff.

(** ** The tools that read, write and run (tools.js) *)

(** What [child_process.execSync] comes to: the output of a command that
    ended with exit code 0, or the error thrown otherwise, with its
    [status] ([null] when the command was killed or could not be
    started) and what the command had printed. *)
Inductive ExecOutcome : Type :=
| Completed (output : string)
| Failed (status : option Z) (stdout stderr : string).

(** The properties [getProjectInfoImpl] reads of a parsed package.json.
    Of [scripts], [dependencies] and [devDependencies] only the keys are
    used, and only when the value is truthy: [None] is a falsy value. *)
Record Package : Type := {
  pkg_name : JSVal;
  pkg_version : JSVal;
  pkg_description : JSVal;
  pkg_scripts : option (list string);
  pkg_dependencies : option (list string);
  pkg_devDependencies : option (list string)
}.

(** What the tools below need of node beyond [path] and the files:
    [path.dirname] and [path.basename], [fs.mkdir(dir, {recursive:
    true})] (which may fail half way), [execSync(command, {cwd})],
    [JSON.parse] of the text of a package.json ([None] is the value
    [null]), and [Buffer.from] of an object or an array, as the text its
    bytes are read back as. *)
Class Host : Type := {
  path_dirname : string -> string;
  path_basename : string -> string;
  mkdir : string -> FS -> Exc unit * FS;
  execSync : string -> string -> FS -> ExecOutcome * FS;
  parsePackage : string -> Exc (option Package);
  Buffer_from : JSVal -> Exc string
}.

Module FileTools.
Section WithHost.
Context `{Platform} `{Host}.

(** *** read_file *)

(** [readFileImpl(args, projectDir)] *)
Definition readFileImpl (args : Args) (projectDir : string) (fs : FS)
  : Exc string * FS :=
  match resolveArg projectDir (prop args "path") with
  | Throw msg => (Throw msg, fs)
  | Ok filePath =>
      match readFile fs filePath with
      | Throw msg => (Ok ("Error reading file: " +:+ msg), fs)
      | Ok content =>
          let lines := JS.splitLines content in
          if (500 <? length lines)%nat then
            (Ok ("[" +:+ JS.ofNat (length lines) +:+ " lines — showing first 500]"
                 +:+ JS.LF +:+ JS.join JS.LF (take 500 lines) +:+ JS.LF +:+ JS.LF
                 +:+ "... (truncated, " +:+ JS.ofNat (length lines - 500)
                 +:+ " more lines)"), fs)
          else
            (Ok ("[" +:+ JS.ofNat (length lines) +:+ " lines]" +:+ JS.LF
                 +:+ content), fs)
      end
  end.

(** *** write_file *)

(** The TypeError of [fs.writeFile] for data that is neither a string
    nor an iterable. *)
Definition invalidData (v : JSVal) : string :=
  "The " +:+ dquote +:+ "data" +:+ dquote
  +:+ " argument must be of type string or an instance of Buffer, TypedArray, or DataView. Received "
  +:+ received v.

(** The TypeError of [Buffer.from] for a chunk it cannot take. *)
Definition invalidChunk (v : JSVal) : string :=
  "The first argument must be of type string or an instance of Buffer, ArrayBuffer, or Array or an Array-like Object. Received "
  +:+ received v.

(** [Buffer.from(chunk, 'utf-8')], as the text the bytes are read back
    as: a string gives itself, an object or an array what the host makes
    of it, anything else the TypeError. *)
Definition chunkText (chunk : JSVal) : Exc string :=
  match chunk with
  | JStr s => Ok s
  | JObj | JArr _ => Buffer_from chunk
  | v => Throw (invalidChunk v)
  end.

(** [fs.writeFile] takes an array as an iterable and writes its elements
    one after the other: the text written, and the error of the first
    element that cannot be written, if there is one. *)
Fixpoint chunksText (chunks : list JSVal) : string * option string :=
  match chunks with
  | [] => (EmptyString, None)
  | chunk :: rest =>
      match chunkText chunk with
      | Throw msg => (EmptyString, Some msg)
      | Ok text =>
          let '(more, failure) := chunksText rest in (text +:+ more, failure)
      end
  end.

(** A file that comes into being is a new entry of its directory. Where
    [readdir] puts it is the affair of the system; here it comes last. *)
Definition addEntry (fs : FS) (dir name : string) : FS :=
  match fs !! dir with
  | Some (NDir (Ok entries)) =>
      <[dir := NDir (Ok (entries
                         ++ [ {| d_name := name; isDirectory := false |} ])%list)]>
        fs
  | _ => fs
  end.

(** Opening [p] with the flag [w] and writing [text]. *)
Definition createFile (fs : FS) (p text : string) : Exc FS :=
  match writeFile fs p text with
  | Throw msg => Throw msg
  | Ok fs' =>
      Ok (match fs !! p with
          | None => addEntry fs' (path_dirname p) (path_basename p)
          | Some _ => fs'
          end)
  end.

(** [writeFileImpl(args, projectDir)]. Data that is neither a string nor
    an iterable is refused before the file is opened; the elements of an
    array are written after it is opened, so that an element that fails
    leaves the file with what came before it. *)
Definition writeFileImpl (args : Args) (projectDir : string) (fs : FS)
  : Exc string * FS :=
  match resolveArg projectDir (prop args "path") with
  | Throw msg => (Throw msg, fs)
  | Ok filePath =>
      match mkdir (path_dirname filePath) fs with
      | (Throw msg, fs1) => (Ok ("Error writing file: " +:+ msg), fs1)
      | (Ok _, fs1) =>
          match prop args "content" with
          | JStr text =>
              match createFile fs1 filePath text with
              | Throw msg => (Ok ("Error writing file: " +:+ msg), fs1)
              | Ok fs2 => (Ok ("File written successfully: " +:+ filePath), fs2)
              end
          | JArr chunks =>
              let '(text, failure) := chunksText chunks in
              match createFile fs1 filePath text with
              | Throw msg => (Ok ("Error writing file: " +:+ msg), fs1)
              | Ok fs2 =>
                  match failure with
                  | Some msg => (Ok ("Error writing file: " +:+ msg), fs2)
                  | None =>
                      (Ok ("File written successfully: " +:+ filePath), fs2)
                  end
              end
          | v => (Ok ("Error writing file: " +:+ invalidData v), fs1)
          end
      end
  end.

(** *** run_command *)

(** [err.status || 1] *)
Definition exitCode (status : option Z) : Z :=
  match status with
  | Some z => if (z =? 0)%Z then 1%Z else z
  | None => 1%Z
  end.

(** The text of the [catch] branch. *)
Definition failureText (status : option Z) (stdout stderr : string) : string :=
  JS.trim ("Command exited with code " +:+ JS.ofZ (exitCode status) +:+ JS.LF
           +:+ stdout +:+ JS.LF +:+ stderr).

(** [runCommandImpl(args, projectDir)]. A command that is not a string
    makes [execSync] throw a TypeError, which carries no status and no
    output, before anything runs. *)
Definition runCommandImpl (args : Args) (projectDir : string) (fs : FS)
  : Exc string * FS :=
  match prop args "command" with
  | JStr command =>
      match execSync command projectDir fs with
      | (Completed output, fs') =>
          (Ok (if JS.nonEmpty output then output
               else "(command completed with no output)"), fs')
      | (Failed status stdout stderr, fs') =>
          (Ok (failureText status stdout stderr), fs')
      end
  | _ => (Ok (failureText None EmptyString EmptyString), fs)
  end.

(** *** get_project_info *)

Definition configFiles : list string :=
  [ "tsconfig.json"; ".eslintrc.json"; "vite.config.js"; "next.config.js";
    "webpack.config.js"; "Cargo.toml"; "pyproject.toml"; "requirements.txt";
    "go.mod"; "Makefile"; "Dockerfile"; ".env.example" ].

(** [v || 'N/A'] in a template string *)
Definition orNA (v : JSVal) : string :=
  toStr (if truthy v then v else JStr "N/A").

(** [if (x) info.push(`Label: ${Object.keys(x).join(', ')}`)] *)
Definition keysLine (label : string) (keys : option (list string))
  : list string :=
  match keys with
  | Some ks => [label +:+ ": " +:+ JS.join ", " ks]
  | None => []
  end.

(** What the first [try] adds to [info]. Reading a property of [null]
    throws after the header is pushed. *)
Definition packageSection (projectDir : string) (fs : FS) : list string :=
  match readFile fs (path_join projectDir "package.json") with
  | Throw _ => []
  | Ok text =>
      match parsePackage text with
      | Throw _ => []
      | Ok None => [JS.LF +:+ "── package.json ──"]
      | Ok (Some pkg) =>
          ([JS.LF +:+ "── package.json ──";
            "Name: " +:+ orNA (pkg_name pkg);
            "Version: " +:+ orNA (pkg_version pkg)]
           ++ (if truthy (pkg_description pkg)
               then ["Description: " +:+ toStr (pkg_description pkg)] else [])
           ++ keysLine "Scripts" (pkg_scripts pkg)
           ++ keysLine "Dependencies" (pkg_dependencies pkg)
           ++ keysLine "Dev Dependencies" (pkg_devDependencies pkg))%list
      end
  end.

(** [fs.access(p)] succeeds when something is at [p]. *)
Definition accessible (fs : FS) (p : string) : bool :=
  bool_decide (is_Some (fs !! p)).

(** The configuration files found, in the order of [configFiles]. *)
Definition foundConfigs (projectDir : string) (fs : FS) : list string :=
  List.filter (fun cfg => accessible fs (path_join projectDir cfg)) configFiles.

Definition configSection (projectDir : string) (fs : FS) : list string :=
  let found := foundConfigs projectDir fs in
  if (0 <? length found)%nat
  then [JS.LF +:+ "── Config Files ──" +:+ JS.LF +:+ JS.join ", " found]
  else [].

(** What the last [try] adds: nothing unless both git commands succeed. *)
Definition gitSection (projectDir : string) (fs : FS) : list string * FS :=
  match execSync "git branch --show-current" projectDir fs with
  | (Failed _ _ _, fs1) => ([], fs1)
  | (Completed branch, fs1) =>
      match execSync "git status --short" projectDir fs1 with
      | (Failed _ _ _, fs2) => ([], fs2)
      | (Completed status, fs2) =>
          ([JS.LF +:+ "── Git ──" +:+ JS.LF +:+ "Branch: " +:+ JS.trim branch;
            if JS.nonEmpty (JS.trim status)
            then "Changes:" +:+ JS.LF +:+ JS.trim status
            else "Working tree clean"], fs2)
      end
  end.

(** [getProjectInfoImpl(args, projectDir)]; the call of
    [listDirectoryImpl] stands outside every [try]. *)
Definition getProjectInfoImpl (args : Args) (projectDir : string) (fs : FS)
  : Exc string * FS :=
  match Tools.listDirectoryImpl
          {[ "path" := JStr "."; "recursive" := JBool true ]} projectDir fs with
  | Throw msg => (Throw msg, fs)
  | Ok tree =>
      let '(git, fs') := gitSection projectDir fs in
      (Ok (JS.join JS.LF
             (["Project directory: " +:+ projectDir +:+ JS.LF;
               "── Directory Structure ──"; tree]
              ++ packageSection projectDir fs
              ++ configSection projectDir fs
              ++ git)%list), fs')
  end.

(** *** The executor over these tools *)

Definition tools : ExternalTools :=
  Build_ExternalTools readFileImpl writeFileImpl runCommandImpl
                      getProjectInfoImpl.

(** [executeTool(name, args, projectDir)] of tools.js, with every tool
    in place. *)
Definition executeTool (name : string) (args : Args) (projectDir : string)
    (fs : FS) : Exc string * FS :=
  @Tools.executeTool _ tools name args projectDir fs.

End WithHost.
End FileTools.

(** ** The model picker (models.js) *)

Module Models.

(** The value of [c] as a digit in [radix], if it is one. *)
Definition digitValue (radix : nat) (c : ascii) : option nat :=
  let n := JS.code c in
  let value :=
    if ((48 <=? n) && (n <=? 57))%nat then Some (n - 48)%nat
    else if ((97 <=? n) && (n <=? 122))%nat then Some (n - 87)%nat
    else if ((65 <=? n) && (n <=? 90))%nat then Some (n - 55)%nat
    else None in
  match value with
  | Some d => if (d <? radix)%nat then Some d else None
  | None => None
  end.

(** The number written by the longest prefix of [s] made of digits;
    [acc] is what the digits read so far amount to, [None] before the
    first one. *)
Fixpoint parseDigits (radix : nat) (s : string) (acc : option Z) : option Z :=
  match s with
  | EmptyString => acc
  | String c r =>
      match digitValue radix c with
      | Some d =>
          parseDigits radix r
            (Some (Z.of_nat radix * default 0%Z acc + Z.of_nat d)%Z)
      | None => acc
      end
  end.

(** [parseInt(s)] without a radix: white space is skipped, then a sign,
    then [0x] or [0X] announces base 16, then come the digits; [None] is
    [NaN]. The result is used in comparisons with small numbers only,
    which the rounding of a long number does not change. *)
Definition parseInt (s : string) : option Z :=
  let s0 := JS.trimStart s in
  let '(negative, s1) :=
    match s0 with
    | String c r =>
        if Ascii.eqb c "-" then (true, r)
        else if Ascii.eqb c "+" then (false, r)
        else (false, s0)
    | EmptyString => (false, s0)
    end in
  let '(radix, s2) :=
    if JS.startsWith s1 "0x" || JS.startsWith s1 "0X"
    then (16%nat, JS.drop 2 s1) else (10%nat, s1) in
  match parseDigits radix s2 None with
  | Some z => Some (if negative then (- z)%Z else z)
  | None => None
  end.

Record AgentModel : Type := { id : string; label : string; desc : string }.

Definition RECOMMENDED_AGENT_MODELS : list AgentModel :=
  [ {| id := "claude-opus-4.6"; label := "Claude Opus 4.6";
       desc := "Most capable — best for complex tasks" |};
    {| id := "claude-sonnet-4.6"; label := "Claude Sonnet 4.6";
       desc := "Balanced — great tool use, faster" |};
    {| id := "claude-sonnet-4.5"; label := "Claude Sonnet 4.5";
       desc := "Enhanced Sonnet" |};
    {| id := "claude-sonnet-4"; label := "Claude Sonnet 4";
       desc := "Reliable, well-tested" |};
    {| id := "gpt-5"; label := "GPT-5"; desc := "OpenAI flagship" |};
    {| id := "gpt-5-mini"; label := "GPT-5 Mini"; desc := "Fast OpenAI" |};
    {| id := "gemini-2.5-pro"; label := "Gemini 2.5 Pro";
       desc := "Google advanced" |};
    {| id := "grok-4"; label := "Grok 4"; desc := "xAI flagship" |};
    {| id := "deepseek-r1"; label := "DeepSeek R1"; desc := "Reasoning model" |} ].

(** What the callback of [rl.question] in [pickModel(defaultModel)]
    resolves the promise with for the line [answer], and whether it
    printed [Invalid model ID. Using default.] before. Reading [.id] of
    an index outside the list would throw. *)
Definition pickModel (defaultModel answer : string) : Exc (string * bool) :=
  let models := RECOMMENDED_AGENT_MODELS in
  let input := JS.trim answer in
  let custom :=
    if JS.includes input " " || (50 <? JS.len input)%nat
    then Ok (defaultModel, true) else Ok (input, false) in
  if negb (JS.nonEmpty input) then Ok (defaultModel, false)
  else
    match parseInt input with
    | Some num =>
        if ((1 <=? num) && (num <=? Z.of_nat (length models)))%Z then
          match models !! Z.to_nat (num - 1) with
          | Some m => Ok (id m, false)
          | None => Throw "Cannot read properties of undefined (reading 'id')"
          end
        else custom
    | None => custom
    end.

End Models.

(** ** The interactive mode (agent.js) *)

Module Repl.

(** What the handler of a line did, apart from changing the session. *)
Inductive Action : Type :=
| Reprompt
| Goodbye
| Notice (text : string)
| Help
| Shell (cmd : string) (outcome : ExecOutcome)
| Task (input : string)
| Ignored.

(** The variables the handler closes over: the [messages] array, the
    model, [options.auto], the flag [isAgentRunning], and the state of
    the agent. *)
Record Session : Type := {
  messages : list Agent.Turn;
  currentModel : string;
  auto : bool;
  isAgentRunning : bool;
  agent : Agent.St
}.

Section WithHost.
Context `{Platform} `{JSON} `{Host}.

Variable executeTool : string -> Args -> string -> FS -> Exc string * FS.

(** [puter.ai.chat] for the model named. *)
Variable chat : string -> nat -> list Agent.Turn -> Exc Agent.Response.

Variable answers : nat -> string.
Variable projectDir : string.

(** The default of [maxIterations] in [runAgentLoop]. *)
Definition defaultMaxIterations : nat := 25.

(** The handler of [rl.on('line', ...)] in [startAgentMode], when no
    other line arrives while the loop runs and no answer to a permission
    question is itself a command of the prompt ([heardByPrompt] below):
    such an answer would be handled here as well, during the run.
    [messages.length = 1] keeps the first turn of the array, which starts
    with the system turn and is never empty. The interactive prompt
    exists, so [globalRl] is set. *)
Definition onLine (line : string) (s : Session) : Session * Action :=
  let input := JS.trim line in
  if negb (JS.nonEmpty input) then (s, Reprompt)
  else if String.eqb input "/quit" || String.eqb input "/exit"
          || String.eqb input "/q"
  then (s, Goodbye)
  else if String.eqb input "/clear" then
    ({| messages := take 1 (messages s); currentModel := currentModel s;
        auto := auto s; isAgentRunning := isAgentRunning s;
        agent := agent s |},
     Notice "Conversation cleared.")
  else if JS.startsWith input "/model " then
    let model := JS.trim (JS.drop 7 input) in
    ({| messages := messages s; currentModel := model;
        auto := auto s; isAgentRunning := isAgentRunning s;
        agent := agent s |},
     Notice ("Switched to model: " +:+ model))
  else if String.eqb input "/auto" then
    ({| messages := messages s; currentModel := currentModel s;
        auto := negb (auto s); isAgentRunning := isAgentRunning s;
        agent := agent s |},
     Notice ("Auto-approve: " +:+ (if negb (auto s) then "ON" else "OFF")))
  else if String.eqb input "/help" then (s, Help)
  else if JS.startsWith input "!" then
    let cmd := JS.trim (JS.drop 1 input) in
    if negb (JS.nonEmpty cmd) then (s, Reprompt)
    else
      let '(outcome, files) := execSync cmd projectDir (Agent.fs (agent s)) in
      ({| messages := messages s; currentModel := currentModel s;
          auto := auto s; isAgentRunning := isAgentRunning s;
          agent := {| Agent.fs := files; Agent.out := Agent.out (agent s);
                      Agent.prompts := Agent.prompts (agent s);
                      Agent.chats := Agent.chats (agent s) |} |},
       Shell cmd outcome)
  else if isAgentRunning s then (s, Ignored)
  else
    let '(history, st) :=
      Agent.runAgentLoop executeTool (chat (currentModel s)) answers true
        projectDir (auto s) (messages s ++ [Agent.TUser input])
        defaultMaxIterations (agent s) in
    ({| messages := history; currentModel := currentModel s;
        auto := auto s; isAgentRunning := false; agent := st |},
     Task input).

(** The session after the lines [lines], one handler after the other,
    up to the line that ends the process: each line is typed at the
    prompt, after the handler of the line before it has returned. The
    lines typed at permission questions are [answers]; the handler gets
    them too, and they are taken to be lines it does nothing with. *)
Fixpoint onLines (lines : list string) (s : Session) : Session :=
  match lines with
  | [] => s
  | line :: rest =>
      match onLine line s with
      | (s', Goodbye) => s'
      | (s', _) => onLines rest s'
      end
  end.

End WithHost.

(** Whether the handler acts on a line that reaches it while a task
    runs: the line is one of its commands or a shell escape. On any
    other line it returns at [if (isAgentRunning) return], or prompts
    again when the line is blank. *)
Definition heardByPrompt (line : string) : bool :=
  let input := JS.trim line in
  String.eqb input "/quit" || String.eqb input "/exit" || String.eqb input "/q"
  || String.eqb input "/clear"
  || JS.startsWith input "/model "
  || String.eqb input "/auto"
  || String.eqb input "/help"
  || (JS.startsWith input "!" && JS.nonEmpty (JS.trim (JS.drop 1 input))).

End Repl.

(** ** Notions used to state the further properties *)

Section DiffNotions.
Import Diff.

(** The lines of the old file a hunk shows (unchanged or removed), and
    those of the new file (unchanged or added). *)
Definition oldSide (body : list DiffLine) : list string :=
  flat_map (fun l => match l with
                     | DContext text | DRemoved text => [text]
                     | _ => []
                     end) body.

Definition newSide (body : list DiffLine) : list string :=
  flat_map (fun l => match l with
                     | DContext text | DAdded text => [text]
                     | _ => []
                     end) body.

End DiffNotions.

(** No white space in [s]. *)
Fixpoint noSpace (s : string) : bool :=
  match s with
  | EmptyString => true
  | String c r => negb (JS.isSpace c) && noSpace r
  end.

(** [typeof v === 'string'] *)
Definition isString (v : JSVal) : bool :=
  match v with
  | JStr _ => true
  | _ => false
  end.

(** The TypeError of [path.resolve] for a [path] that is not a string. *)
Definition pathTypeError (v : JSVal) : string :=
  "The " +:+ dquote +:+ "paths[1]" +:+ dquote
  +:+ " argument must be of type string. Received " +:+ received v.

(** The calls in which a [path] that is not a string reaches
    [path.resolve]: the tools that resolve [args.path] as it is, and those
    that resolve [args.path || '.'] when the [path] is truthy. *)
Definition throwsOnPath (name : string) (v : JSVal) : bool :=
  negb (isString v)
  && (String.eqb name "read_file" || String.eqb name "write_file"
      || String.eqb name "edit_file"
      || ((String.eqb name "list_directory" || String.eqb name "search_files")
          && truthy v)).

(** The outcome of a tool shows as a failure: an error thrown, or a text
    that begins with [Error], which is what [handleToolCall] tests
    before it prints [done]. *)
Definition failed (r : Exc string) : bool :=
  match r with
  | Ok text => JS.startsWith text "Error"
  | Throw _ => true
  end.

Section AgentNotions.
Import Agent.

(** The [tool_use] blocks of a content list, as id and payload. *)
Fixpoint toolUses (bs : list Block) : list (string * Payload) :=
  match bs with
  | [] => []
  | ToolUseBlock id _ input :: rest => (id, input) :: toolUses rest
  | _ :: rest => toolUses rest
  end.

(** The calls a reply asks for, in its order, each with its id and its
    argument payload: the entries of a non-empty [tool_calls], else the
    [tool_use] blocks of the content. *)
Definition requested (m : Message) : list (string * Payload) :=
  match tool_calls m with
  | Some (tc :: rest) => map (fun c => (fc_id c, fc_arguments c)) (tc :: rest)
  | _ =>
      match content m with
      | CBlocks bs => toolUses bs
      | _ => []
      end
  end.

(** The ids of the calls an assistant turn of the history declares in
    its [tool_calls]. *)
Definition issuedIds (t : Turn) : list string :=
  match t with
  | TAssistantRaw m =>
      match tool_calls m with
      | Some tcs => map fc_id tcs
      | None => []
      end
  | TAssistant _ calls => map cc_id calls
  | _ => []
  end.

(** A turn written by the loop: an assistant turn or a tool turn. *)
Definition isReply (t : Turn) : bool :=
  match t with
  | TAssistantRaw _ | TAssistant _ _ | TTool _ _ => true
  | _ => false
  end.

Definition isSystem (t : Turn) : bool :=
  match t with
  | TSystem _ => true
  | _ => false
  end.

(** The test of the [catch] of the loop on the message it printed. *)
Definition rateLimited (msg : string) : bool :=
  let errMsg := if JS.nonEmpty msg then msg else "Error" in
  JS.nonEmpty errMsg
  && (JS.includes errMsg "rate limit" || JS.includes errMsg "429").

Definition isPause (e : Event) : bool :=
  match e with EvReplPause => true | _ => false end.
Definition isResume (e : Event) : bool :=
  match e with EvReplResume => true | _ => false end.

(** The executor call a tool call leads to. *)
Definition execOf (tc : ToolCall) : Event := EvExec (tc_name tc) (tc_args tc).

End AgentNotions.

(** Directories come before files. *)
Definition dirsFirst (l : list Dirent) : Prop :=
  exists dirs files,
    l = (dirs ++ files)%list
    /\ Forall (fun e => isDirectory e = true) dirs
    /\ Forall (fun e => isDirectory e = false) files.

Section QuestionNotions.
Import Agent.

(** An event that is print-out of the handling of a call. *)
Definition isPrintout (e : Event) : Prop :=
  match e with
  | EvShowCall _ _ | EvPreview _ | EvReport _ | EvToolError _ => True
  | _ => False
  end.

(** An event that has no part in asking for permission. *)
Definition askFree (e : Event) : Prop :=
  isAsk e = false /\ isAnswer e = false /\ isPause e = false
  /\ isResume e = false.

(** The questions in the events [evs], which moved the counter of
    questions from [before] to [after]: each one was answered and
    counted, and the outer prompt, when there is one, was paused once and
    resumed once for each. *)
Definition questionsBalanced (globalRl : bool) (before after : nat)
    (evs : list Event) : Prop :=
  after = (before + count isAsk evs)%nat
  /\ count isAnswer evs = count isAsk evs
  /\ count isPause evs = (if globalRl then count isAsk evs else 0)%nat
  /\ count isResume evs = count isPause evs.

(** The tools the registry marks as safe. *)
Definition safeTools : list string :=
  [ "read_file"; "list_directory"; "search_files"; "get_project_info" ].

End QuestionNotions.

Section SearchNotions.
Context `{Platform}.
Import Tools.

(** The test [walkDir] makes on the name of a file before it opens it. *)
Definition passesFilter (args : Args) (name : string) : bool :=
  if truthy (prop args "file_pattern") then
    match prop args "file_pattern" with
    | JStr fp =>
        let pattern := JS.replace fp "*" EmptyString in
        JS.endsWith name pattern || String.eqb (path_extname name) pattern
    | _ => false
    end
  else true.

(** [file] is an entry of a directory that can be listed: not a
    directory, not on the skip list of the search, and let through by the
    file pattern. *)
Definition reachedFile (fs : FS) (args : Args) (file : string) : Prop :=
  exists dir entries entry,
    readdir fs dir = Ok entries
    /\ In entry entries
    /\ isDirectory entry = false
    /\ (d_name entry ∉ SEARCH_SKIP)
    /\ passesFilter args (d_name entry) = true
    /\ file = path_join dir (d_name entry).

(** [r] reports line [n + 1] of such a file, and the line holds the
    pattern. *)
Definition soundResult (fs : FS) (args : Args) (projectDir r : string) : Prop :=
  exists file content n line,
    reachedFile fs args file
    /\ readFile fs file = Ok content
    /\ JS.splitLines content !! n = Some line
    /\ JS.includes line (searchPattern args) = true
    /\ r = path_relative projectDir file +:+ ":" +:+ JS.ofNat (n + 1)
           +:+ ": " +:+ JS.trim line.

(** What holds of a scan at every moment, as to where its results and
    the files it opened come from. *)
Definition soundScan (fs : FS) (args : Args) (projectDir : string)
    (st : SearchState) : Prop :=
  Forall (soundResult fs args projectDir) (results st)
  /\ forall file, In (SRead file) (scanned st) -> reachedFile fs args file.

End SearchNotions.

Section DepthNotions.
Import Tools.

(** The indentation a line of a listing carries. *)
Definition linePrefix (l : Line) : string :=
  match l with
  | LCapped pre | LSkipped pre _ | LDir pre _ | LFile pre _ _ | LError pre _ => pre
  end.

(** The prefix of level [k + 1]: two spaces for each level below the
    first. *)
Fixpoint indent (k : nat) : string :=
  match k with
  | O => EmptyString
  | S k' => indent k' +:+ "  "
  end.

(** [l] is a line of a level from [depth] to [maxDepth]. *)
Definition atLevel (recursive : bool) (depth : nat) (l : Line) : Prop :=
  exists level,
    (depth <= level <= maxDepth recursive)%nat
    /\ linePrefix l = indent (level - 1).

End DepthNotions.

(** ** A sample host for the tools that read, write and run *)

(** The directory part of a path that has one. *)
Fixpoint posixDirname (p : string) : string :=
  match p with
  | EmptyString => EmptyString
  | String c r => if JS.includes r "/" then String c (posixDirname r) else EmptyString
  end.

(** The last part of a path. *)
Fixpoint posixBasename (p : string) : string :=
  match p with
  | EmptyString => EmptyString
  | String c r => if JS.includes r "/" then posixBasename r
                  else if Ascii.eqb c "/" then r else p
  end.

(** The bytes [Buffer.from] makes of an array: a number modulo 256,
    [true] as 1, and 0 for an element that is no number (the arrays of
    the samples hold no string or array that reads as a number). *)
Definition byteOf (item : JSVal) : ascii :=
  match item with
  | JNum z => ascii_of_nat (Z.to_nat (z mod 256))
  | JBool true => ascii_of_nat 1
  | _ => ascii_of_nat 0
  end.

Definition bytesOf (items : list JSVal) : string :=
  fold_right (fun item more => String (byteOf item) more) EmptyString items.

(** Every directory named exists already; the shell knows the command
    [true] and no other; a package.json does not parse; an array is the
    chunk of its bytes, and a plain object is no chunk. *)
#[local] Instance sampleHost : Host := {|
  path_dirname := posixDirname;
  path_basename := posixBasename;
  Buffer_from := fun v =>
    match v with
    | JArr items => Ok (bytesOf items)
    | _ =>
        Throw ("The first argument must be of type string or an instance of Buffer, ArrayBuffer, or Array or an Array-like Object. Received "
               +:+ received v)
    end;
  mkdir := fun _ files => (Ok tt, files);
  execSync := fun command _ files =>
    if String.eqb command "true" then (Completed EmptyString, files)
    else (Failed (Some 127%Z) EmptyString
            ("/bin/sh: 1: " +:+ command +:+ ": not found" +:+ JS.LF), files);
  parsePackage := fun _ => Throw "Unexpected end of JSON input"
|}.

(** * Properties *)

(** ** Strings *)

(** Concatenation unfolds on a constructor in the proofs below. *)
#[local] Arguments String.append !s1 s2 : simpl nomatch.

Section StringFacts.

Lemma append_empty_r (s : string) : s +:+ EmptyString = s.
Proof. induction s as [|c s IH]; simpl; [reflexivity | now rewrite IH]. Qed.

Lemma append_assoc (a b c : string) : (a +:+ b) +:+ c = a +:+ (b +:+ c).
Proof. induction a as [|x a IH]; simpl; [reflexivity | now rewrite IH]. Qed.

Lemma len_append (a b : string) : JS.len (a +:+ b) = (JS.len a + JS.len b)%nat.
Proof. induction a as [|x a IH]; simpl; [reflexivity | now rewrite <- IH]. Qed.

Lemma startsWith_app (t post : string) : JS.startsWith (t +:+ post) t = true.
Proof.
  induction t as [|c t IH]; simpl; [reflexivity |].
  now rewrite Ascii.eqb_refl.
Qed.

Lemma startsWith_inv (s t : string) :
  JS.startsWith s t = true -> s = t +:+ JS.drop (JS.len t) s.
Proof.
  revert s; induction t as [|b t IH]; intros s Hs; simpl in *; [reflexivity |].
  destruct s as [|a s]; [discriminate |].
  destruct (Ascii.eqb a b) eqn:Hab; [| discriminate].
  apply Ascii.eqb_eq in Hab; subst b. simpl. f_equal. now apply IH.
Qed.

Lemma startsWith_occurs (s t : string) :
  JS.startsWith s t = true -> occursIn t s.
Proof.
  intros Hs. exists EmptyString, (JS.drop (JS.len t) s). simpl.
  now apply startsWith_inv.
Qed.

Lemma includes_unfold (s t : string) :
  JS.includes s t =
  if JS.startsWith s t then true
  else match s with
       | EmptyString => false
       | String _ s' => JS.includes s' t
       end.
Proof. destruct s; reflexivity. Qed.

Lemma splitFirst_unfold (s t : string) :
  JS.splitFirst s t =
  if JS.startsWith s t then Some (EmptyString, JS.drop (JS.len t) s)
  else match s with
       | EmptyString => None
       | String c s' =>
           match JS.splitFirst s' t with
           | Some (pre, post) => Some (String c pre, post)
           | None => None
           end
       end.
Proof. destruct s; reflexivity. Qed.

(** [includes] decides occurrence. *)
Lemma includes_occurs (s t : string) :
  JS.includes s t = true <-> occursIn t s.
Proof.
  split.
  - induction s as [|c s IH]; rewrite includes_unfold;
      destruct (JS.startsWith _ t) eqn:Hst; intros Hin;
      try (now apply startsWith_occurs); try discriminate.
    destruct (IH Hin) as (pre & post & ->).
    now exists (String c pre), post.
  - intros (pre & post & ->).
    induction pre as [|c pre IH]; rewrite includes_unfold.
    + simpl. now rewrite startsWith_app.
    + destruct (JS.startsWith _ t); [reflexivity | exact IH].
Qed.

(** [splitFirst] finds the leftmost occurrence whenever there is one. *)
Lemma splitFirst_leftmost (s t : string) :
  JS.includes s t = true ->
  exists pre post,
    JS.splitFirst s t = Some (pre, post)
    /\ s = pre +:+ t +:+ post
    /\ leftmost pre t s.
Proof.
  induction s as [|c s IH]; rewrite includes_unfold, splitFirst_unfold;
    destruct (JS.startsWith _ t) eqn:Hst; intros Hin; try discriminate.
  - exists EmptyString, (JS.drop (JS.len t) EmptyString).
    split; [reflexivity |]. split; [now apply startsWith_inv |].
    intros a b _. simpl. lia.
  - exists EmptyString, (JS.drop (JS.len t) (String c s)).
    split; [reflexivity |]. split; [now apply startsWith_inv |].
    intros a b _. simpl. lia.
  - destruct (IH Hin) as (pre & post & -> & Heq & Hleft).
    exists (String c pre), post.
    split; [reflexivity |]. split; [simpl; now rewrite <- Heq |].
    intros a b Hab. destruct a as [|x a].
    + simpl in Hab. rewrite Hab, startsWith_app in Hst. discriminate.
    + simpl in Hab. injection Hab as _ Hs.
      simpl. apply le_n_S. now apply (Hleft a b).
Qed.

(** A replacement without dollar signs is inserted as it is. *)
Lemma getSubstitution_dollarFree (matched pre post r : string) :
  dollarFree r = true -> JS.getSubstitution matched pre post r = r.
Proof.
  induction r as [|c r IH]; simpl; [reflexivity |].
  destruct (Ascii.eqb c "$"); simpl; [discriminate |].
  intros Hr. now rewrite IH.
Qed.

Lemma nonEmpty_true (s : string) : JS.nonEmpty s = true <-> s <> EmptyString.
Proof.
  unfold JS.nonEmpty. destruct s; simpl; split; intros; congruence.
Qed.

Lemma append_nonEmpty_l (a b : string) :
  a <> EmptyString -> a +:+ b <> EmptyString.
Proof. destruct a; simpl; congruence. Qed.

End StringFacts.

(** ** Tool registry *)

Section RegistryFacts.

Lemma TOOL_RISK_unknown (name : string) :
  name ∉ registryNames -> TOOL_RISK !! name = None.
Proof. intros Hname. now apply not_elem_of_list_to_map_1. Qed.

Lemma riskOf_registry :
  riskOf "read_file" = Tag safe /\ riskOf "list_directory" = Tag safe
  /\ riskOf "search_files" = Tag safe /\ riskOf "get_project_info" = Tag safe
  /\ riskOf "write_file" = Tag ask /\ riskOf "edit_file" = Tag ask
  /\ riskOf "run_command" = Tag danger.
Proof. repeat split; vm_compute; reflexivity. Qed.

(** Whatever the registry does not know is kept away from [safe]. *)
Lemma riskOf_unknown (name : string) :
  name ∉ registryNames ->
  riskOf name = Tag ask
  \/ (name ∈ Object_prototype_keys /\ riskOf name = Inherited name).
Proof.
  intros Hname. unfold riskOf, TOOL_RISK_get.
  rewrite (TOOL_RISK_unknown name Hname).
  destruct (bool_decide (name ∈ Object_prototype_keys)) eqn:Hproto.
  - right. split; [now apply bool_decide_eq_true in Hproto | reflexivity].
  - now left.
Qed.

(** What holds of the lookup for every name: it gives [safe] for
    read_file, list_directory, search_files and get_project_info, [ask]
    for write_file and edit_file, [danger] for run_command; for a name
    the registry does not know it gives a value that is neither [safe]
    nor [danger], which is [ask] itself unless the name is a member
    inherited from Object.prototype. An unknown tool name is never
    treated as safe. *)
Lemma riskOf_never_safe (name : string) :
  name ∉ registryNames ->
  (riskOf "read_file" = Tag safe /\ riskOf "list_directory" = Tag safe
   /\ riskOf "search_files" = Tag safe /\ riskOf "get_project_info" = Tag safe
   /\ riskOf "write_file" = Tag ask /\ riskOf "edit_file" = Tag ask
   /\ riskOf "run_command" = Tag danger)
  /\ notSafe (riskOf name) = true
  /\ isDanger (riskOf name) = false
  /\ (riskOf name = Tag ask
      \/ (name ∈ Object_prototype_keys /\ riskOf name = Inherited name)).
Proof.
  intros Hname. split; [exact riskOf_registry |].
  destruct (riskOf_unknown name Hname) as [Hr | [Hin Hr]];
    rewrite Hr; repeat split; auto.
Qed.

Example riskOf_unknown_sample :
  riskOf "delete_everything" = Tag ask /\ riskOf "" = Tag ask.
Proof. vm_compute. split; reflexivity. Qed.

(** C9 is not met by the code for a tool name that Object.prototype
    defines: [constructor] is not in the registry, yet the lookup does
    not give [ask] for it but the inherited member, because the read of
    [TOOL_RISK[name]] finds it before the default applies. The value is
    still neither [safe] nor [danger], so the call is gated. *)
Theorem riskOf_inherited_member :
  ("constructor" ∉ registryNames)
  /\ riskOf "constructor" = Inherited "constructor"
  /\ riskOf "constructor" <> Tag ask
  /\ notSafe (riskOf "constructor") = true
  /\ isDanger (riskOf "constructor") = false.
Proof.
  split; [apply (bool_decide_unpack _); vm_compute; exact I |].
  vm_compute. repeat split. discriminate.
Qed.

End RegistryFacts.

(** ** edit_file *)

Section EditFileFacts.
Context `{Platform} `{ExternalTools}.
Import Tools.

Lemma executeTool_edit_file (args : Args) (projectDir : string) (fs : FS) :
  executeTool "edit_file" args projectDir fs = editFileImpl args projectDir fs.
Proof. reflexivity. Qed.


(** What edit_file does when the target occurs: the leftmost occurrence
    is replaced and the result written back. *)
Lemma editFileImpl_present (args : Args) (projectDir p : string)
    (fs : FS) (f : File) :
  prop args "path" = JStr p ->
  fs !! path_resolve projectDir p = Some (NFile f) ->
  f_readable f = true ->
  f_writable f = true ->
  JS.includes (f_content f) (toStr (prop args "target")) = true ->
  editFileImpl args projectDir fs =
  (Ok ("File edited successfully: " +:+ path_resolve projectDir p),
   <[path_resolve projectDir p :=
       NFile {| f_content := JS.replace (f_content f) (toStr (prop args "target"))
                               (toStr (prop args "replacement"));
                f_size := utf8Length
                            (JS.replace (f_content f) (toStr (prop args "target"))
                               (toStr (prop args "replacement")));
                f_readable := true; f_writable := true |}]> fs).
Proof.
  intros Hpath Hfile Hread Hwrite Hinc.
  unfold editFileImpl. rewrite Hpath. simpl resolveArg. cbv iota.
  unfold readFile, writeFile. rewrite Hfile, Hread, Hinc, Hwrite. reflexivity.
Qed.


End EditFileFacts.

Section EditFileRuns.
Import Tools.




(** A target that is a number is looked for as JavaScript writes it:
    [1e21] is found in a file holding [1e+21], not in one holding its 22
    digits. *)
Example edit_file_number_target :
  let args : Args :=
    {[ "path" := JStr "f.txt"; "target" := JNum (10 ^ 21);
       "replacement" := JStr "X" ]} in
  let written : FS := {[ "/p/f.txt" := textFile "n=1e+21;" ]} in
  let digits : FS := {[ "/p/f.txt" := textFile "n=1000000000000000000000;" ]} in
  fst (editFileImpl args "/p" written) = Ok "File edited successfully: /p/f.txt"
  /\ readFile (snd (editFileImpl args "/p" written)) "/p/f.txt" = Ok "n=X;"
  /\ editFileImpl args "/p" digits
     = (Ok "Error: Target string not found in f.txt. Make sure it matches exactly.",
        digits).
Proof. vm_compute. repeat split; reflexivity. Qed.

End EditFileRuns.

(** ** list_directory *)

Section ListDirectoryFacts.
Context `{Platform}.
Import Tools.

Variable fs : FS.
Variable recursive : bool.

(** The proofs use the cap and the depth bound only through their
    comparisons. *)
#[local] Opaque maxEntries maxDepth.

Lemma countEntries_app (a b : list Line) :
  countEntries (a ++ b) = (countEntries a + countEntries b)%nat.
Proof. unfold countEntries. now rewrite List.filter_app, length_app. Qed.

Lemma countCapped_app (a b : list Line) :
  countCapped (a ++ b) = (countCapped a + countCapped b)%nat.
Proof. unfold countCapped. now rewrite List.filter_app, length_app. Qed.

(** Once the counter has reached the cap the loop lists nothing more:
    it leaves at most its notice. *)
Lemma listEntries_full sub dir pre sorted c :
  (maxEntries <= c)%nat ->
  listEntries fs recursive sub dir pre sorted c =
  (match sorted with [] => [] | _ :: _ => [LCapped pre] end, c).
Proof.
  intros Hc. destruct sorted as [|entry rest]; cbn [listEntries]; [reflexivity |].
  apply Nat.leb_le in Hc. now rewrite Hc.
Qed.

(** The recursive call matters only through its results. *)
Lemma listEntries_ext sub1 sub2 dir pre sorted c :
  (forall d p n, sub1 d p n = sub2 d p n) ->
  listEntries fs recursive sub1 dir pre sorted c =
  listEntries fs recursive sub2 dir pre sorted c.
Proof.
  intros Hsub. revert c.
  induction sorted as [|entry rest IH]; intros c; simpl; [reflexivity |].
  destruct (maxEntries <=? c)%nat; [reflexivity |].
  destruct (isSkipped (d_name entry)); [now rewrite IH |].
  destruct (isDirectory entry); [| now rewrite IH].
  destruct recursive.
  - rewrite Hsub. destruct (sub2 _ _ _) as [below n1]. now rewrite IH.
  - now rewrite IH.
Qed.

(** The fuel given by [listDirectoryImpl] is enough: more fuel changes
    nothing, the guard on the depth ends the recursion. *)
Lemma listDir_fuel fuel extra dir depth pre c :
  (maxDepth recursive + 1 <= fuel + depth)%nat ->
  listDir fs recursive (fuel + extra) dir depth pre c =
  listDir fs recursive fuel dir depth pre c.
Proof.
  revert dir depth pre c.
  induction fuel as [|fuel IH]; intros dir depth pre c Hfuel.
  - assert (Hdeep : (maxDepth recursive <? depth)%nat = true)
      by (apply Nat.ltb_lt; lia).
    destruct extra as [|extra]; simpl; [reflexivity |]. now rewrite Hdeep.
  - simpl.
    destruct ((maxDepth recursive <? depth)%nat || (maxEntries <=? c)%nat);
      [reflexivity |].
    destruct (readdir fs dir) as [entries | msg]; [| reflexivity].
    apply listEntries_ext. intros d p n. apply IH. lia.
Qed.

Ltac listed_now :=
  unfold listed, countEntries, countCapped in *; simpl in *;
  repeat split; try lia; repeat constructor; try assumption.

Lemma listEntries_listed sub rsub k dir pre :
  (forall d p n, (n <= maxEntries)%nat -> listed n (rsub d) k (sub d p n)) ->
  forall sorted c, (c <= maxEntries)%nat ->
  listed c (reachEntries recursive rsub dir sorted) (S k)
         (listEntries fs recursive sub dir pre sorted c).
Proof.
  intros Hsub.
  induction sorted as [|entry rest IH]; intros c Hc.
  - listed_now.
  - cbn [listEntries reachEntries].
    destruct (maxEntries <=? c)%nat eqn:Hfull.
    { apply Nat.leb_le in Hfull. listed_now. }
    apply Nat.leb_gt in Hfull.
    destruct (isSkipped (d_name entry)) eqn:Hskip; cbn [negb andb].
    { specialize (IH (S c) ltac:(lia)).
      destruct (listEntries fs recursive sub dir pre rest (S c)) as [out n].
      destruct IH as (Hn & Hent & Hcap & Hpos & Hmark). listed_now. }
    destruct (isDirectory entry) eqn:Hdir; cbn [andb].
    2:{ specialize (IH (S c) ltac:(lia)).
        destruct (listEntries fs recursive sub dir pre rest (S c)) as [out n].
        destruct IH as (Hn & Hent & Hcap & Hpos & Hmark). listed_now. }
    destruct recursive eqn:Hrec.
    + pose proof (Hsub (path_join dir (d_name entry)) (pre +:+ "  ") (S c)
                    ltac:(lia)) as Hbelow.
      destruct (sub _ _ _) as [below n1].
      destruct Hbelow as (Hn1 & Hent1 & Hcap1 & Hpos1 & Hmark1).
      cbn [fst snd] in *.
      pose proof (IH n1 ltac:(lia)) as Hrest.
      pose proof (listEntries_full sub dir pre rest n1) as Hfullrest.
      rewrite Hrec in Hfullrest.
      destruct (listEntries fs true sub dir pre rest n1) as [out n2].
      destruct Hrest as (Hn2 & Hent2 & Hcap2 & Hpos2 & Hmark2).
      cbn [fst snd] in *.
      unfold listed; cbn [fst snd].
      change (LDir pre (d_name entry) :: below ++ out)%list
        with ([LDir pre (d_name entry)] ++ below ++ out)%list.
      rewrite !countEntries_app, !countCapped_app.
      change (countEntries [LDir pre (d_name entry)]) with 1%nat.
      change (countCapped [LDir pre (d_name entry)]) with 0%nat.
      repeat split; try lia.
      * destruct (Nat.eq_dec (countCapped below) 0) as [Hz | Hnz]; [lia |].
        assert (Hn1full : (maxEntries <= n1)%nat) by lia.
        specialize (Hfullrest Hn1full). injection Hfullrest as Hout _.
        assert (Hone : (countCapped out <= 1)%nat)
          by (subst out; destruct rest; unfold countCapped; simpl; lia).
        lia.
      * apply Forall_app. split; [repeat constructor; exact Hskip |].
        apply Forall_app. now split.
    + specialize (IH (S c) ltac:(lia)).
      destruct (listEntries fs false sub dir pre rest (S c)) as [out n].
      destruct IH as (Hn & Hent & Hcap & Hpos & Hmark). listed_now.
Qed.

Lemma listDir_listed fuel dir depth pre c :
  (c <= maxEntries)%nat ->
  listed c (reachDir fs recursive fuel dir depth)
         (maxDepth recursive + 1 - depth)
         (listDir fs recursive fuel dir depth pre c).
Proof.
  revert dir depth pre c.
  induction fuel as [|fuel IH]; intros dir depth pre c Hc.
  - listed_now.
  - cbn [listDir reachDir].
    destruct (maxDepth recursive <? depth)%nat eqn:Hdeep; cbn [orb].
    { listed_now. }
    apply Nat.ltb_ge in Hdeep.
    destruct (maxEntries <=? c)%nat eqn:Hfull.
    { apply Nat.leb_le in Hfull. listed_now. }
    destruct (readdir fs dir) as [entries | msg].
    + replace (maxDepth recursive + 1 - depth)%nat
        with (S (maxDepth recursive + 1 - S depth)) by lia.
      apply listEntries_listed; [| exact Hc].
      intros d p n Hn. now apply IH.
    + listed_now.
Qed.

(** At its call-site an entry with a deny-listed name gives one line,
    marked skipped, and the counter moves by one, whatever lies below it
    and whatever the recursive call would do. *)
Lemma listEntries_skipped sub dir pre entry c :
  (c < maxEntries)%nat ->
  isSkipped (d_name entry) = true ->
  listEntries fs recursive sub dir pre [entry] c =
  ([LSkipped pre (d_name entry)], S c).
Proof.
  intros Hc Hskip. simpl.
  apply Nat.leb_gt in Hc. now rewrite Hc, Hskip.
Qed.

Lemma entriesOf_app (a b : list Line) :
  entriesOf (a ++ b) = (entriesOf a ++ entriesOf b)%list.
Proof. apply List.filter_app. Qed.

(** The entries a loop lists are the first ones of the uncut traversal,
    as many as the counter leaves room for. *)
Lemma listEntries_prefix sub fsub dir pre :
  (forall d p n, (n <= maxEntries)%nat ->
     entriesOf (fst (sub d p n)) = take (maxEntries - n) (fsub d p)
     /\ snd (sub d p n) = Nat.min maxEntries (n + length (fsub d p))) ->
  forall sorted c, (c <= maxEntries)%nat ->
  entriesOf (fst (listEntries fs recursive sub dir pre sorted c))
  = take (maxEntries - c) (fullEntries fs recursive fsub dir pre sorted)
  /\ snd (listEntries fs recursive sub dir pre sorted c)
     = Nat.min maxEntries
         (c + length (fullEntries fs recursive fsub dir pre sorted)).
Proof.
  intros Hsub.
  induction sorted as [|entry rest IH]; intros c Hc.
  - cbn. rewrite take_nil. split; [reflexivity | lia].
  - cbn [listEntries fullEntries].
    destruct (maxEntries <=? c)%nat eqn:Hfull.
    { apply Nat.leb_le in Hfull. cbn [fst snd].
      replace (maxEntries - c)%nat with 0%nat by lia.
      split; [reflexivity | lia]. }
    apply Nat.leb_gt in Hfull.
    assert (Hroom : (maxEntries - c = S (maxEntries - S c))%nat) by lia.
    destruct (isSkipped (d_name entry)) eqn:Hskip.
    { destruct (IH (S c) ltac:(lia)) as [Hent Hn].
      destruct (listEntries fs recursive sub dir pre rest (S c)) as [out n].
      cbn [fst snd app] in *. rewrite Hroom. cbn [take].
      unfold entriesOf in *. cbn [List.filter isEntry]. rewrite Hent.
      split; [reflexivity |]. rewrite Hn. cbn [length]. lia. }
    destruct (isDirectory entry) eqn:Hdir.
    2:{ destruct (IH (S c) ltac:(lia)) as [Hent Hn].
        destruct (listEntries fs recursive sub dir pre rest (S c)) as [out n].
        cbn [fst snd app] in *. rewrite Hroom. cbn [take].
        unfold entriesOf in *. cbn [List.filter isEntry]. rewrite Hent.
        split; [reflexivity |]. rewrite Hn. cbn [length]. lia. }
    destruct recursive eqn:Hrec.
    + destruct (Hsub (path_join dir (d_name entry)) (pre +:+ "  ") (S c)
                  ltac:(lia)) as [Hbelow Hn1].
      destruct (sub _ _ _) as [below n1]. cbn [fst snd] in *.
      destruct (IH n1 ltac:(lia)) as [Hent Hn2].
      destruct (listEntries fs true sub dir pre rest n1) as [out n2].
      cbn [fst snd app] in *. rewrite Hroom. cbn [take].
      change (entriesOf (LDir pre (d_name entry) :: below ++ out))
        with (LDir pre (d_name entry) :: entriesOf (below ++ out)).
      rewrite entriesOf_app, Hbelow, Hent, take_app.
      replace (maxEntries - n1)%nat
        with (maxEntries - S c
              - length (fsub (path_join dir (d_name entry)) (pre +:+ "  ")))%nat
        by lia.
      split; [reflexivity |].
      rewrite Hn2, Hn1. cbn [length]. rewrite length_app. lia.
    + destruct (IH (S c) ltac:(lia)) as [Hent Hn].
      destruct (listEntries fs false sub dir pre rest (S c)) as [out n].
      cbn [fst snd app] in *. rewrite Hroom. cbn [take].
      unfold entriesOf in *. cbn [List.filter isEntry]. rewrite Hent.
      split; [reflexivity |]. rewrite Hn. cbn [length]. lia.
Qed.

Lemma listDir_prefix fuel : forall dir depth pre c,
  (c <= maxEntries)%nat ->
  entriesOf (fst (listDir fs recursive fuel dir depth pre c))
  = take (maxEntries - c) (fullDir fs recursive fuel dir depth pre)
  /\ snd (listDir fs recursive fuel dir depth pre c)
     = Nat.min maxEntries
         (c + length (fullDir fs recursive fuel dir depth pre)).
Proof.
  induction fuel as [|fuel IH]; intros dir depth pre c Hc.
  - cbn. rewrite take_nil. split; [reflexivity | lia].
  - cbn [listDir fullDir].
    destruct (maxDepth recursive <? depth)%nat; cbn [orb].
    { cbn. rewrite take_nil. split; [reflexivity | lia]. }
    destruct (maxEntries <=? c)%nat eqn:Hfull.
    { apply Nat.leb_le in Hfull. cbn [fst snd].
      replace (maxEntries - c)%nat with 0%nat by lia.
      split; [reflexivity | lia]. }
    destruct (readdir fs dir) as [entries | msg].
    + apply listEntries_prefix; [| exact Hc].
      intros d p n Hn. now apply IH.
    + cbn. rewrite take_nil. split; [reflexivity | lia].
Qed.

(** The count of the entries in reach is the length of the uncut
    traversal. *)
Lemma fullEntries_length fsub rsub dir pre sorted :
  (forall d p, length (fsub d p) = rsub d) ->
  length (fullEntries fs recursive fsub dir pre sorted)
  = reachEntries recursive rsub dir sorted.
Proof.
  intros Hsub. induction sorted as [|entry rest IH]; [reflexivity |].
  cbn [fullEntries reachEntries]. rewrite length_app, IH.
  destruct (isSkipped (d_name entry)); cbn [negb andb length];
    [reflexivity |].
  destruct (isDirectory entry); cbn [andb length]; [| reflexivity].
  destruct recursive; cbn [length]; [now rewrite Hsub | reflexivity].
Qed.

Lemma fullDir_length fuel : forall dir depth pre,
  length (fullDir fs recursive fuel dir depth pre)
  = reachDir fs recursive fuel dir depth.
Proof.
  induction fuel as [|fuel IH]; intros dir depth pre; [reflexivity |].
  cbn [fullDir reachDir].
  destruct (maxDepth recursive <? depth)%nat; [reflexivity |].
  destruct (readdir fs dir) as [entries | msg]; [| reflexivity].
  apply fullEntries_length. intros d p. apply IH.
Qed.

(** In the uncut traversal a name on the deny-list is a skipped line,
    and a skipped line such a name. *)
Lemma fullEntries_marked fsub dir pre sorted :
  (forall d p, Forall wellMarked (fsub d p)) ->
  Forall wellMarked (fullEntries fs recursive fsub dir pre sorted).
Proof.
  intros Hsub. induction sorted as [|entry rest IH]; [constructor |].
  cbn [fullEntries]. apply Forall_app. split; [| exact IH].
  destruct (isSkipped (d_name entry)) eqn:Hskip;
    [now repeat constructor |].
  destruct (isDirectory entry); [| now repeat constructor].
  constructor; [exact Hskip |]. destruct recursive; [apply Hsub | constructor].
Qed.

Lemma fullDir_marked fuel : forall dir depth pre,
  Forall wellMarked (fullDir fs recursive fuel dir depth pre).
Proof.
  induction fuel as [|fuel IH]; intros dir depth pre; [constructor |].
  cbn [fullDir]. destruct (maxDepth recursive <? depth)%nat; [constructor |].
  destruct (readdir fs dir) as [entries | msg]; [| constructor].
  apply fullEntries_marked. intros d p. apply IH.
Qed.

End ListDirectoryFacts.

Section ListDirectoryClaims.
Import Tools.

(** C7, as the code has it: the entries a listing gives are exactly the
    first 200 entries of the traversal in its order (all of them when it
    has at most 200), the traversal being the one down to the depth bound
    that does not go below a skipped entry; so their number is the number
    of entries in reach, cut at 200. The listing carries no capped notice
    when that number is at most 200, and never more notices than levels
    (three for a recursive listing). A name on the deny-list is never
    listed as an ordinary entry, in the listing or in the traversal; at
    its call-site, while the cap is not reached, it gives exactly one
    line, marked skipped, and the loop goes on with the next entry
    without any descent; past the cap it is not listed at all. The
    traversal ends by its guard on the depth (more fuel changes
    nothing). *)
Theorem list_directory_capped `{Platform} (args : Args)
    (projectDir dirPath : string) (fs : FS) :
  resolveArg projectDir
    (if truthy (prop args "path") then prop args "path" else JStr ".")
  = Ok dirPath ->
  let recursive := truthy (prop args "recursive") in
  let traversal := fullListing fs recursive dirPath in
  exists items,
    listDirectoryLines args projectDir fs = Ok items
    /\ countEntries items = Nat.min 200 (reachable fs recursive dirPath)
    /\ (countCapped items <= maxDepth recursive)%nat
    /\ (maxDepth recursive <= 3)%nat
    /\ ((reachable fs recursive dirPath <= 200)%nat -> countCapped items = 0%nat)
    /\ Forall wellMarked items
    /\ (forall sub dir pre entry c,
          (c < 200)%nat -> isSkipped (d_name entry) = true ->
          listEntries fs recursive sub dir pre [entry] c =
          ([LSkipped pre (d_name entry)], S c))
    /\ (forall extra,
          listDir fs recursive (S (maxDepth recursive) + extra) dirPath 1
            EmptyString 0
          = listDir fs recursive (S (maxDepth recursive)) dirPath 1
              EmptyString 0)
    /\ entriesOf items = take 200 traversal
    /\ length traversal = reachable fs recursive dirPath
    /\ Forall wellMarked traversal
    /\ (forall i line,
          traversal !! i = Some line ->
          if (i <? 200)%nat then entriesOf items !! i = Some line
          else entriesOf items !! i = None)
    /\ (forall sub dir pre entry rest c,
          (c < 200)%nat -> isSkipped (d_name entry) = true ->
          listEntries fs recursive sub dir pre (entry :: rest) c =
          (LSkipped pre (d_name entry)
             :: fst (listEntries fs recursive sub dir pre rest (S c)),
           snd (listEntries fs recursive sub dir pre rest (S c)))).
Proof.
  intros Hpath recursive traversal.
  unfold listDirectoryLines. rewrite Hpath. cbn [bindExc]. fold recursive.
  eexists. split; [reflexivity |].
  pose proof (listDir_listed fs recursive (S (maxDepth recursive)) dirPath 1
                EmptyString 0 ltac:(unfold maxEntries; lia)) as Hl.
  destruct Hl as (Hn & Hent & Hcap & Hpos & Hmark).
  rewrite Nat.add_0_l in Hn, Hpos. rewrite Nat.sub_0_r in Hent.
  fold (reachable fs recursive dirPath) in Hn, Hpos.
  destruct (listDir_prefix fs recursive (S (maxDepth recursive)) dirPath 1
              EmptyString 0 ltac:(lia)) as [Hprefix _].
  rewrite Nat.sub_0_r in Hprefix.
  fold (fullListing fs recursive dirPath) in Hprefix. fold traversal in Hprefix.
  change maxEntries with 200%nat in *.
  split; [now rewrite Hent, Hn |].
  split; [lia |].
  split; [destruct recursive; unfold maxDepth; lia |].
  split; [intros Hfew; lia |].
  split; [exact Hmark |].
  split; [intros sub dir pre entry c Hc Hskip; now apply listEntries_skipped |].
  split; [intros extra; apply listDir_fuel; lia |].
  split; [exact Hprefix |].
  split; [apply fullDir_length |].
  split; [apply fullDir_marked |].
  split.
  - intros i line Hline. rewrite Hprefix.
    destruct (i <? 200)%nat eqn:Hi.
    + apply Nat.ltb_lt in Hi. now rewrite lookup_take_lt.
    + apply Nat.ltb_ge in Hi. now apply lookup_take_ge.
  - intros sub dir pre entry rest c Hc Hskip.
    cbn [listEntries]. change maxEntries with 200%nat.
    apply Nat.leb_gt in Hc. rewrite Hc, Hskip.
    now destruct (listEntries fs recursive sub dir pre rest (S c)).
Qed.

Lemma list_directory_capped_witness :
  exists items,
    listDirectoryLines recursiveListing "/p" nestedFS = Ok items
    /\ countEntries items = 200%nat
    /\ (countCapped items <= 3)%nat
    /\ entriesOf items = take 200 (fullListing nestedFS true "/p").
Proof.
  destruct (list_directory_capped recursiveListing "/p" "/p" nestedFS)
    as (items & Hrun & Hent & Hcap & Hdepth & _ & _ & _ & _ & Hprefix & _).
  - vm_compute. reflexivity.
  - exists items. split; [exact Hrun |]. split; [| split].
    + rewrite Hent. vm_compute. reflexivity.
    + lia.
    + exact Hprefix.
Defined.

(** C7, as the specification words it, fails: listing [nestedFS], with
    252 entries, gives 200 entries and two capped notices, one when the
    cap is hit inside [a] and one when the loop over the root finds
    [z.txt] left over. *)
Lemma list_directory_two_notices :
  ~ (forall (fs : FS) (projectDir : string) (items : list Line),
        (200 < reachable fs true (path_resolve projectDir "."))%nat ->
        listDirectoryLines recursiveListing projectDir fs = Ok items ->
        countEntries items = 200%nat /\ countCapped items = 1%nat).
Proof.
  intros Hall.
  destruct (Hall nestedFS "/p"
              (fst (listDir nestedFS true 4 "/p" 1 EmptyString 0)))
    as [_ Hone].
  - vm_compute. lia.
  - vm_compute. reflexivity.
  - vm_compute in Hone. discriminate.
Qed.

Example list_directory_small :
  listDirectoryImpl recursiveListing "/p" projectFS = Ok "index.js (14B)".
Proof. vm_compute. reflexivity. Qed.

Example list_directory_nested_tail :
  map renderLine (skipn 198 (fst (listDir nestedFS true 4 "/p" 1 EmptyString 0)))
  = [ "  f197 (1B)"; "  f198 (1B)"; "  ... (capped at 200 entries)";
      "... (capped at 200 entries)" ].
Proof. vm_compute. reflexivity. Qed.

(** A deny-listed name beyond the 200th entry is not listed: of 200
    directories and [vendor] the listing holds the directories and one
    notice, and no line marked skipped. *)
Example list_directory_skipped_past_cap :
  let items := fst (listDir cappedSkipFS false 2 "/p" 1 EmptyString 0) in
  listDirectoryLines plainListing "/p" cappedSkipFS = Ok items
  /\ reachable cappedSkipFS false "/p" = 201%nat
  /\ fullListing cappedSkipFS false "/p" !! 200%nat
     = Some (LSkipped EmptyString "vendor")
  /\ countEntries items = 200%nat
  /\ countCapped items = 1%nat
  /\ List.existsb (fun l => match l with LSkipped _ _ => true | _ => false end)
       items = false.
Proof. vm_compute. repeat split; reflexivity. Qed.

(** More than 200 entries in reach and no notice at all: the 200th
    entry is the last directory of the root, and the call for what lies
    in it returns at once. *)
Example list_directory_no_notice :
  let items := fst (listDir lastDirFS true 4 "/p" 1 EmptyString 0) in
  listDirectoryLines recursiveListing "/p" lastDirFS = Ok items
  /\ reachable lastDirFS true "/p" = 201%nat
  /\ countEntries items = 200%nat
  /\ countCapped items = 0%nat.
Proof. vm_compute. repeat split; reflexivity. Qed.

Example formatSize_samples :
  (formatSize 1023, formatSize 1536, formatSize 1100, formatSize 5000000)
  = ("1023B", "1.5KB", "1.1KB", "4.8MB").
Proof. vm_compute. reflexivity. Qed.

End ListDirectoryClaims.

(** ** search_files *)

Section SearchFacts.
Context `{Platform}.
Import Tools.

Variable fs : FS.
Variable args : Args.
Variable projectDir : string.

#[local] Opaque maxResults.

Lemma append_cons_nonEmpty (a b : string) (c : ascii) :
  a +:+ String c b <> EmptyString.
Proof. destruct a; simpl; congruence. Qed.

Lemma scanInv_note (e : SearchEvent) (st : SearchState) :
  isHit e = false -> capReached st = false -> scanInv st -> scanInv (note e st).
Proof.
  intros He Hcap (Hlen & Hhits & Hend & Hne).
  unfold scanInv, note, capReached, countHits in *. simpl in *.
  rewrite He. repeat split; try assumption. intros Hc; congruence.
Qed.

Lemma scanInv_hit (file r : string) (lineNo : nat) (st : SearchState) :
  r <> EmptyString -> capReached st = false -> scanInv st ->
  scanInv (push r (note (STest file lineNo true) st)).
Proof.
  intros Hr Hcap (Hlen & Hhits & Hend & Hne).
  unfold capReached in Hcap. apply Nat.leb_gt in Hcap.
  unfold scanInv, push, note, capReached, countHits in *. simpl in *.
  rewrite length_app. simpl. repeat split; try lia.
  - intros _. now exists file, lineNo, (scanned st).
  - apply Forall_app. split; [assumption | now repeat constructor].
Qed.

Lemma scanLines_inv filePath lines : forall i st,
  capReached st = false -> scanInv st ->
  scanInv (scanLines args projectDir filePath lines i st).
Proof.
  induction lines as [|line rest IH]; intros i st Hcap Hinv; simpl; [exact Hinv |].
  destruct (JS.includes line (searchPattern args)).
  - match goal with
    | |- context [capReached ?s] =>
        assert (Hst : scanInv s)
          by (apply scanInv_hit; [apply append_cons_nonEmpty | assumption ..]);
        destruct (capReached s) eqn:Hcap'; [exact Hst | now apply IH]
    end.
  - apply IH; [exact Hcap | now apply scanInv_note].
Qed.

Lemma searchInFile_inv filePath st :
  capReached st = false -> scanInv st ->
  scanInv (searchInFile fs args projectDir filePath st).
Proof.
  intros Hcap Hinv. unfold searchInFile.
  assert (Hnote : scanInv (note (SRead filePath) st))
    by now apply scanInv_note.
  destruct (readFile fs filePath); [| exact Hnote].
  now apply scanLines_inv.
Qed.

Lemma walkEntries_inv sub dir entries :
  (forall d st, scanInv st -> scanInv (sub d st)) ->
  forall st, scanInv st ->
  scanInv (walkEntries fs args projectDir sub dir entries st).
Proof.
  intros Hsub.
  induction entries as [|entry rest IH]; intros st Hinv; simpl; [exact Hinv |].
  destruct (capReached st) eqn:Hcap; [exact Hinv |].
  destruct (bool_decide (d_name entry ∈ SEARCH_SKIP)); [now apply IH |].
  destruct (isDirectory entry); [now apply IH, Hsub |].
  destruct (truthy (prop args "file_pattern")).
  - destruct (prop args "file_pattern"); try exact Hinv.
    destruct (negb _ && negb _); [now apply IH |].
    now apply IH, searchInFile_inv.
  - now apply IH, searchInFile_inv.
Qed.

Lemma walkDir_inv fuel : forall dir depth st,
  scanInv st -> scanInv (walkDir fs args projectDir fuel dir depth st).
Proof.
  induction fuel as [|fuel IH]; intros dir depth st Hinv; simpl; [exact Hinv |].
  destruct (maxSearchDepth <? depth)%nat; simpl; [exact Hinv |].
  destruct (capReached st) eqn:Hcap; [exact Hinv |].
  assert (Hnote : scanInv (note (SList dir) st)) by now apply scanInv_note.
  destruct (readdir fs dir) as [entries | msg]; [| exact Hnote].
  apply walkEntries_inv; [| exact Hnote].
  intros d s Hs. now apply IH.
Qed.

(** Once the cap is reached the walk returns at once: no directory is
    listed, no file opened, no line tested. *)
Lemma walkEntries_capped sub dir entries st :
  capReached st = true ->
  walkEntries fs args projectDir sub dir entries st = st.
Proof. intros Hcap. destruct entries; simpl; [reflexivity | now rewrite Hcap]. Qed.

Lemma walkDir_capped fuel dir depth st :
  capReached st = true -> walkDir fs args projectDir fuel dir depth st = st.
Proof.
  intros Hcap. destruct fuel; simpl; [reflexivity |].
  rewrite Hcap. now rewrite orb_true_r.
Qed.

Lemma walkEntries_ext sub1 sub2 dir entries :
  (forall d st, sub1 d st = sub2 d st) ->
  forall st, walkEntries fs args projectDir sub1 dir entries st =
             walkEntries fs args projectDir sub2 dir entries st.
Proof.
  intros Hsub.
  induction entries as [|entry rest IH]; intros st; simpl; [reflexivity |].
  destruct (capReached st); [reflexivity |].
  destruct (bool_decide _); [apply IH |].
  destruct (isDirectory entry); [now rewrite Hsub |].
  destruct (truthy _); [| apply IH].
  destruct (prop args "file_pattern"); try reflexivity.
  destruct (negb _ && negb _); apply IH.
Qed.

(** The fuel given by [searchFilesImpl] is enough. *)
Lemma walkDir_fuel fuel extra : forall dir depth st,
  (maxSearchDepth + 1 <= fuel + depth)%nat ->
  walkDir fs args projectDir (fuel + extra) dir depth st =
  walkDir fs args projectDir fuel dir depth st.
Proof.
  induction fuel as [|fuel IH]; intros dir depth st Hfuel.
  - assert (Hdeep : (maxSearchDepth <? depth)%nat = true)
      by (apply Nat.ltb_lt; lia).
    destruct extra as [|extra]; simpl; [reflexivity |]. now rewrite Hdeep.
  - simpl.
    destruct ((maxSearchDepth <? depth)%nat || capReached st); [reflexivity |].
    destruct (readdir fs dir) as [entries | msg]; [| reflexivity].
    apply walkEntries_ext. intros d s. apply IH. lia.
Qed.

End SearchFacts.

Section SearchReportFacts.
Import Tools.

Lemma join_nonEmpty (sep r : string) (rs : list string) :
  r <> EmptyString -> JS.join sep (r :: rs) <> EmptyString.
Proof.
  intros Hr. destruct rs as [|r' rs]; simpl; [exact Hr |].
  now apply append_nonEmpty_l.
Qed.

Lemma searchReport_none : searchReport [] = "No matches found.".
Proof. reflexivity. Qed.

Lemma searchReport_nonEmpty (found : list string) :
  Forall (fun r => r <> EmptyString) found -> searchReport found <> EmptyString.
Proof.
  intros Hne. destruct found as [|r rs]; [discriminate |].
  unfold searchReport. cbn [length Nat.ltb Nat.leb].
  apply append_nonEmpty_l, join_nonEmpty. now inversion Hne.
Qed.

Lemma searchReport_capped (found : list string) :
  length found = 30%nat ->
  searchReport found =
  JS.join JS.LF found +:+ JS.LF +:+ "... (capped at 30 results)".
Proof.
  intros Hlen. unfold searchReport. rewrite Hlen. reflexivity.
Qed.

Lemma searchReport_below (found : list string) :
  (0 < length found < 30)%nat -> searchReport found = JS.join JS.LF found.
Proof.
  intros [Hpos Hlt]. unfold searchReport.
  apply Nat.ltb_lt in Hpos. rewrite Hpos.
  assert (Hcap : (maxResults <=? length found)%nat = false)
    by (apply Nat.leb_gt; exact Hlt).
  rewrite Hcap. apply append_empty_r.
Qed.

End SearchReportFacts.

Section SearchClaims.
Import Tools.

(** C8: a search records at most 30 matches, one per matching line
    tested; when the 30th is found nothing more is scanned (the match is
    the last thing the scan did) and the capped notice is appended to the
    matches; below the cap the matches are returned without notice; a
    search without match returns exactly [No matches found.], and the
    text returned is never empty; the walk ends by its guard on the depth
    (more fuel changes nothing). *)
Theorem search_files_capped `{Platform} (args : Args)
    (projectDir searchDir : string) (fs : FS) :
  resolveArg projectDir
    (if truthy (prop args "path") then prop args "path" else JStr ".")
  = Ok searchDir ->
  exists st,
    searchFilesWalk args projectDir fs = Ok st
    /\ searchFilesImpl args projectDir fs = Ok (searchReport (results st))
    /\ (length (results st) <= 30)%nat
    /\ countHits (scanned st) = length (results st)
    /\ (length (results st) = 30%nat ->
        endsOnHit (scanned st)
        /\ (forall sub dir entries,
              walkEntries fs args projectDir sub dir entries st = st)
        /\ searchReport (results st) =
           JS.join JS.LF (results st) +:+ JS.LF +:+ "... (capped at 30 results)")
    /\ ((0 < length (results st) < 30)%nat ->
        searchReport (results st) = JS.join JS.LF (results st))
    /\ (results st = [] -> searchReport (results st) = "No matches found.")
    /\ searchReport (results st) <> EmptyString
    /\ (forall extra,
          walkDir fs args projectDir (maxSearchDepth + 2 + extra) searchDir 0
            {| results := []; scanned := [] |} = st).
Proof.
  intros Hpath.
  unfold searchFilesImpl, searchFilesWalk. rewrite Hpath. cbn [bindExc].
  eexists. split; [reflexivity |]. split; [reflexivity |].
  assert (Hfuel : forall extra,
    walkDir fs args projectDir (maxSearchDepth + 2 + extra) searchDir 0
      {| results := []; scanned := [] |}
    = walkDir fs args projectDir (maxSearchDepth + 2) searchDir 0
        {| results := []; scanned := [] |})
    by (intros extra; apply walkDir_fuel; lia).
  match goal with
  | |- context [results ?s] =>
      assert (Hinv : scanInv s);
      [| set (st := s) in *; clearbody st ]
  end.
  { apply walkDir_inv. unfold scanInv, capReached, countHits. simpl.
    repeat split; try lia; try constructor; try discriminate. }
  destruct Hinv as (Hlen & Hhits & Hend & Hne).
  change maxResults with 30%nat in Hlen.
  split; [exact Hlen |]. split; [exact Hhits |].
  split; [| split; [| split; [| split; [| exact Hfuel]]]].
  - intros H30.
    assert (Hcap : capReached st = true)
      by (unfold capReached; rewrite H30; reflexivity).
    split; [now apply Hend |]. split.
    + intros sub dir entries. now apply walkEntries_capped.
    + now apply searchReport_capped.
  - apply searchReport_below.
  - intros ->. reflexivity.
  - now apply searchReport_nonEmpty.
Qed.

Lemma search_files_capped_witness :
  exists st,
    searchFilesWalk {[ "pattern" := JStr "hit" ]} "/p" searchSampleFS = Ok st
    /\ length (results st) = 30%nat
    /\ endsOnHit (scanned st)
    /\ ~ In (SRead "/p/b.txt") (scanned st).
Proof.
  destruct (search_files_capped {[ "pattern" := JStr "hit" ]} "/p" "/p"
              searchSampleFS)
    as (st & Hwalk & _ & _ & _ & Hcap & _).
  - vm_compute. reflexivity.
  - exists st. split; [exact Hwalk |].
    vm_compute in Hwalk. injection Hwalk as <-.
    split; [reflexivity |]. split.
    + apply Hcap. reflexivity.
    + intros Hin. simpl in Hin.
      repeat (destruct Hin as [Hin | Hin]; [discriminate |]). exact Hin.
Defined.

Example search_files_none :
  searchFilesImpl {[ "pattern" := JStr "absent" ]} "/p" searchSampleFS
  = Ok "No matches found.".
Proof. vm_compute. reflexivity. Qed.

End SearchClaims.

(** ** Handling one tool call *)

Section HandlingFacts.
Context `{Platform} `{JSON}.
Import Agent.

Variable executeTool : string -> Args -> string -> FS -> Exc string * FS.
Variable answers : nat -> string.
Variable globalRl : bool.
Variable projectDir : string.
Variable autoApprove : bool.

Lemma addOut_nil (st : St) : addOut [] st = st.
Proof. destruct st. unfold addOut. simpl. now rewrite app_nil_r. Qed.

Lemma addOut_addOut (a b : list Event) (st : St) :
  addOut b (addOut a st) = addOut (a ++ b) st.
Proof. unfold addOut. simpl. now rewrite app_assoc. Qed.

Lemma emitSt_addOut (e : Event) (st : St) : emitSt e st = addOut [e] st.
Proof. reflexivity. Qed.

Lemma onlyEmits_ret {A} (P : Event -> Prop) (a : A) : onlyEmits P (mret a).
Proof.
  intros st. exists (Ok a), []. split; [| constructor].
  now rewrite addOut_nil.
Qed.

Lemma onlyEmits_throw {A} (P : Event -> Prop) (msg : string) :
  onlyEmits P (@throw A msg).
Proof.
  intros st. exists (Throw msg), []. split; [| constructor].
  unfold throw. now rewrite addOut_nil.
Qed.

Lemma onlyEmits_emit (P : Event -> Prop) (e : Event) :
  P e -> onlyEmits P (emit e).
Proof.
  intros He st. exists (Ok tt), [e]. split; [reflexivity | now repeat constructor].
Qed.

Lemma onlyEmits_bind {A B} (P : Event -> Prop) (m : Act A) (k : A -> Act B) :
  onlyEmits P m -> (forall a, onlyEmits P (k a)) -> onlyEmits P (m ≫= k).
Proof.
  intros Hm Hk st. unfold mbind, act_bind.
  destruct (Hm st) as (r & evs & -> & Hevs).
  destruct r as [a | msg].
  - destruct (Hk a (addOut evs st)) as (r' & evs' & -> & Hevs').
    exists r', (evs ++ evs')%list. rewrite addOut_addOut.
    split; [reflexivity | now apply Forall_app].
  - now exists (Throw msg), evs.
Qed.

Lemma onlyEmits_when (P : Event -> Prop) (b : bool) (m : Act unit) :
  onlyEmits P m -> onlyEmits P (when b m).
Proof. destruct b; simpl; [trivial | intros _; apply onlyEmits_ret]. Qed.

Lemma onlyEmits_asText (P : Event -> Prop) (what : string) (v : JSVal) :
  onlyEmits P (asText what v).
Proof. destruct v; simpl; (apply onlyEmits_ret || apply onlyEmits_throw). Qed.

Lemma emitsAndReturns_ret {A} (P : Event -> Prop) (a : A) :
  emitsAndReturns P (mret a) a.
Proof.
  intros st. exists []. split; [| constructor]. now rewrite addOut_nil.
Qed.

Lemma emitsAndReturns_emit (P : Event -> Prop) (e : Event) :
  P e -> emitsAndReturns P (emit e) tt.
Proof.
  intros He st. exists [e]. split; [reflexivity | now repeat constructor].
Qed.

Lemma emitsAndReturns_bind {A B} (P : Event -> Prop) (m : Act A)
    (k : A -> Act B) (a : A) (b : B) :
  emitsAndReturns P m a -> emitsAndReturns P (k a) b ->
  emitsAndReturns P (m ≫= k) b.
Proof.
  intros Hm Hk st. unfold mbind, act_bind.
  destruct (Hm st) as (evs & -> & Hevs).
  destruct (Hk (addOut evs st)) as (evs' & -> & Hevs').
  exists (evs ++ evs')%list. rewrite addOut_addOut.
  split; [reflexivity | now apply Forall_app].
Qed.

Lemma emitsAndReturns_when (P : Event -> Prop) (b : bool) (m : Act unit) :
  emitsAndReturns P m tt -> emitsAndReturns P (when b m) tt.
Proof. destruct b; simpl; [trivial | intros _; apply emitsAndReturns_ret]. Qed.

(** The announcement never throws and is one event. *)
Lemma showCall_run (name : string) (args : Args) :
  exists detail, forall st,
    showCall name args st = (Ok tt, addOut [EvShowCall name detail] st).
Proof.
  unfold showCall.
  repeat match goal with
         | |- context [if ?b then _ else _] => destruct b
         end; eexists; intros st; reflexivity.
Qed.

Lemma previewNewFile_emits (v : JSVal) : onlyEmits isPreviewEv (previewNewFile v).
Proof.
  unfold previewNewFile. apply onlyEmits_bind; [apply onlyEmits_asText |].
  intros text. now apply onlyEmits_emit.
Qed.

Lemma previewWrite_emits (args : Args) :
  onlyEmits isPreviewEv (previewWrite projectDir args).
Proof.
  intros st. unfold previewWrite.
  destruct (resolveArg projectDir (prop args "path")) as [filePath | msg].
  - destruct (readFile (fs st) filePath);
      destruct (prop args "content");
      first [ apply previewNewFile_emits
            | apply (onlyEmits_emit isPreviewEv); exact I ].
  - exists (Throw msg), []. split; [now rewrite addOut_nil | constructor].
Qed.

Lemma previewEdit_emits (args : Args) : onlyEmits isPreviewEv (previewEdit args).
Proof.
  unfold previewEdit.
  apply onlyEmits_bind; [apply onlyEmits_asText | intros target].
  apply onlyEmits_bind; [now apply onlyEmits_emit | intros _].
  apply onlyEmits_bind; [apply onlyEmits_asText | intros replacement].
  now apply onlyEmits_emit.
Qed.

(** The question: its events, the answer read, one more prompt counted. *)
Lemma askPermission_run (question : string) (st : St) :
  askPermission answers globalRl question st =
  (Ok (JS.trim (JS.toLowerCase (answers (prompts st)))),
   {| fs := fs st;
      out := out st ++ askEvents globalRl question (answers (prompts st));
      prompts := S (prompts st); chats := chats st |}).
Proof.
  unfold askPermission, askEvents, emitSt.
  destruct globalRl; simpl; rewrite <- ?app_assoc; reflexivity.
Qed.

(** The gate either fails in a preview, before any question, or asks
    and returns what the answer decides. *)
Lemma permissionGate_run (name : string) (args : Args) (risk : RiskVal) (st : St) :
  (exists msg previews,
      permissionGate answers globalRl projectDir name args risk st =
      (Throw msg, addOut previews st)
      /\ Forall isPreviewEv previews)
  \/ (exists previews question,
      permissionGate answers globalRl projectDir name args risk st =
      (Ok (refusalOf (decisionOf (answers (prompts st)))),
       {| fs := fs st;
          out := out st ++ previews
                   ++ askEvents globalRl question (answers (prompts st));
          prompts := S (prompts st); chats := chats st |})
      /\ Forall isPreviewEv previews).
Proof.
  unfold permissionGate, mbind, act_bind.
  destruct (onlyEmits_when isPreviewEv
              (String.eqb name "write_file" && truthy (prop args "content"))
              _ (previewWrite_emits args) st) as (r1 & evs1 & -> & Hevs1).
  destruct r1 as [[] | msg]; [| left; now exists msg, evs1].
  destruct (onlyEmits_when isPreviewEv
              (String.eqb name "edit_file" && truthy (prop args "target"))
              _ (previewEdit_emits args) (addOut evs1 st))
    as (r2 & evs2 & -> & Hevs2).
  rewrite addOut_addOut.
  destruct r2 as [[] | msg];
    [| left; exists msg, (evs1 ++ evs2)%list; split;
       [reflexivity | now apply Forall_app]].
  right. exists (evs1 ++ evs2)%list. eexists.
  split; [| now apply Forall_app].
  rewrite askPermission_run. cbn [addOut fs out prompts chats].
  unfold decisionOf.
  destruct (String.eqb _ "n" || String.eqb _ "no");
    [rewrite <- app_assoc; reflexivity |].
  destruct (String.eqb _ "skip" || String.eqb _ "s");
    rewrite <- app_assoc; reflexivity.
Qed.

(** The executor is called once, and its text, once coerced, is the
    result; what follows on the terminal is the account of the output. *)
Lemma executeAndReport_run (name : string) (args : Args) (st : St)
    (r : Exc string) (fs' : FS) :
  executeTool name args projectDir (fs st) = (r, fs') ->
  match r with
  | Ok text =>
      exists reports,
        executeAndReport executeTool projectDir name args st =
        (Ok (orNoOutput text),
         {| fs := fs'; out := out st ++ EvExec name args :: reports;
            prompts := prompts st; chats := chats st |})
        /\ Forall isReportEv reports
  | Throw msg =>
      executeAndReport executeTool projectDir name args st =
      (Throw msg,
       {| fs := fs'; out := out st ++ [EvExec name args];
          prompts := prompts st; chats := chats st |})
  end.
Proof.
  intros Hexec.
  unfold executeAndReport, mbind, act_bind, runExecutor.
  cbn [emitSt fs out prompts chats]. rewrite Hexec.
  destruct r as [text | msg]; [| reflexivity].
  fold (orNoOutput text).
  set (st1 := {| fs := fs'; out := out st ++ [EvExec name args];
                 prompts := prompts st; chats := chats st |}).
  assert (Hall : emitsAndReturns isReportEv
    (when (bool_decide (name ∈ ["read_file"; "list_directory"; "search_files";
                                 "get_project_info"])
           && (5 <? length (JS.splitLines (orNoOutput text)))%nat)
          (emit (EvReport (RLines (length (JS.splitLines (orNoOutput text))))));;
     when (String.eqb name "run_command")
          (emit (EvReport (RCommandOutput (take 20 (JS.splitLines (orNoOutput text)))));;
           when (20 <? length (JS.splitLines (orNoOutput text)))%nat
                (emit (EvReport (RCommandMore
                                   (length (JS.splitLines (orNoOutput text)) - 20)))));;
     when ((String.eqb name "write_file" || String.eqb name "edit_file")
           && negb (JS.startsWith (orNoOutput text) "Error"))
          (emit (EvReport RDone));;
     mret (orNoOutput text)) (orNoOutput text)).
  { apply emitsAndReturns_bind with (a := tt);
      [apply emitsAndReturns_when; now apply emitsAndReturns_emit |].
    apply emitsAndReturns_bind with (a := tt).
    { apply emitsAndReturns_when.
      apply emitsAndReturns_bind with (a := tt);
        [now apply emitsAndReturns_emit |].
      apply emitsAndReturns_when. now apply emitsAndReturns_emit. }
    apply emitsAndReturns_bind with (a := tt);
      [apply emitsAndReturns_when; now apply emitsAndReturns_emit |].
    apply emitsAndReturns_ret. }
  destruct (Hall st1) as (reports & Hrun & Hreports).
  exists reports. split; [| exact Hreports].
  unfold mbind, act_bind in Hrun. rewrite Hrun.
  unfold addOut, st1. cbn [fs out prompts chats].
  now rewrite <- app_assoc.
Qed.

Ltac norm_out :=
  unfold emitSt, addOut; cbn [fs out prompts chats fst snd];
  rewrite <- ?app_assoc; cbn [app].

(** Every handling of a tool call goes one of the four ways. *)
Lemma handleToolCall_Handled (tc : ToolCall) (st : St) :
  Handled executeTool answers globalRl projectDir autoApprove tc st
    (fst (handleToolCall executeTool answers globalRl projectDir autoApprove tc st))
    (snd (handleToolCall executeTool answers globalRl projectDir autoApprove tc st)).
Proof.
  unfold handleToolCall, handleBody, mbind, act_bind.
  destruct (showCall_run (tc_name tc) (tc_args tc)) as [detail Hshow].
  rewrite Hshow.
  destruct (notSafe (riskOf (tc_name tc)) && negb autoApprove) eqn:Hgate.
  - destruct (permissionGate_run (tc_name tc) (tc_args tc) (riskOf (tc_name tc))
                (addOut [EvShowCall (tc_name tc) detail] st))
      as [(msg & previews & -> & Hprev) | (previews & question & -> & Hprev)].
    + norm_out. now apply HandledPreviewFailed.
    + cbn [addOut prompts fs out chats].
      destruct (decisionOf (answers (prompts st))) eqn:Hdecision;
        cbn [refusalOf].
      * destruct (executeTool (tc_name tc) (tc_args tc) projectDir (fs st))
          as [r fs'] eqn:Hexec.
        match goal with
        | |- context [executeAndReport _ _ _ _ ?s] =>
            pose proof (executeAndReport_run (tc_name tc) (tc_args tc) s r fs'
                          Hexec) as Hrun
        end.
        destruct r as [text | msg].
        -- destruct Hrun as (reports & -> & Hreports).
           norm_out. eapply HandledAllowed; eauto. now split.
        -- rewrite Hrun. norm_out. eapply HandledAllowed; eauto. now split.
      * norm_out. apply HandledRefused; [assumption .. |].
        now rewrite Hdecision.
      * norm_out. apply HandledRefused; [assumption .. |].
        now rewrite Hdecision.
  - destruct (executeTool (tc_name tc) (tc_args tc) projectDir (fs st))
      as [r fs'] eqn:Hexec.
    pose proof (executeAndReport_run (tc_name tc) (tc_args tc)
                  (addOut [EvShowCall (tc_name tc) detail] st) r fs' Hexec)
      as Hrun.
    destruct r as [text | msg].
    + destruct Hrun as (reports & -> & Hreports).
      norm_out. eapply HandledDirectly; eauto. now split.
    + rewrite Hrun. norm_out. eapply HandledDirectly; eauto. now split.
Qed.

End HandlingFacts.

(** ** The permission gate *)

Section GateFacts.
Context `{Platform} `{JSON}.
Import Agent.

Variable executeTool : string -> Args -> string -> FS -> Exc string * FS.
Variable answers : nat -> string.
Variable globalRl : bool.
Variable projectDir : string.

Lemma count_app {A} (p : A -> bool) (a b : list A) :
  count p (a ++ b) = (count p a + count p b)%nat.
Proof. unfold count. now rewrite List.filter_app, length_app. Qed.

Lemma count_none {A} (p : A -> bool) (P : A -> Prop) (l : list A) :
  (forall x, P x -> p x = false) -> Forall P l -> count p l = 0%nat.
Proof.
  intros Hp Hl. induction Hl as [|x l Hx Hl IH]; [reflexivity |].
  unfold count in *. simpl. now rewrite (Hp x Hx).
Qed.

Lemma count_In_none {A} (p : A -> bool) (l : list A) (x : A) :
  count p l = 0%nat -> In x l -> p x = false.
Proof.
  unfold count. induction l as [|y l IH]; simpl; [tauto |].
  destruct (p y) eqn:Hy; simpl; [discriminate |].
  intros Hl [<- | Hin]; auto.
Qed.

Lemma askEvents_no_exec question line :
  count isExec (askEvents globalRl question line) = 0%nat.
Proof. unfold askEvents. destruct globalRl; reflexivity. Qed.

Lemma askEvents_answer question line :
  In (EvAnswer line) (askEvents globalRl question line).
Proof. unfold askEvents. destruct globalRl; simpl; auto. Qed.

Lemma afterExec_no_exec r tail result :
  afterExec r tail result -> count isExec tail = 0%nat.
Proof.
  destruct r as [text | msg]; simpl; intros [_ Htail].
  - apply (count_none isExec isReportEv); [| exact Htail].
    now intros [].
  - now subst tail.
Qed.

Lemma afterExec_no_question r tail result :
  afterExec r tail result ->
  count isAsk tail = 0%nat /\ count isAnswer tail = 0%nat.
Proof.
  destruct r as [text | msg]; simpl; intros [_ Htail].
  - split; apply (count_none _ isReportEv); try exact Htail; now intros [].
  - now subst tail.
Qed.

Lemma afterExec_nonEmpty r tail result :
  afterExec r tail result -> result <> EmptyString.
Proof.
  destruct r as [text | msg]; simpl; intros [-> _].
  - unfold orNoOutput. destruct (JS.nonEmpty text) eqn:Htext; [| discriminate].
    now apply nonEmpty_true.
  - discriminate.
Qed.

(** The place of an executor call in a trace that holds just one. *)
Lemma exec_position (before1 after1 before2 after2 : list Event)
    (e1 e2 : Event) :
  count isExec before1 = 0%nat -> count isExec after1 = 0%nat ->
  isExec e2 = true ->
  (before1 ++ e1 :: after1 = before2 ++ e2 :: after2)%list ->
  before2 = before1.
Proof.
  intros Hb Ha He2. revert before2.
  induction before1 as [|x before1 IH]; intros before2 Heq.
  - destruct before2 as [|y before2]; [reflexivity |].
    simpl in Heq. injection Heq as _ Hafter.
    assert (Hin : In e2 after1) by (rewrite Hafter; apply in_elt).
    pose proof (count_In_none isExec after1 e2 Ha Hin). congruence.
  - unfold count in Hb. simpl in Hb.
    destruct (isExec x) eqn:Hx; simpl in Hb; [discriminate |].
    destruct before2 as [|y before2]; simpl in Heq.
    + injection Heq as -> _. congruence.
    + injection Heq as -> Hrest. f_equal. now apply IH.
Qed.

Lemma no_exec_guarded (evs : list Event) :
  count isExec evs = 0%nat -> execAfterAnswer evs.
Proof.
  intros Hnone before name args after ->.
  assert (Hin : In (EvExec name args) (before ++ EvExec name args :: after))
    by apply in_elt.
  pose proof (count_In_none isExec _ _ Hnone Hin). discriminate.
Qed.

Lemma previews_no_exec previews :
  Forall isPreviewEv previews -> count isExec previews = 0%nat.
Proof. apply count_none. now intros []. Qed.

Lemma previews_no_question previews :
  Forall isPreviewEv previews ->
  count isAsk previews = 0%nat /\ count isAnswer previews = 0%nat.
Proof. intros Hp. split; apply (count_none _ isPreviewEv); auto; now intros []. Qed.


End GateFacts.

Section GateRuns.
Import Agent.


End GateRuns.

(** ** Decisions and tool turns *)

Section DecisionFacts.
Context `{Platform} `{JSON}.
Import Agent.

Variable executeTool : string -> Args -> string -> FS -> Exc string * FS.
Variable answers : nat -> string.
Variable globalRl : bool.
Variable projectDir : string.
Variable autoApprove : bool.

(** The decision is read from the line in lower case, without the white
    space around it. *)
Lemma decisionOf_spec (line : string) :
  let answer := JS.trim (JS.toLowerCase line) in
  (decisionOf line = Denied <-> answer = "n" \/ answer = "no")
  /\ (decisionOf line = Skipped <-> answer = "skip" \/ answer = "s")
  /\ (decisionOf line = Allowed <->
      answer <> "n" /\ answer <> "no" /\ answer <> "skip" /\ answer <> "s").
Proof.
  intros answer. unfold decisionOf. fold answer.
  destruct (String.eqb_spec answer "n") as [-> | Hn].
  { simpl. intuition (try discriminate; try congruence). }
  destruct (String.eqb_spec answer "no") as [-> | Hno].
  { simpl. intuition (try discriminate; try congruence). }
  destruct (String.eqb_spec answer "skip") as [-> | Hskip].
  { simpl. intuition (try discriminate; try congruence). }
  destruct (String.eqb_spec answer "s") as [-> | Hs].
  { simpl. intuition (try discriminate; try congruence). }
  simpl. intuition (try discriminate; try congruence).
Qed.

Lemma dispatch_one (tc : ToolCall) (messages : list Turn) (st : St) :
  dispatch executeTool answers globalRl projectDir autoApprove [tc] messages st
  = ((messages
       ++ [TTool (tc_id tc)
             (fst (handleToolCall executeTool answers globalRl projectDir
                     autoApprove tc st))])%list,
     snd (handleToolCall executeTool answers globalRl projectDir
            autoApprove tc st)).
Proof. simpl. now destruct (handleToolCall _ _ _ _ _ tc st). Qed.



End DecisionFacts.

(** ** The loop *)

Section LoopFacts.
Context `{Platform} `{JSON}.
Import Agent.

Variable executeTool : string -> Args -> string -> FS -> Exc string * FS.
Variable chat : nat -> list Turn -> Exc Response.
Variable answers : nat -> string.
Variable globalRl : bool.
Variable projectDir : string.
Variable autoApprove : bool.

Lemma toolEvent_silent (e : Event) :
  isToolEvent e -> loopSilent e /\ isLoopError e = false.
Proof. destruct e; simpl; intros He; try tauto; now repeat split. Qed.

Lemma askEvents_tool question line :
  Forall isToolEvent (askEvents globalRl question line).
Proof. unfold askEvents. destruct globalRl; repeat constructor. Qed.

Lemma previews_tool previews :
  Forall isPreviewEv previews -> Forall isToolEvent previews.
Proof. intros Hp. eapply Forall_impl; [exact Hp | now intros []]. Qed.

Lemma afterExec_tool r tail result :
  afterExec r tail result -> Forall isToolEvent tail.
Proof.
  destruct r as [text | msg]; simpl; intros [_ Htail].
  - eapply Forall_impl; [exact Htail | now intros []].
  - subst tail. now repeat constructor.
Qed.

(** Handling a tool call calls no model and leaves only its own events. *)
Lemma handleToolCall_events (tc : ToolCall) (st : St) :
  exists evs,
    out (snd (handleToolCall executeTool answers globalRl projectDir
                autoApprove tc st)) = (out st ++ evs)%list
    /\ Forall isToolEvent evs
    /\ chats (snd (handleToolCall executeTool answers globalRl projectDir
                     autoApprove tc st)) = chats st.
Proof.
  pose proof (handleToolCall_Handled executeTool answers globalRl projectDir
                autoApprove tc st) as Hh.
  destruct (handleToolCall _ _ _ _ _ tc st) as [result st']. cbn [fst snd] in *.
  inversion Hh as [detail r fs' tail res Hgate Hexec Hafter
                  | detail previews msg Hgate Hprev
                  | detail previews question text Hgate Hprev Hrefuse
                  | detail previews question r fs' tail res Hgate Hprev Hallow
                      Hexec Hafter]; subst; cbn [out chats];
    eexists; (split; [reflexivity |]); (split; [| reflexivity]).
  - repeat constructor. eapply afterExec_tool; eassumption.
  - constructor; [exact I |]. apply Forall_app. split;
      [now apply previews_tool | now repeat constructor].
  - constructor; [exact I |]. apply Forall_app. split;
      [now apply previews_tool | apply askEvents_tool].
  - constructor; [exact I |]. apply Forall_app. split;
      [now apply previews_tool |].
    apply Forall_app. split; [apply askEvents_tool |].
    constructor; [exact I | eapply afterExec_tool; eassumption].
Qed.

Lemma dispatch_events (toolCalls : list ToolCall) :
  forall messages st,
  exists evs,
    out (snd (dispatch executeTool answers globalRl projectDir autoApprove
                toolCalls messages st)) = (out st ++ evs)%list
    /\ Forall isToolEvent evs
    /\ chats (snd (dispatch executeTool answers globalRl projectDir autoApprove
                     toolCalls messages st)) = chats st.
Proof.
  induction toolCalls as [|tc rest IH]; intros messages st.
  - exists []. simpl. rewrite app_nil_r. repeat split. constructor.
  - simpl.
    destruct (handleToolCall_events tc st) as (evs1 & Hout1 & Hevs1 & Hchats1).
    destruct (handleToolCall _ _ _ _ _ tc st) as [result st'].
    cbn [fst snd] in *.
    destruct (IH (messages ++ [TTool (tc_id tc) result])%list st')
      as (evs2 & Hout2 & Hevs2 & Hchats2).
    exists (evs1 ++ evs2)%list. rewrite Hout2, Hout1, Hchats2, Hchats1.
    rewrite app_assoc. repeat split. now apply Forall_app.
Qed.

(** One pass calls the model once; it ends the loop only through the
    [catch]. When the reply asks for a tool call the pass goes on to the
    next one without an error. *)
Lemma iteration_events (messages : list Turn) (st : St) :
  exists evs,
    out (snd (iteration executeTool chat answers globalRl projectDir
                autoApprove messages st))
    = (out st ++ EvChat messages :: evs)%list
    /\ Forall loopSilent evs
    /\ chats (snd (iteration executeTool chat answers globalRl projectDir
                     autoApprove messages st)) = S (chats st)
    /\ (fst (fst (iteration executeTool chat answers globalRl projectDir
                    autoApprove messages st)) = Break ->
        count isLoopError evs = 1%nat)
    /\ (forall r tc tcs,
          chat (chats st) messages = Ok r ->
          normalizeToolCalls (message r) = Ok (tc :: tcs) ->
          fst (fst (iteration executeTool chat answers globalRl projectDir
                      autoApprove messages st)) = Next
          /\ count isLoopError evs = 0%nat).
Proof.
  assert (Herr : forall msg st1,
    out st1 = (out st ++ [EvChat messages])%list -> chats st1 = S (chats st) ->
    exists evs,
      out (snd (onError msg messages st1)) = (out st ++ EvChat messages :: evs)%list
      /\ Forall loopSilent evs
      /\ chats (snd (onError msg messages st1)) = S (chats st)
      /\ (fst (fst (onError msg messages st1)) = Break ->
          count isLoopError evs = 1%nat)).
  { intros msg st1 Hout Hchats. unfold onError.
    destruct (JS.nonEmpty (if JS.nonEmpty msg then msg else "Error") && _);
      cbn [fst snd emitSt out chats]; rewrite Hout, <- !app_assoc;
      eexists; (split; [reflexivity |]);
      (split; [now repeat constructor |]); (split; [exact Hchats |]);
      intros Hb; (discriminate || reflexivity). }
  unfold iteration.
  set (st1 := {| fs := fs st; out := out st ++ [EvChat messages];
                 prompts := prompts st; chats := S (chats st) |}).
  destruct (chat (chats st) messages) as [response | msg].
  2:{ destruct (Herr msg st1 eq_refl eq_refl) as (evs & H1 & H2 & H3 & H4).
      exists evs. do 4 (split; [assumption |]).
      intros r tc tcs Hr. discriminate. }
  destruct (normalizeToolCalls (message response)) as [toolCalls | msg]
    eqn:Hnorm.
  2:{ destruct (Herr msg st1 eq_refl eq_refl) as (evs & H1 & H2 & H3 & H4).
      exists evs. do 4 (split; [assumption |]).
      intros r tc tcs Hr Hcalls. injection Hr as <-.
      rewrite Hcalls in Hnorm. discriminate. }
  set (textParts := extractText response).
  set (hasText := JS.nonEmpty textParts && JS.nonEmpty (JS.trim textParts)).
  destruct toolCalls as [|tc tcs].
  - cbn [length Nat.ltb Nat.leb andb]. rewrite andb_false_r.
    cbn [fst snd].
    destruct hasText; cbn [emitSt out chats st1]; rewrite <- ?app_assoc;
      eexists; (split; [reflexivity |]);
      (split; [now repeat constructor |]); (split; [reflexivity |]);
      (split; [intros; discriminate |]);
      intros r tc tcs Hr Hcalls; injection Hr as <-;
      rewrite Hcalls in Hnorm; discriminate.
  - cbn [length Nat.ltb Nat.leb]. rewrite andb_true_r.
    match goal with
    | |- context [dispatch _ _ _ _ _ ?calls ?msgs ?s] =>
        destruct (dispatch_events calls msgs s) as (evs & Hout & Hevs & Hchats);
        destruct (dispatch executeTool answers globalRl projectDir autoApprove
                    calls msgs s) as [messages2 st3]
    end.
    cbn [fst snd] in *. rewrite Hout, Hchats.
    assert (Hsilent : Forall loopSilent evs)
      by (eapply Forall_impl; [exact Hevs |]; intros e He;
          now apply toolEvent_silent).
    assert (Hquiet : count isLoopError evs = 0%nat)
      by (apply (count_none isLoopError isToolEvent); [| exact Hevs];
          intros e He; now apply toolEvent_silent).
    destruct hasText; cbn [emitSt out chats st1]; rewrite <- ?app_assoc;
      eexists; (split; [reflexivity |]);
      (split; [repeat constructor; assumption |]); (split; [reflexivity |]);
      (split; [intros; discriminate |]);
      intros r tc' tcs' _ _; (split; [reflexivity |]).
    + change (count isLoopError ([EvSay (JS.trim textParts)] ++ evs) = 0%nat).
      now rewrite count_app, Hquiet.
    + exact Hquiet.
Qed.

(** A pass whose reply holds no tool call hands control back to the
    loop condition just as one with tool calls does. *)
Lemma iteration_final_goes_on (messages : list Turn) (st : St) (r : Response) :
  chat (chats st) messages = Ok r ->
  normalizeToolCalls (message r) = Ok [] ->
  fst (fst (iteration executeTool chat answers globalRl projectDir
              autoApprove messages st)) = Next.
Proof. intros Hr Hcalls. unfold iteration. now rewrite Hr, Hcalls. Qed.

(** The fuel given by [runAgentLoop] is enough: the loop ends by its
    own condition. *)
Lemma agentWhile_fuel (maxIterations fuel extra : nat) :
  forall iterations messages st,
  (maxIterations <= fuel + iterations)%nat ->
  agentWhile executeTool chat answers globalRl projectDir autoApprove
    (fuel + extra) maxIterations iterations messages st
  = agentWhile executeTool chat answers globalRl projectDir autoApprove
      fuel maxIterations iterations messages st.
Proof.
  induction fuel as [|fuel IH]; intros iterations messages st Hfuel.
  - assert (Hdone : (iterations <? maxIterations)%nat = false)
      by (apply Nat.ltb_ge; lia).
    destruct extra as [|extra]; simpl; [reflexivity |]. now rewrite Hdone.
  - simpl. destruct (iterations <? maxIterations)%nat; [| reflexivity].
    destruct (iteration _ _ _ _ _ _ messages st) as [[[] messages'] st'];
      [| reflexivity].
    apply IH. lia.
Qed.

(** What the passes of the loop amount to: one model call per pass, no
    more passes than the bound allows; with a model that always asks for
    a tool call, all the passes the bound allows and no error. *)
Lemma agentWhile_events (maxIterations fuel : nat) :
  forall iterations messages st,
  let run := agentWhile executeTool chat answers globalRl projectDir
               autoApprove fuel maxIterations iterations messages st in
  (iterations <= fst (fst run))%nat
  /\ ((iterations <= maxIterations)%nat -> (fst (fst run) <= maxIterations)%nat)
  /\ exists evs,
       out (snd run) = (out st ++ evs)%list
       /\ count isChat evs = (fst (fst run) - iterations)%nat
       /\ count isWarning evs = 0%nat
       /\ chats (snd run) = (chats st + (fst (fst run) - iterations))%nat
       /\ ((forall k history, exists r tc tcs,
               chat k history = Ok r
               /\ normalizeToolCalls (message r) = Ok (tc :: tcs)) ->
           count isLoopError evs = 0%nat
           /\ ((iterations <= maxIterations <= fuel + iterations)%nat ->
               fst (fst run) = maxIterations)).
Proof.
  induction fuel as [|fuel IH]; intros iterations messages st; cbn zeta.
  - simpl. split; [lia |]. split; [lia |].
    exists []. rewrite app_nil_r, Nat.sub_diag, Nat.add_0_r.
    repeat split. lia.
  - simpl. destruct (iterations <? maxIterations)%nat eqn:Hlt.
    2:{ apply Nat.ltb_ge in Hlt. simpl. split; [lia |]. split; [lia |].
        exists []. rewrite app_nil_r, Nat.sub_diag, Nat.add_0_r.
        repeat split. lia. }
    apply Nat.ltb_lt in Hlt.
    destruct (iteration_events messages st)
      as (evs1 & Hout1 & Hsilent1 & Hchats1 & Hbreak1 & Hstub1).
    assert (Hnochat : count isChat evs1 = 0%nat)
      by (apply (count_none isChat loopSilent); [| exact Hsilent1];
          now intros e [He _]).
    assert (Hnowarn : count isWarning evs1 = 0%nat)
      by (apply (count_none isWarning loopSilent); [| exact Hsilent1];
          now intros e [_ He]).
    destruct (iteration _ _ _ _ _ _ messages st) as [[ctl messages'] st'].
    cbn [fst snd] in *.
    destruct ctl.
    + specialize (IH (S iterations) messages' st'). cbn zeta in IH.
      destruct (agentWhile _ _ _ _ _ _ fuel maxIterations (S iterations)
                  messages' st') as [[iterations' messages''] st''].
      cbn [fst snd] in *.
      destruct IH as (Hle & Hmax & evs2 & Hout2 & Hchat2 & Hwarn2 & Hchats2
                      & Hstub2).
      split; [lia |]. split; [intros; apply Hmax; lia |].
      exists (EvChat messages :: evs1 ++ evs2)%list.
      split; [rewrite Hout2, Hout1, <- app_assoc; reflexivity |].
      change (EvChat messages :: evs1 ++ evs2)%list
        with ([EvChat messages] ++ evs1 ++ evs2)%list.
      rewrite !count_app, Hnochat, Hnowarn, Hchat2, Hwarn2, Hchats2, Hchats1.
      change (count isChat [EvChat messages]) with 1%nat.
      change (count isWarning [EvChat messages]) with 0%nat.
      change (count isLoopError [EvChat messages]) with 0%nat.
      do 3 (split; [lia |]).
      intros Hstub.
      destruct (Hstub (chats st) messages) as (r & tc & tcs & Hr & Hcalls).
      destruct (Hstub1 r tc tcs Hr Hcalls) as [_ Hquiet1].
      destruct (Hstub2 Hstub) as [Hquiet2 Hall].
      split; [lia | intros Hrange; apply Hall; lia].
    + cbn [fst snd]. split; [lia |]. split; [lia |].
      exists (EvChat messages :: evs1)%list.
      split; [exact Hout1 |].
      change (EvChat messages :: evs1)%list
        with ([EvChat messages] ++ evs1)%list.
      rewrite !count_app, Hnochat, Hnowarn, Hchats1.
      change (count isChat [EvChat messages]) with 1%nat.
      change (count isWarning [EvChat messages]) with 0%nat.
      change (count isLoopError [EvChat messages]) with 0%nat.
      do 3 (split; [lia |]).
      intros Hstub.
      destruct (Hstub (chats st) messages) as (r & tc & tcs & Hr & Hcalls).
      destruct (Hstub1 r tc tcs Hr Hcalls) as [Hnext _]. discriminate.
Qed.

End LoopFacts.

Section LoopClaims.
Context `{Platform} `{JSON}.
Import Agent.

Variable executeTool : string -> Args -> string -> FS -> Exc string * FS.
Variable chat : nat -> list Turn -> Exc Response.
Variable answers : nat -> string.
Variable globalRl : bool.
Variable projectDir : string.
Variable autoApprove : bool.


End LoopClaims.

Section LoopRuns.
Import Agent.


(** C1 does not hold of the code: in the scenario of the specification
    (the model asks once for [read_file] of [index.js], then answers with
    the final text and no tool call) the loop does not stop at the final
    answer. With the default bound of 25 it calls the model 25 times,
    prints the final text 24 times, and adds 24 assistant turns after
    the single tool turn, until the max-iterations warning ends it. *)
Theorem final_answer_does_not_stop_the_loop :
  let run :=
    runAgentLoop Tools.executeTool scenarioChat (alwaysAnswers "y") false
      "/p" false scenarioHistory 25 (startState projectFS) in
  chats (snd run) = 25%nat
  /\ count isChat (out (snd run)) = 25%nat
  /\ count isFinal (out (snd run)) = 24%nat
  /\ count isExec (out (snd run)) = 1%nat
  /\ count isToolTurn (fst run) = 1%nat
  /\ length (fst run) = 28%nat
  /\ last (out (snd run)) = Some (EvWarnMax 25).
Proof. vm_compute. repeat split; reflexivity. Qed.



Example decisionOf_samples :
  (decisionOf "", decisionOf "Y", decisionOf "yes", decisionOf " NO ",
   decisionOf "n", decisionOf "Skip", decisionOf "s", decisionOf "maybe")
  = (Allowed, Allowed, Allowed, Denied, Denied, Skipped, Skipped, Allowed).
Proof. vm_compute. reflexivity. Qed.

(** A value that is not a string as [content] of a [write_file] makes
    the preview throw; the call ends with the error text, before any
    question and without a call of the executor. *)
Example preview_failure_is_reported :
  let handled :=
    handleToolCall Tools.executeTool (alwaysAnswers "y") false "/p" false
      {| tc_id := "call_1"; tc_name := "write_file";
         tc_args := {[ "path" := JStr "index.js"; "content" := JNum 3 ]} |}
      (startState projectFS) in
  fst handled = "Error executing tool: args.content.split is not a function"
  /\ count isExec (out (snd handled)) = 0%nat
  /\ prompts (snd handled) = 0%nat.
Proof. vm_compute. repeat split; reflexivity. Qed.

End LoopRuns.

(** * Further properties of the code *)

(** ** Lines of a text *)

Section LineFacts.

Lemma splitLines_cons (s : string) :
  exists l ls, JS.splitLines s = l :: ls.
Proof.
  destruct s as [|c r]; simpl; [now eexists _, _ |].
  destruct (Ascii.eqb c "010"); [now eexists _, _ |].
  destruct (JS.splitLines r); now eexists _, _.
Qed.

Lemma join_cons_char (sep : string) (c : ascii) (l : string) (ls : list string) :
  JS.join sep (String c l :: ls) = String c (JS.join sep (l :: ls)).
Proof. destruct ls; reflexivity. Qed.

(** Joining the lines of a text with line feeds gives the text back. *)
Lemma join_splitLines (s : string) : JS.join JS.LF (JS.splitLines s) = s.
Proof.
  induction s as [|c r IH]; [reflexivity |].
  destruct (splitLines_cons r) as (l & ls & Hr).
  simpl. destruct (Ascii.eqb c "010") eqn:Hc.
  - apply Ascii.eqb_eq in Hc; subst c.
    rewrite Hr in *. change (JS.join JS.LF (EmptyString :: l :: ls))
      with (String "010" (JS.join JS.LF (l :: ls))).
    now rewrite IH.
  - rewrite Hr in *. rewrite join_cons_char. now rewrite IH.
Qed.

Lemma splitLines_inj (s t : string) :
  JS.splitLines s = JS.splitLines t -> s = t.
Proof.
  intros Heq. rewrite <- (join_splitLines s), <- (join_splitLines t).
  now rewrite Heq.
Qed.

(** The lines from index [a] on, [k] of them at most, one index at a
    time. *)
Lemma slice_lookup {A} (l : list A) (a k : nat) :
  flat_map (fun i => option_list (l !! i)) (seq a k) = take k (drop a l).
Proof.
  revert a; induction k as [|k IH]; intros a; [now rewrite take_0 |].
  simpl. rewrite IH. destruct (l !! a) as [x|] eqn:Hx.
  - rewrite (drop_S l x a Hx). reflexivity.
  - apply lookup_ge_None_1 in Hx.
    rewrite !drop_ge by lia. now rewrite !take_nil.
Qed.

End LineFacts.

(** ** The diff shown before a write *)

Section DiffFacts.
Import Diff.

Lemma differAt_false (o n : list string) (i : nat) :
  differAt o n i = false <-> o !! i = n !! i.
Proof.
  unfold differAt. rewrite negb_false_iff, bool_decide_eq_true. reflexivity.
Qed.

Lemma differAt_true (o n : list string) (i : nat) :
  differAt o n i = true <-> o !! i <> n !! i.
Proof.
  unfold differAt. rewrite negb_true_iff, bool_decide_eq_false. reflexivity.
Qed.

(** Past the end of both lists nothing differs. *)
Lemma differAt_bound (o n : list string) (i : nat) :
  differAt o n i = true -> (i < Nat.max (length o) (length n))%nat.
Proof.
  rewrite differAt_true. intros Hne.
  destruct (Nat.lt_ge_cases i (Nat.max (length o) (length n))) as [Hlt|Hge];
    [exact Hlt |].
  exfalso. apply Hne. rewrite !lookup_ge_None_2 by lia. reflexivity.
Qed.

Lemma find_seq_first (p : nat -> bool) (a n i : nat) :
  List.find p (seq a n) = Some i ->
  (a <= i < a + n)%nat /\ p i = true
  /\ forall j, (a <= j < i)%nat -> p j = false.
Proof.
  revert a; induction n as [|n IH]; intros a; simpl; [discriminate |].
  destruct (p a) eqn:Hpa.
  - intros [= <-]. split; [lia |]. split; [exact Hpa |]. intros j Hj. lia.
  - intros Hfind. destruct (IH _ Hfind) as (Hrange & Hpi & Hbefore).
    split; [lia |]. split; [exact Hpi |].
    intros j Hj. destruct (Nat.eq_dec j a) as [-> | Hne]; [exact Hpa |].
    apply Hbefore. lia.
Qed.

Lemma find_seq_none (p : nat -> bool) (a n : nat) :
  List.find p (seq a n) = None ->
  forall j, (a <= j < a + n)%nat -> p j = false.
Proof.
  revert a; induction n as [|n IH]; intros a; simpl; [intros _ j Hj; lia |].
  destruct (p a) eqn:Hpa; [discriminate |].
  intros Hfind j Hj. destruct (Nat.eq_dec j a) as [-> | Hne]; [exact Hpa |].
  apply (IH _ Hfind). lia.
Qed.

Lemma find_rev_seq (p : nat -> bool) (n : nat) :
  match List.find p (rev (seq 0 n)) with
  | Some j => (j < n)%nat /\ p j = true
              /\ forall k, (j < k < n)%nat -> p k = false
  | None => forall k, (k < n)%nat -> p k = false
  end.
Proof.
  induction n as [|n IH]; [simpl; intros k Hk; lia |].
  rewrite seq_S, rev_app_distr. simpl.
  destruct (p n) eqn:Hpn.
  - split; [lia |]. split; [exact Hpn |]. intros k Hk. lia.
  - destruct (List.find p (rev (seq 0 n))) as [j|].
    + destruct IH as (Hj & Hpj & Hafter). split; [lia |]. split; [exact Hpj |].
      intros k Hk. destruct (Nat.eq_dec k n) as [-> | Hne]; [exact Hpn |].
      apply Hafter. lia.
    + intros k Hk. destruct (Nat.eq_dec k n) as [-> | Hne]; [exact Hpn |].
      apply IH. lia.
Qed.

(** No window exactly when the two lists of lines are the same. *)
Lemma diffWindow_none (o n : list string) :
  diffWindow o n = None <-> o = n.
Proof.
  unfold diffWindow, firstDifference. split.
  - destruct (List.find _ _) eqn:Hfind; [discriminate |]. intros _.
    apply list_eq. intros i.
    destruct (Nat.lt_ge_cases i (Nat.max (length o) (length n))) as [Hlt|Hge].
    + apply differAt_false. apply (find_seq_none _ _ _ Hfind). lia.
    + rewrite !lookup_ge_None_2 by lia. reflexivity.
  - intros ->. destruct (List.find _ _) as [i|] eqn:Hfind; [| reflexivity].
    apply find_seq_first in Hfind. destruct Hfind as (_ & Hi & _).
    apply differAt_true in Hi. now contradiction Hi.
Qed.

(** Otherwise the window starts two lines before the first difference
    and ends two lines after the last one, within the files. *)
Lemma diffWindow_some (o n : list string) (start stop : nat) :
  diffWindow o n = Some (start, stop) ->
  exists first last,
    differAt o n first = true /\ differAt o n last = true
    /\ (forall i, differAt o n i = true -> (first <= i <= last)%nat)
    /\ start = (first - 2)%nat
    /\ stop = Nat.min (Nat.max (length o) (length n)) (last + 3).
Proof.
  unfold diffWindow, firstDifference, lastDifference.
  destruct (List.find _ (seq _ _)) as [first|] eqn:Hfirst; [| discriminate].
  apply find_seq_first in Hfirst. destruct Hfirst as (Hrange & Hf & Hbefore).
  pose proof (find_rev_seq (differAt o n) (Nat.max (length o) (length n)))
    as Hlast.
  destruct (List.find _ (rev _)) as [last|].
  - destruct Hlast as (Hl & Hpl & Hafter). intros [= <- <-].
    exists first, last.
    split; [exact Hf |]. split; [exact Hpl |].
    split; [| split; reflexivity].
    intros i Hd. pose proof (differAt_bound _ _ _ Hd) as Hi. split.
    + destruct (Nat.le_gt_cases first i) as [Hle|Hgt]; [exact Hle |].
      rewrite Hbefore in Hd by lia. discriminate.
    + destruct (Nat.le_gt_cases i last) as [Hle|Hgt]; [exact Hle |].
      rewrite Hafter in Hd by lia. discriminate.
  - rewrite Hlast in Hf by lia. discriminate.
Qed.

(** In the window each index gives the old line and the new line of
    that index. *)
Lemma hunkLines_sides (o n : list string) (i : nat) :
  (i < Nat.max (length o) (length n))%nat ->
  oldSide (hunkLines o n i) = option_list (o !! i)
  /\ newSide (hunkLines o n i) = option_list (n !! i).
Proof.
  intros Hi. unfold hunkLines.
  assert (Ho : (if (i <? length o)%nat then o !! i else None) = o !! i).
  { destruct (i <? length o)%nat eqn:Hlt; [reflexivity |].
    apply Nat.ltb_ge in Hlt. now rewrite lookup_ge_None_2. }
  assert (Hn : (if (i <? length n)%nat then n !! i else None) = n !! i).
  { destruct (i <? length n)%nat eqn:Hlt; [reflexivity |].
    apply Nat.ltb_ge in Hlt. now rewrite lookup_ge_None_2. }
  rewrite Ho, Hn. destruct (bool_decide (o !! i = n !! i)) eqn:Heq.
  - apply bool_decide_eq_true in Heq. rewrite <- Heq.
    destruct (o !! i) as [text|] eqn:Hoi; [now split |].
    symmetry in Heq. apply lookup_ge_None_1 in Hoi, Heq. lia.
  - destruct (o !! i), (n !! i); now split.
Qed.

Lemma hunk_sides (o n : list string) (idxs : list nat) :
  Forall (fun i => (i < Nat.max (length o) (length n))%nat) idxs ->
  oldSide (flat_map (hunkLines o n) idxs)
  = flat_map (fun i => option_list (o !! i)) idxs
  /\ newSide (flat_map (hunkLines o n) idxs)
     = flat_map (fun i => option_list (n !! i)) idxs.
Proof.
  induction 1 as [|i idxs Hi _ [IHo IHn]]; [now split |].
  destruct (hunkLines_sides o n i Hi) as [Ho Hn].
  unfold oldSide, newSide in *. simpl.
  rewrite !flat_map_app. rewrite Ho, Hn, IHo, IHn. now split.
Qed.

(** X1. [generateDiff] answers that nothing changed exactly when the old
    and the new content are the same text. *)
Theorem generateDiff_no_changes (oldContent newContent filePath : string) :
  generateDiff oldContent newContent filePath = "  (no changes)"
  <-> oldContent = newContent.
Proof.
  unfold generateDiff, generateDiffLines.
  destruct (diffWindow _ _) as [[start stop]|] eqn:Hwin.
  - split.
    + simpl. discriminate.
    + intros ->. apply eq_sym in Hwin.
      assert (Hnone : diffWindow (JS.splitLines newContent)
                        (JS.splitLines newContent) = None)
        by now apply diffWindow_none.
      congruence.
  - split; [| reflexivity]. intros _.
    apply splitLines_inj. now apply diffWindow_none.
Qed.

(** X2. When the contents differ, the diff is the two file headers, one
    hunk header and one hunk. The hunk begins at most two lines before the
    first line that differs and ends at most two lines after the last
    one; the two files are equal before and after it; and its old side
    and its new side are the lines of the old and of the new file in
    between. *)
Theorem generateDiff_hunk (oldContent newContent filePath : string) :
  oldContent <> newContent ->
  let oldLines := JS.splitLines oldContent in
  let newLines := JS.splitLines newContent in
  exists first last start stop body,
    generateDiffLines oldContent newContent filePath
    = Some ([DOld filePath; DNew filePath; DHunk (start + 1)] ++ body)%list
    /\ oldLines !! first <> newLines !! first
    /\ oldLines !! last <> newLines !! last
    /\ (forall i, oldLines !! i <> newLines !! i -> (first <= i <= last)%nat)
    /\ start = (first - 2)%nat
    /\ stop = Nat.min (Nat.max (length oldLines) (length newLines)) (last + 3)
    /\ take start oldLines = take start newLines
    /\ drop stop oldLines = drop stop newLines
    /\ oldLines = (take start oldLines ++ oldSide body ++ drop stop oldLines)%list
    /\ newLines = (take start newLines ++ newSide body ++ drop stop newLines)%list.
Proof.
  intros Hne oldLines newLines.
  unfold generateDiffLines. fold oldLines newLines.
  destruct (diffWindow oldLines newLines) as [[start stop]|] eqn:Hwin.
  2:{ apply diffWindow_none in Hwin. apply splitLines_inj in Hwin.
      contradiction. }
  destruct (diffWindow_some _ _ _ _ Hwin)
    as (first & last & Hfirst & Hlast & Hall & Hstart & Hstop).
  pose proof (differAt_bound _ _ _ Hfirst) as Hfb.
  pose proof (differAt_bound _ _ _ Hlast) as Hlb.
  pose proof (Hall _ Hfirst) as Hfl.
  set (maxLen := Nat.max (length oldLines) (length newLines)) in *.
  assert (Hmin : Nat.min stop maxLen = stop) by lia.
  rewrite Hmin.
  assert (Hwindow : Forall (fun i => (i < maxLen)%nat) (seq start (stop - start))).
  { apply Forall_forall. intros i Hi. apply elem_of_seq in Hi. lia. }
  destruct (hunk_sides oldLines newLines _ Hwindow) as [Hold Hnew].
  rewrite slice_lookup in Hold, Hnew.
  assert (Hsame : forall i, (i < start \/ stop <= i)%nat ->
                            oldLines !! i = newLines !! i).
  { intros i Hi. apply differAt_false.
    destruct (differAt oldLines newLines i) eqn:Hd; [| reflexivity].
    pose proof (Hall _ Hd). pose proof (differAt_bound _ _ _ Hd). lia. }
  assert (Hpre : take start oldLines = take start newLines).
  { apply list_eq. intros i.
    destruct (Nat.lt_ge_cases i start) as [Hlt|Hge].
    - rewrite !lookup_take_lt by exact Hlt. apply Hsame. now left.
    - rewrite !lookup_take_ge by exact Hge. reflexivity. }
  assert (Hpost : drop stop oldLines = drop stop newLines).
  { apply list_eq. intros i. rewrite !lookup_drop. apply Hsame. right. lia. }
  assert (Hsplit : forall l : list string,
             l = (take start l ++ take (stop - start) (drop start l)
                  ++ drop stop l)%list).
  { intros l. rewrite <- (take_drop start l) at 1. f_equal.
    rewrite <- (take_drop (stop - start) (drop start l)) at 1. f_equal.
    rewrite drop_drop. f_equal. lia. }
  exists first, last, start, stop,
    (flat_map (hunkLines oldLines newLines) (seq start (stop - start))).
  split; [reflexivity |].
  split; [now apply differAt_true |].
  split; [now apply differAt_true |].
  split; [intros i Hi; apply Hall; now apply differAt_true |].
  split; [exact Hstart |]. split; [exact Hstop |].
  split; [exact Hpre |]. split; [exact Hpost |].
  rewrite Hold, Hnew. split; apply Hsplit.
Qed.

Lemma generateDiff_hunk_witness :
  "x" +:+ JS.LF +:+ "a" <> "x" +:+ JS.LF +:+ "b"
  /\ generateDiff ("x" +:+ JS.LF +:+ "a") ("x" +:+ JS.LF +:+ "b") "f.txt"
     <> "  (no changes)".
Proof.
  split; [discriminate |].
  destruct (generateDiff_hunk ("x" +:+ JS.LF +:+ "a") ("x" +:+ JS.LF +:+ "b")
              "f.txt")
    as (first & last & start & stop & body & Hlines & _).
  - discriminate.
  - unfold generateDiff. rewrite Hlines. simpl. discriminate.
Defined.

End DiffFacts.

(** ** White space and numbers in a message *)

Section TrimFacts.

Lemma trimEnd_char (c : ascii) (s : string) :
  JS.isSpace c = false -> JS.trimEnd (String c s) = String c (JS.trimEnd s).
Proof.
  intros Hc. cbn [JS.trimEnd]. rewrite Hc. now destruct (JS.trimEnd s).
Qed.

Lemma trimEnd_noSpace (p s : string) :
  noSpace p = true -> JS.trimEnd (p +:+ s) = p +:+ JS.trimEnd s.
Proof.
  induction p as [|c p IH]; [reflexivity |].
  cbn [noSpace]. intros Hp. apply andb_true_iff in Hp as [Hc Hp].
  apply negb_true_iff in Hc.
  change (String c p +:+ s) with (String c (p +:+ s)).
  rewrite trimEnd_char by exact Hc. now rewrite IH.
Qed.

Lemma trimEnd_kept (a s : string) :
  JS.trimEnd s <> EmptyString -> JS.trimEnd (a +:+ s) = a +:+ JS.trimEnd s.
Proof.
  intros Hs. induction a as [|c a IH]; [reflexivity |].
  change (String c a +:+ s) with (String c (a +:+ s)).
  cbn [JS.trimEnd]. rewrite IH.
  destruct (a +:+ JS.trimEnd s) eqn:Heq.
  - destruct a; [simpl in Heq; contradiction | discriminate].
  - simpl. now rewrite Heq.
Qed.

Lemma uint_noSpace (d : Decimal.uint) :
  noSpace (NilEmpty.string_of_uint d) = true.
Proof. induction d; simpl; auto. Qed.

Lemma nilZero_noSpace (d : Decimal.uint) :
  noSpace (NilZero.string_of_uint d) = true.
Proof.
  unfold NilZero.string_of_uint.
  destruct d; try reflexivity; apply (uint_noSpace (_ _)).
Qed.

Lemma nilZero_nonEmpty (d : Decimal.uint) :
  NilZero.string_of_uint d <> EmptyString.
Proof. unfold NilZero.string_of_uint. destruct d; discriminate. Qed.

Lemma ofNat_noSpace (n : nat) : noSpace (JS.ofNat n) = true.
Proof. apply nilZero_noSpace. Qed.

Lemma ofNat_nonEmpty (n : nat) : JS.ofNat n <> EmptyString.
Proof. apply nilZero_nonEmpty. Qed.

Lemma ofZ_noSpace (z : Z) : noSpace (JS.ofZ z) = true.
Proof.
  unfold JS.ofZ, NilZero.string_of_int.
  destruct (Z.to_int z) as [d|d]; [apply nilZero_noSpace |].
  cbn [noSpace]. now rewrite nilZero_noSpace.
Qed.

Lemma ofZ_nonEmpty (z : Z) : JS.ofZ z <> EmptyString.
Proof.
  unfold JS.ofZ, NilZero.string_of_int.
  destruct (Z.to_int z) as [d|d]; [apply nilZero_nonEmpty | discriminate].
Qed.

Lemma join_app (sep : string) (l1 l2 : list string) :
  l1 <> [] -> l2 <> [] ->
  JS.join sep (l1 ++ l2) = JS.join sep l1 +:+ sep +:+ JS.join sep l2.
Proof.
  intros H1 H2. induction l1 as [|x l1 IH]; [contradiction |].
  destruct l1 as [|x' l1].
  - destruct l2; [contradiction | reflexivity].
  - change (JS.join sep ((x :: x' :: l1) ++ l2))
      with (x +:+ sep +:+ JS.join sep ((x' :: l1) ++ l2)).
    rewrite IH by discriminate.
    change (JS.join sep (x :: x' :: l1))
      with (x +:+ sep +:+ JS.join sep (x' :: l1)).
    now rewrite !append_assoc.
Qed.

End TrimFacts.

(** ** The tools that read, write and run *)

Section FileToolsFacts.
Context `{Platform} `{Host}.
Import FileTools.

Lemma resolveArg_string (projectDir : string) (v : JSVal) :
  isString v = true ->
  exists p, v = JStr p /\ resolveArg projectDir v = Ok (path_resolve projectDir p).
Proof. destruct v; try discriminate. intros _. now eexists. Qed.

Lemma resolveArg_other (projectDir : string) (v : JSVal) :
  isString v = false ->
  resolveArg projectDir v = Throw (pathTypeError v).
Proof. destruct v; try discriminate; reflexivity. Qed.

(** X3. [read_file] of a readable file returns the whole content under
    its line count when the file has at most 500 lines. For a longer file
    it returns the first 500 lines, which are a prefix of the content cut
    at a line feed, and reports the number of lines left out, so that the
    two numbers add up to the line count. The file system is as before. *)
Theorem read_file_shows_prefix (args : Args) (projectDir p content : string)
    (fs : FS) :
  prop args "path" = JStr p ->
  readFile fs (path_resolve projectDir p) = Ok content ->
  let lines := JS.splitLines content in
  exists text,
    readFileImpl args projectDir fs = (Ok text, fs)
    /\ ((length lines <= 500)%nat ->
        text = "[" +:+ JS.ofNat (length lines) +:+ " lines]" +:+ JS.LF
               +:+ content)
    /\ ((500 < length lines)%nat ->
        text = "[" +:+ JS.ofNat (length lines) +:+ " lines — showing first 500]"
               +:+ JS.LF +:+ JS.join JS.LF (take 500 lines) +:+ JS.LF +:+ JS.LF
               +:+ "... (truncated, " +:+ JS.ofNat (length lines - 500)
               +:+ " more lines)"
        /\ length (take 500 lines) = 500%nat
        /\ content = JS.join JS.LF (take 500 lines) +:+ JS.LF
                     +:+ JS.join JS.LF (drop 500 lines)).
Proof.
  intros Hpath Hread lines. unfold readFileImpl.
  rewrite Hpath. cbn [resolveArg]. rewrite Hread. fold lines.
  destruct (500 <? length lines)%nat eqn:Hlong.
  - apply Nat.ltb_lt in Hlong. eexists. split; [reflexivity |].
    split; [intros Hshort; lia |]. intros _.
    split; [reflexivity |].
    split; [rewrite length_take; lia |].
    rewrite <- join_app.
    + rewrite take_drop. unfold lines. now rewrite join_splitLines.
    + intros Hnil. apply (f_equal length) in Hnil.
      rewrite length_take in Hnil. cbn [length] in Hnil. lia.
    + intros Hnil. apply (f_equal length) in Hnil.
      rewrite length_drop in Hnil. cbn [length] in Hnil. lia.
  - apply Nat.ltb_ge in Hlong. eexists. split; [reflexivity |].
    split; [reflexivity |]. intros Hmore. lia.
Qed.

(** After a file was opened for writing and written, its path holds a
    file with the text. *)
Lemma createFile_lookup (fs fs' : FS) (p text : string) :
  createFile fs p text = Ok fs' ->
  exists f, fs' !! p = Some (NFile f) /\ f_content f = text.
Proof.
  unfold createFile, writeFile.
  destruct (fs !! p) as [[f|listing]|] eqn:Hp; try discriminate.
  - destruct (f_writable f); [| discriminate].
    intros [= <-]. rewrite lookup_insert_eq. now eexists.
  - intros [= <-]. unfold addEntry.
    match goal with
    | |- context [<[p := ?node]> fs !! path_dirname p] =>
        destruct (<[p := node]> fs !! path_dirname p)
          as [[g|[entries|msg]]|] eqn:Hdir
    end; try (rewrite lookup_insert_eq; now eexists).
    destruct (decide (path_dirname p = p)) as [Heq|Hne].
    + rewrite Heq, lookup_insert_eq in Hdir. discriminate.
    + rewrite lookup_insert_ne by exact Hne.
      rewrite lookup_insert_eq. now eexists.
Qed.

(** The chunks of an array of strings are the strings. *)
Lemma chunksText_strings (parts : list string) :
  chunksText (map JStr parts) = (JS.join EmptyString parts, None).
Proof.
  induction parts as [|part rest IH]; [reflexivity |].
  cbn [map chunksText chunkText]. rewrite IH.
  destruct rest as [|part' rest]; [cbn; now rewrite append_empty_r |].
  reflexivity.
Qed.

(** X4. When [write_file] does not answer with an error text, the
    content was a string, or an array whose elements could all be
    written, and the resolved path now holds a file with that text (for
    an array of strings, the strings one after the other); a [read_file]
    with the same path then returns it under its line count, when the
    file can be read and has at most 500 lines. *)
Theorem write_file_then_read (args : Args) (projectDir p r : string)
    (fs fs' : FS) :
  prop args "path" = JStr p ->
  writeFileImpl args projectDir fs = (Ok r, fs') ->
  JS.startsWith r "Error" = false ->
  exists text f,
    (prop args "content" = JStr text
     \/ exists chunks,
          prop args "content" = JArr chunks
          /\ chunksText chunks = (text, None))
    /\ (forall parts, prop args "content" = JArr (map JStr parts) ->
                      text = JS.join EmptyString parts)
    /\ r = "File written successfully: " +:+ path_resolve projectDir p
    /\ fs' !! path_resolve projectDir p = Some (NFile f)
    /\ f_content f = text
    /\ (f_readable f = true -> (length (JS.splitLines text) <= 500)%nat ->
        readFileImpl args projectDir fs'
        = (Ok ("[" +:+ JS.ofNat (length (JS.splitLines text)) +:+ " lines]"
               +:+ JS.LF +:+ text), fs')).
Proof.
  intros Hpath Hwrite Hok. unfold writeFileImpl in Hwrite.
  rewrite Hpath in Hwrite. cbn [resolveArg] in Hwrite.
  set (filePath := path_resolve projectDir p) in *.
  destruct (mkdir (path_dirname filePath) fs) as [[[]|msg] fs1].
  2:{ injection Hwrite as <- <-. simpl in Hok. discriminate. }
  assert (Hdone : forall text fs2,
    createFile fs1 filePath text = Ok fs2 ->
    exists f,
      fs2 !! filePath = Some (NFile f) /\ f_content f = text
      /\ (f_readable f = true -> (length (JS.splitLines text) <= 500)%nat ->
          readFileImpl args projectDir fs2
          = (Ok ("[" +:+ JS.ofNat (length (JS.splitLines text)) +:+ " lines]"
                 +:+ JS.LF +:+ text), fs2))).
  { intros text fs2 Hcreate.
    destruct (createFile_lookup _ _ _ _ Hcreate) as (f & Hlookup & Hf).
    exists f. split; [exact Hlookup |]. split; [exact Hf |].
    intros Hreadable Hshort. unfold readFileImpl.
    rewrite Hpath. cbn [resolveArg]. fold filePath.
    unfold readFile. rewrite Hlookup, Hreadable, Hf.
    apply Nat.ltb_ge in Hshort. now rewrite Hshort. }
  destruct (prop args "content") as [| |b|z|text| |chunks] eqn:Hcontent;
    try (injection Hwrite as <- <-; simpl in Hok; discriminate).
  - destruct (createFile fs1 filePath text) as [fs2|msg] eqn:Hcreate.
    2:{ injection Hwrite as <- <-. simpl in Hok. discriminate. }
    injection Hwrite as <- <-.
    destruct (Hdone _ _ Hcreate) as (f & Hlookup & Hf & Hread).
    exists text, f. split; [now left |]. split; [discriminate |].
    now repeat split.
  - destruct (chunksText chunks) as [text failure] eqn:Hchunks.
    destruct (createFile fs1 filePath text) as [fs2|msg] eqn:Hcreate.
    2:{ injection Hwrite as <- <-. simpl in Hok. discriminate. }
    destruct failure as [msg|].
    { injection Hwrite as <- <-. simpl in Hok. discriminate. }
    injection Hwrite as <- <-.
    destruct (Hdone _ _ Hcreate) as (f & Hlookup & Hf & Hread).
    exists text, f. split; [right; now exists chunks |].
    split.
    { intros parts [= ->]. rewrite chunksText_strings in Hchunks.
      now injection Hchunks as <-. }
    now repeat split.
Qed.

(** X5. An [edit_file] that fails, by an error thrown or by an error
    text, leaves the file system as it was; one that succeeds changes
    nothing but the file at the resolved path. *)
Theorem edit_file_failure_keeps_files (args : Args) (projectDir : string)
    (fs : FS) :
  let outcome := Tools.editFileImpl args projectDir fs in
  (failed (fst outcome) = true -> snd outcome = fs)
  /\ (failed (fst outcome) = false ->
      exists p,
        prop args "path" = JStr p
        /\ fst outcome
           = Ok ("File edited successfully: " +:+ path_resolve projectDir p)
        /\ forall q, q <> path_resolve projectDir p ->
                     snd outcome !! q = fs !! q).
Proof.
  unfold Tools.editFileImpl.
  destruct (prop args "path") as [| |b|z|p| |items] eqn:Hpath;
    try (cbn [resolveArg fst snd failed]; split; [reflexivity | discriminate]).
  cbn [resolveArg]. set (filePath := path_resolve projectDir p).
  destruct (readFile fs filePath) as [content|msg];
    [| cbn; split; [reflexivity | discriminate]].
  destruct (negb (JS.includes content (toStr (prop args "target"))));
    [cbn; split; [reflexivity | discriminate] |].
  destruct (writeFile fs filePath _) as [fs'|msg] eqn:Hw;
    [| cbn; split; [reflexivity | discriminate]].
  cbn. split; [discriminate |]. intros _. exists p.
  split; [reflexivity |]. split; [reflexivity |].
  intros q Hq. unfold writeFile in Hw.
  destruct (fs !! filePath) as [[f|listing]|]; try discriminate.
  - destruct (f_writable f); [| discriminate].
    injection Hw as <-. now rewrite lookup_insert_ne.
  - injection Hw as <-. now rewrite lookup_insert_ne.
Qed.

(** The text of a failed command: the exit code, then what the command
    printed without the white space at its end. *)
Lemma failureText_eq (status : option Z) (stdout stderr : string) :
  failureText status stdout stderr
  = "Command exited with code " +:+ JS.ofZ (exitCode status)
    +:+ JS.trimEnd (JS.LF +:+ stdout +:+ JS.LF +:+ stderr).
Proof.
  unfold failureText, JS.trim.
  change (JS.trimStart ("Command exited with code " +:+ ?s))
    with ("Command exited with code " +:+ s).
  assert (Hcode : JS.trimEnd (JS.ofZ (exitCode status) +:+ JS.LF +:+ stdout
                              +:+ JS.LF +:+ stderr)
                  = JS.ofZ (exitCode status)
                    +:+ JS.trimEnd (JS.LF +:+ stdout +:+ JS.LF +:+ stderr))
    by apply trimEnd_noSpace, ofZ_noSpace.
  rewrite trimEnd_kept; rewrite Hcode; [reflexivity |].
  apply append_nonEmpty_l, ofZ_nonEmpty.
Qed.

Lemma exitCode_nonzero (status : option Z) : exitCode status <> 0%Z.
Proof.
  destruct status as [z|]; simpl; [| discriminate].
  destruct (z =? 0)%Z eqn:Hz; [discriminate |]. now apply Z.eqb_neq.
Qed.

Lemma failureText_nonEmpty (status : option Z) (stdout stderr : string) :
  failureText status stdout stderr <> EmptyString.
Proof. rewrite failureText_eq. discriminate. Qed.

Lemma runCommandImpl_nonEmpty (args : Args) (projectDir : string) (fs : FS) :
  exists text fs',
    runCommandImpl args projectDir fs = (Ok text, fs')
    /\ text <> EmptyString.
Proof.
  unfold runCommandImpl.
  destruct (prop args "command");
    try (eexists _, _; split; [reflexivity | apply failureText_nonEmpty]).
  destruct (execSync _ _ _) as [[output|status stdout stderr] fs'].
  - eexists _, _. split; [reflexivity |].
    destruct (JS.nonEmpty output) eqn:Hout; [| discriminate].
    now apply nonEmpty_true.
  - eexists _, _. split; [reflexivity | apply failureText_nonEmpty].
Qed.

(** X6. [run_command] never throws and never returns an empty text. The
    output of a command that succeeds is returned as it is, or a fixed
    text in its place when it is empty. A command that fails is reported
    by [Command exited with code] and a code that is never 0, followed by
    what it printed; a call without a command string runs nothing and is
    reported as a command that exited with code 1. *)
Theorem run_command_reports (args : Args) (projectDir : string) (fs : FS) :
  exists text fs',
    runCommandImpl args projectDir fs = (Ok text, fs')
    /\ text <> EmptyString
    /\ (forall command,
          prop args "command" = JStr command ->
          match execSync command projectDir fs with
          | (Completed output, fs1) =>
              fs' = fs1
              /\ (output <> EmptyString -> text = output)
              /\ (output = EmptyString ->
                  text = "(command completed with no output)")
          | (Failed status stdout stderr, fs1) =>
              fs' = fs1
              /\ exitCode status <> 0%Z
              /\ text = "Command exited with code "
                        +:+ JS.ofZ (exitCode status)
                        +:+ JS.trimEnd (JS.LF +:+ stdout +:+ JS.LF +:+ stderr)
          end)
    /\ (isString (prop args "command") = false ->
        text = "Command exited with code 1" /\ fs' = fs).
Proof.
  destruct (runCommandImpl_nonEmpty args projectDir fs)
    as (text & fs' & Hrun & Hne).
  exists text, fs'. split; [exact Hrun |]. split; [exact Hne |].
  unfold runCommandImpl in Hrun. split.
  - intros command Hcommand. rewrite Hcommand in Hrun.
    destruct (execSync command projectDir fs)
      as [[output|status stdout stderr] fs1]; injection Hrun as <- <-.
    + split; [reflexivity |]. split.
      * intros Hout. apply nonEmpty_true in Hout. now rewrite Hout.
      * now intros ->.
    + split; [reflexivity |]. split; [apply exitCode_nonzero |].
      apply failureText_eq.
  - intros Hnot. destruct (prop args "command"); try discriminate;
      injection Hrun as <- <-; now split.
Qed.

(** The listing of the project directory that [get_project_info] asks
    for never throws. *)
Lemma listDirectoryImpl_dot (args : Args) (projectDir : string) (fs : FS) :
  prop args "path" = JStr "." ->
  exists tree, Tools.listDirectoryImpl args projectDir fs = Ok tree
               /\ tree <> EmptyString.
Proof.
  intros Hpath. unfold Tools.listDirectoryImpl, Tools.listDirectoryLines.
  rewrite Hpath. cbn [truthy JS.nonEmpty String.eqb negb resolveArg bindExc].
  match goal with
  | |- context [JS.nonEmpty ?t] => destruct (JS.nonEmpty t) eqn:Htext
  end.
  - eexists. split; [reflexivity |]. now apply nonEmpty_true.
  - eexists. split; [reflexivity | discriminate].
Qed.

Lemma getProjectInfoImpl_nonEmpty (args : Args) (projectDir : string) (fs : FS) :
  exists text fs',
    getProjectInfoImpl args projectDir fs = (Ok text, fs')
    /\ text <> EmptyString.
Proof.
  unfold getProjectInfoImpl.
  destruct (listDirectoryImpl_dot
              {[ "path" := JStr "."; "recursive" := JBool true ]} projectDir fs)
    as (tree & -> & _); [reflexivity |].
  destruct (gitSection projectDir fs) as [git fs'].
  eexists _, _. split; [reflexivity |].
  apply join_nonEmpty. discriminate.
Qed.

End FileToolsFacts.

(** ** The executor over all the tools *)

Section ExecutorFacts.
Context `{Platform} `{Host}.
Import FileTools.

(** The dispatch on the name, one case per tool. *)
Lemma executeTool_cases (name : string) (args : Args) (projectDir : string)
    (fs : FS) :
  (name = "read_file"
   /\ executeTool name args projectDir fs = readFileImpl args projectDir fs)
  \/ (name = "write_file"
      /\ executeTool name args projectDir fs = writeFileImpl args projectDir fs)
  \/ (name = "edit_file"
      /\ executeTool name args projectDir fs
         = Tools.editFileImpl args projectDir fs)
  \/ (name = "list_directory"
      /\ executeTool name args projectDir fs
         = (Tools.listDirectoryImpl args projectDir fs, fs))
  \/ (name = "search_files"
      /\ executeTool name args projectDir fs
         = (Tools.searchFilesImpl args projectDir fs, fs))
  \/ (name = "run_command"
      /\ executeTool name args projectDir fs = runCommandImpl args projectDir fs)
  \/ (name = "get_project_info"
      /\ executeTool name args projectDir fs
         = getProjectInfoImpl args projectDir fs)
  \/ ((name <> "read_file" /\ name <> "write_file" /\ name <> "edit_file"
       /\ name <> "list_directory" /\ name <> "search_files")
      /\ executeTool name args projectDir fs
         = (Ok ("Unknown tool: " +:+ name), fs)).
Proof.
  unfold executeTool, Tools.executeTool.
  destruct (String.eqb name "read_file") eqn:E1;
    [apply String.eqb_eq in E1; subst; now left | right].
  destruct (String.eqb name "write_file") eqn:E2;
    [apply String.eqb_eq in E2; subst; now left | right].
  destruct (String.eqb name "edit_file") eqn:E3;
    [apply String.eqb_eq in E3; subst; now left | right].
  destruct (String.eqb name "list_directory") eqn:E4;
    [apply String.eqb_eq in E4; subst; now left | right].
  destruct (String.eqb name "search_files") eqn:E5;
    [apply String.eqb_eq in E5; subst; now left | right].
  destruct (String.eqb name "run_command") eqn:E6;
    [apply String.eqb_eq in E6; subst; now left | right].
  destruct (String.eqb name "get_project_info") eqn:E7;
    [apply String.eqb_eq in E7; subst; now left | right].
  apply String.eqb_neq in E1, E2, E3, E4, E5. now repeat split.
Qed.

(** What each tool does with its [path]. *)
Lemma readFileImpl_outcome (args : Args) (projectDir : string) (fs : FS) :
  if isString (prop args "path")
  then exists text, readFileImpl args projectDir fs = (Ok text, fs)
                    /\ text <> EmptyString
  else readFileImpl args projectDir fs
       = (Throw (pathTypeError (prop args "path")), fs).
Proof.
  unfold readFileImpl.
  destruct (prop args "path") as [| |b|z|p| |items]; try reflexivity.
  cbn [isString resolveArg].
  destruct (readFile fs _) as [content|msg];
    [| eexists; split; [reflexivity | discriminate]].
  destruct (500 <? _)%nat; eexists; (split; [reflexivity | discriminate]).
Qed.

Lemma writeFileImpl_outcome (args : Args) (projectDir : string) (fs : FS) :
  if isString (prop args "path")
  then exists text fs', writeFileImpl args projectDir fs = (Ok text, fs')
                        /\ text <> EmptyString
  else writeFileImpl args projectDir fs
       = (Throw (pathTypeError (prop args "path")), fs).
Proof.
  unfold writeFileImpl.
  destruct (prop args "path") as [| |b|z|p| |items]; try reflexivity.
  cbn [isString resolveArg].
  destruct (mkdir _ fs) as [[[]|msg] fs1];
    [| eexists _, _; split; [reflexivity | discriminate]].
  destruct (prop args "content") as [| |b|z|text| |chunks];
    try (eexists _, _; split; [reflexivity | discriminate]).
  - destruct (createFile fs1 _ _);
      eexists _, _; (split; [reflexivity | discriminate]).
  - destruct (chunksText chunks) as [text failure].
    destruct (createFile fs1 _ _); [destruct failure |];
      eexists _, _; (split; [reflexivity | discriminate]).
Qed.

Lemma editFileImpl_outcome (args : Args) (projectDir : string) (fs : FS) :
  if isString (prop args "path")
  then exists text fs', Tools.editFileImpl args projectDir fs = (Ok text, fs')
                        /\ text <> EmptyString
  else Tools.editFileImpl args projectDir fs
       = (Throw (pathTypeError (prop args "path")), fs).
Proof.
  unfold Tools.editFileImpl.
  destruct (prop args "path") as [| |b|z|p| |items] eqn:Hpath; try reflexivity.
  cbn [isString resolveArg].
  destruct (readFile fs _) as [content|msg];
    [| eexists _, _; split; [reflexivity | discriminate]].
  destruct (negb _);
    [eexists _, _; split; [reflexivity | discriminate] |].
  destruct (writeFile fs _ _);
    eexists _, _; (split; [reflexivity | discriminate]).
Qed.

(** [args.path || '.'] is a string unless [args.path] is truthy and not
    a string. *)
Lemma dirArg_cases (v : JSVal) :
  let dirArg := if truthy v then v else JStr "." in
  if negb (isString v) && truthy v
  then dirArg = v /\ isString v = false
  else isString dirArg = true.
Proof.
  destruct v as [| |[]|z|s| |items]; cbn; auto.
  - destruct (negb (z =? 0)%Z); cbn; auto.
  - now destruct (JS.nonEmpty s).
Qed.

Lemma listDirectoryImpl_outcome (args : Args) (projectDir : string) (fs : FS) :
  if negb (isString (prop args "path")) && truthy (prop args "path")
  then Tools.listDirectoryImpl args projectDir fs
       = Throw (pathTypeError (prop args "path"))
  else exists text, Tools.listDirectoryImpl args projectDir fs = Ok text
                    /\ text <> EmptyString.
Proof.
  pose proof (dirArg_cases (prop args "path")) as Hdir. cbv zeta in Hdir.
  unfold Tools.listDirectoryImpl, Tools.listDirectoryLines.
  destruct (negb _ && truthy _).
  - destruct Hdir as [-> Hnot]. now rewrite resolveArg_other.
  - destruct (resolveArg_string projectDir _ Hdir) as (p & _ & ->).
    cbn [bindExc].
    match goal with
    | |- context [JS.nonEmpty ?t] => destruct (JS.nonEmpty t) eqn:Htext
    end.
    + eexists. split; [reflexivity |]. now apply nonEmpty_true.
    + eexists. split; [reflexivity | discriminate].
Qed.

Lemma searchFilesImpl_outcome (args : Args) (projectDir : string) (fs : FS) :
  if negb (isString (prop args "path")) && truthy (prop args "path")
  then Tools.searchFilesImpl args projectDir fs
       = Throw (pathTypeError (prop args "path"))
  else exists text, Tools.searchFilesImpl args projectDir fs = Ok text
                    /\ text <> EmptyString.
Proof.
  pose proof (dirArg_cases (prop args "path")) as Hdir. cbv zeta in Hdir.
  unfold Tools.searchFilesImpl, Tools.searchFilesWalk.
  destruct (negb _ && truthy _).
  - destruct Hdir as [-> Hnot]. now rewrite resolveArg_other.
  - destruct (resolveArg_string projectDir _ Hdir) as (p & _ & ->).
    cbn [bindExc]. eexists. split; [reflexivity |].
    apply searchReport_nonEmpty.
    apply (walkDir_inv fs args projectDir).
    repeat split; cbn; try lia; try discriminate. constructor.
Qed.

(** X7. [executeTool] throws in one case only: the [path] is not a
    string, and the tool is [read_file], [write_file] or [edit_file], or
    it is [list_directory] or [search_files] and the [path] is truthy.
    The error is the TypeError of [path.resolve], and the file system is
    as before. In every other case, an unknown name included, a text
    comes back, and it is never empty. *)
Theorem executeTool_throws_on_path_only (name : string) (args : Args)
    (projectDir : string) (fs : FS) :
  if throwsOnPath name (prop args "path")
  then executeTool name args projectDir fs
       = (Throw (pathTypeError (prop args "path")), fs)
  else exists text fs',
         executeTool name args projectDir fs = (Ok text, fs')
         /\ text <> EmptyString.
Proof.
  unfold throwsOnPath.
  destruct (executeTool_cases name args projectDir fs)
    as [[-> ->]|[[-> ->]|[[-> ->]|[[-> ->]|[[-> ->]|[[-> ->]|[[-> ->]
        |[(N1 & N2 & N3 & N4 & N5) ->]]]]]]]].
  - pose proof (readFileImpl_outcome args projectDir fs) as Hout.
    destruct (isString _); cbn in *; [| exact Hout].
    destruct Hout as (text & -> & Hne). now eexists _, _.
  - pose proof (writeFileImpl_outcome args projectDir fs) as Hout.
    destruct (isString _); cbn in *; exact Hout.
  - pose proof (editFileImpl_outcome args projectDir fs) as Hout.
    destruct (isString _); cbn in *; exact Hout.
  - pose proof (listDirectoryImpl_outcome args projectDir fs) as Hout.
    cbn [String.eqb Ascii.eqb Bool.eqb orb andb].
    destruct (isString _), (truthy _); cbn in *;
      try (destruct Hout as (text & -> & Hne); now eexists _, _).
    now rewrite Hout.
  - pose proof (searchFilesImpl_outcome args projectDir fs) as Hout.
    cbn [String.eqb Ascii.eqb Bool.eqb orb andb].
    destruct (isString _), (truthy _); cbn in *;
      try (destruct Hout as (text & -> & Hne); now eexists _, _).
    now rewrite Hout.
  - cbn [String.eqb Ascii.eqb Bool.eqb orb andb]. rewrite andb_false_r.
    apply runCommandImpl_nonEmpty.
  - cbn [String.eqb Ascii.eqb Bool.eqb orb andb]. rewrite andb_false_r.
    apply getProjectInfoImpl_nonEmpty.
  - apply String.eqb_neq in N1, N2, N3, N4, N5.
    rewrite N1, N2, N3, N4, N5. cbn [orb andb]. rewrite andb_false_r.
    eexists _, _. split; [reflexivity | discriminate].
Qed.

End ExecutorFacts.

Section FileToolsRuns.
Import FileTools.

Lemma read_file_shows_prefix_witness :
  readFileImpl {[ "path" := JStr "f.txt" ]} "/p" editSampleFS
  = (Ok ("[1 lines]" +:+ JS.LF +:+ "aa"), editSampleFS).
Proof.
  destruct (read_file_shows_prefix {[ "path" := JStr "f.txt" ]} "/p" "f.txt"
              "aa" editSampleFS)
    as (text & Hrun & Hshort & _).
  - vm_compute. reflexivity.
  - vm_compute. reflexivity.
  - rewrite Hrun, Hshort; [reflexivity |]. vm_compute. lia.
Defined.

Lemma write_file_then_read_witness :
  let args : Args := {[ "path" := JStr "new.txt"; "content" := JStr "hello" ]} in
  exists files,
    writeFileImpl args "/p" editSampleFS
    = (Ok "File written successfully: /p/new.txt", files)
    /\ fst (readFileImpl args "/p" files)
       = Ok ("[1 lines]" +:+ JS.LF +:+ "hello").
Proof.
  intros args.
  assert (Hwrite : writeFileImpl args "/p" editSampleFS
                   = (Ok "File written successfully: /p/new.txt",
                      <["/p/new.txt" := textFile "hello"]> editSampleFS))
    by (vm_compute; reflexivity).
  eexists. split; [exact Hwrite |].
  destruct (write_file_then_read args "/p" "new.txt" _ _ _ eq_refl Hwrite
              eq_refl)
    as (text & f & _ & _ & _ & Hlookup & Hf & Hread).
  rewrite lookup_insert_eq in Hlookup. injection Hlookup as <-.
  cbn [f_content textFile] in Hf. subst text.
  rewrite Hread; [reflexivity | reflexivity |].
  vm_compute. lia.
Defined.

Lemma edit_file_failure_keeps_files_witness :
  snd (Tools.editFileImpl {[ "path" := JStr "missing.txt" ]} "/p" editSampleFS)
  = editSampleFS.
Proof.
  apply (proj1 (edit_file_failure_keeps_files
                  {[ "path" := JStr "missing.txt" ]} "/p" editSampleFS)).
  vm_compute. reflexivity.
Defined.

Lemma run_command_reports_witness :
  fst (runCommandImpl ∅ "/p" editSampleFS) = Ok "Command exited with code 1".
Proof.
  destruct (run_command_reports ∅ "/p" editSampleFS)
    as (text & files & Hrun & _ & _ & Hnone).
  rewrite Hrun. destruct Hnone as [-> _]; reflexivity.
Defined.

(** Content that is an array of strings is written piece after piece:
    the file holds the pieces joined, and its directory lists it. When a
    piece is no string the error is reported and the pieces before it
    stay written. *)
Example write_file_array_content :
  let dir : FS :=
    {[ "/p" := NDir (Ok [ {| d_name := "f.txt"; isDirectory := false |} ]);
       "/p/f.txt" := textFile "aa" ]} in
  let pieces : Args :=
    {[ "path" := JStr "new.txt"; "content" := JArr [JStr "he"; JStr "llo"] ]} in
  let broken : Args :=
    {[ "path" := JStr "new.txt"; "content" := JArr [JStr "he"; JNum 1] ]} in
  fst (writeFileImpl pieces "/p" dir) = Ok "File written successfully: /p/new.txt"
  /\ readFile (snd (writeFileImpl pieces "/p" dir)) "/p/new.txt" = Ok "hello"
  /\ readdir (snd (writeFileImpl pieces "/p" dir)) "/p"
     = Ok [ {| d_name := "f.txt"; isDirectory := false |};
            {| d_name := "new.txt"; isDirectory := false |} ]
  /\ JS.startsWith
       (match fst (writeFileImpl broken "/p" dir) with
        | Ok text => text
        | Throw msg => msg
        end) "Error writing file: " = true
  /\ readFile (snd (writeFileImpl broken "/p" dir)) "/p/new.txt" = Ok "he".
Proof. vm_compute. repeat split; reflexivity. Qed.

(** A command the shell does not know. *)
Example run_command_not_found :
  fst (runCommandImpl {[ "command" := JStr "npm" ]} "/p" editSampleFS)
  = Ok ("Command exited with code 127" +:+ JS.LF +:+ JS.LF
        +:+ "/bin/sh: 1: npm: not found").
Proof. vm_compute. reflexivity. Qed.

(** A call of [read_file] without a path. *)
Example read_file_without_path :
  executeTool "read_file" ∅ "/p" editSampleFS
  = (Throw ("The " +:+ dquote +:+ "paths[1]" +:+ dquote
            +:+ " argument must be of type string. Received undefined"),
     editSampleFS).
Proof. reflexivity. Qed.

End FileToolsRuns.

(** ** The response normalizer *)

Section NormalizerFacts.
Context `{JSON}.
Import Agent.

(** A normalized call and the request it comes from. *)
Lemma fromFunctionCalls_spec (tcs : list FunctionCall) :
  match fromFunctionCalls tcs with
  | Ok calls =>
      Forall2 (fun c req => tc_id c = fst req
                            /\ parsePayload (snd req) = Ok (tc_args c))
              calls (map (fun c => (fc_id c, fc_arguments c)) tcs)
  | Throw msg =>
      exists before req after,
        map (fun c => (fc_id c, fc_arguments c)) tcs
        = (before ++ req :: after)%list
        /\ Forall (fun r => exists a, parsePayload (snd r) = Ok a) before
        /\ parsePayload (snd req) = Throw msg
  end.
Proof.
  induction tcs as [|tc rest IH]; [constructor |].
  cbn [fromFunctionCalls map].
  destruct (parsePayload (fc_arguments tc)) as [a|msg] eqn:Hparse; cbn [bindExc].
  - destruct (fromFunctionCalls rest) as [calls|msg]; cbn [bindExc].
    + constructor; [now split | exact IH].
    + destruct IH as (before & req & after & Heq & Hbefore & Hreq).
      exists ((fc_id tc, fc_arguments tc) :: before), req, after.
      split; [now rewrite Heq |]. split; [| exact Hreq].
      constructor; [now exists a | exact Hbefore].
  - exists [], (fc_id tc, fc_arguments tc),
      (map (fun c => (fc_id c, fc_arguments c)) rest).
    split; [reflexivity |]. split; [constructor | exact Hparse].
Qed.

Lemma fromBlocks_spec (bs : list Block) :
  match fromBlocks bs with
  | Ok calls =>
      Forall2 (fun c req => tc_id c = fst req
                            /\ parsePayload (snd req) = Ok (tc_args c))
              calls (toolUses bs)
  | Throw msg =>
      exists before req after,
        toolUses bs = (before ++ req :: after)%list
        /\ Forall (fun r => exists a, parsePayload (snd r) = Ok a) before
        /\ parsePayload (snd req) = Throw msg
  end.
Proof.
  induction bs as [|b rest IH]; [constructor |].
  destruct b as [text|id name input|]; cbn [fromBlocks toolUses];
    try exact IH.
  destruct (parsePayload input) as [a|msg] eqn:Hparse; cbn [bindExc].
  - destruct (fromBlocks rest) as [calls|msg]; cbn [bindExc].
    + constructor; [now split | exact IH].
    + destruct IH as (before & req & after & Heq & Hbefore & Hreq).
      exists ((id, input) :: before), req, after.
      split; [now rewrite Heq |]. split; [| exact Hreq].
      constructor; [now exists a | exact Hbefore].
  - exists [], (id, input), (toolUses rest).
    split; [reflexivity |]. split; [constructor | exact Hparse].
Qed.

Lemma normalizeToolCalls_spec (m : Message) :
  match normalizeToolCalls m with
  | Ok calls =>
      Forall2 (fun c req => tc_id c = fst req
                            /\ parsePayload (snd req) = Ok (tc_args c))
              calls (requested m)
  | Throw msg =>
      exists before req after,
        requested m = (before ++ req :: after)%list
        /\ Forall (fun r => exists a, parsePayload (snd r) = Ok a) before
        /\ parsePayload (snd req) = Throw msg
  end.
Proof.
  unfold normalizeToolCalls, requested.
  destruct (tool_calls m) as [[|tc rest]|].
  - destruct (content m); try constructor. apply fromBlocks_spec.
  - apply (fromFunctionCalls_spec (tc :: rest)).
  - destruct (content m); try constructor. apply fromBlocks_spec.
Qed.

(** X8. [normalizeToolCalls] gives all the calls of a reply or none. When
    it returns, there is one call for each call the reply asks for, in
    the same order, with the id of the request and its payload parsed as
    arguments. When it throws, the error is that of the first payload
    that does not parse, and no call is returned, not even those before
    it. *)
Theorem normalizeToolCalls_all_or_nothing (m : Message) :
  match normalizeToolCalls m with
  | Ok calls =>
      length calls = length (requested m)
      /\ map tc_id calls = (requested m).*1
      /\ Forall2 (fun c req => parsePayload (snd req) = Ok (tc_args c))
                 calls (requested m)
  | Throw msg =>
      exists before req after,
        requested m = (before ++ req :: after)%list
        /\ Forall (fun r => exists a, parsePayload (snd r) = Ok a) before
        /\ parsePayload (snd req) = Throw msg
  end.
Proof.
  pose proof (normalizeToolCalls_spec m) as Hspec.
  destruct (normalizeToolCalls m) as [calls|msg]; [| exact Hspec].
  split; [exact (Forall2_length _ _ _ Hspec) |].
  split.
  - induction Hspec as [|c req calls' reqs [Hid _] _ IH]; [reflexivity |].
    cbn. now rewrite Hid, IH.
  - eapply Forall2_impl; [exact Hspec |]. now intros c req [_ Hparse].
Qed.

Lemma normalizeToolCalls_ids (m : Message) (calls : list ToolCall) :
  normalizeToolCalls m = Ok calls -> map tc_id calls = (requested m).*1.
Proof.
  intros Hcalls. pose proof (normalizeToolCalls_spec m) as Hspec.
  rewrite Hcalls in Hspec. clear Hcalls.
  induction Hspec as [|c req calls' reqs [Hid _] _ IH]; [reflexivity |].
  cbn. now rewrite Hid, IH.
Qed.

(** The assistant turn pushed declares the ids of the calls handled,
    unless the reply holds an empty [tool_calls] next to its blocks. *)
Lemma normalizeAssistantMessage_ids (m : Message) (calls : list ToolCall) :
  normalizeToolCalls m = Ok calls ->
  tool_calls m <> Some [] ->
  issuedIds (normalizeAssistantMessage m calls) = map tc_id calls.
Proof.
  intros Hcalls Hnonempty.
  rewrite (normalizeToolCalls_ids m calls Hcalls).
  unfold normalizeAssistantMessage, requested, issuedIds.
  destruct (tool_calls m) as [[|tc rest]|] eqn:Htcs; [contradiction | |].
  - rewrite Htcs. rewrite <- list_fmap_compose. reflexivity.
  - pose proof (normalizeToolCalls_ids m calls Hcalls) as Hids.
    unfold requested in Hids. rewrite Htcs in Hids. rewrite <- Hids.
    destruct (0 <? length calls)%nat eqn:Hlen.
    + rewrite <- list_fmap_compose. reflexivity.
    + destruct calls; [| discriminate].
      destruct (content m); try reflexivity; now rewrite Htcs.
Qed.

Lemma normalizeAssistantMessage_reply (m : Message) (calls : list ToolCall) :
  isReply (normalizeAssistantMessage m calls) = true.
Proof.
  unfold normalizeAssistantMessage.
  destruct (tool_calls m); [reflexivity |].
  destruct (0 <? length calls)%nat; [reflexivity |].
  now destruct (content m).
Qed.

End NormalizerFacts.

(** ** The history the loop builds *)

Section HistoryFacts.
Context `{Platform} `{JSON}.
Import Agent.

Variable executeTool : string -> Args -> string -> FS -> Exc string * FS.
Variable chat : nat -> list Turn -> Exc Response.
Variable answers : nat -> string.
Variable globalRl : bool.
Variable projectDir : string.
Variable autoApprove : bool.

(** The tool turns of a dispatch: one per call, with its id, after what
    was there. *)
Lemma dispatch_turns (calls : list ToolCall) :
  forall messages st,
  exists toolTurns,
    fst (dispatch executeTool answers globalRl projectDir autoApprove
           calls messages st) = (messages ++ toolTurns)%list
    /\ Forall2 (fun t tc => exists text, t = TTool (tc_id tc) text)
               toolTurns calls.
Proof.
  induction calls as [|tc rest IH]; intros messages st.
  - exists []. split; [symmetry; apply app_nil_r | constructor].
  - cbn [dispatch].
    destruct (handleToolCall _ _ _ _ _ tc st) as [result st'].
    destruct (IH (messages ++ [TTool (tc_id tc) result])%list st')
      as (toolTurns & Heq & Hturns).
    exists (TTool (tc_id tc) result :: toolTurns).
    split; [now rewrite Heq, <- app_assoc |].
    constructor; [now exists result | exact Hturns].
Qed.

Lemma toolTurns_reply (toolTurns : list Turn) (calls : list ToolCall) :
  Forall2 (fun t tc => exists text, t = TTool (tc_id tc) text) toolTurns calls ->
  Forall (fun t => isReply t = true) toolTurns.
Proof.
  induction 1 as [|t tc ts tcs [text ->] _ IH]; constructor; auto.
Qed.


(** What a pass adds to the history. *)
Lemma iteration_appends (messages : list Turn) (st : St) :
  exists added,
    snd (fst (iteration executeTool chat answers globalRl projectDir
                autoApprove messages st)) = (messages ++ added)%list
    /\ Forall (fun t => isReply t = true) added.
Proof.
  unfold iteration, onError.
  destruct (chat (chats st) messages) as [response|msg].
  2:{ exists []. split; [| constructor].
      destruct (_ && _); cbn; now rewrite app_nil_r. }
  destruct (normalizeToolCalls (message response)) as [calls|msg].
  2:{ exists []. split; [| constructor].
      destruct (_ && _); cbn; now rewrite app_nil_r. }
  set (assistant := normalizeAssistantMessage (message response) calls).
  assert (Hreply : isReply assistant = true)
    by apply normalizeAssistantMessage_reply.
  destruct (0 <? length calls)%nat.
  - match goal with
    | |- context [dispatch _ _ _ _ _ calls ?ms ?s] =>
        destruct (dispatch_turns calls ms s) as (toolTurns & Heq & Hturns);
        destruct (dispatch executeTool answers globalRl projectDir
                    autoApprove calls ms s) as [messages2 st3]
    end.
    cbn [fst snd] in *. subst messages2. exists (assistant :: toolTurns).
    split; [now rewrite <- app_assoc |].
    constructor; [exact Hreply | now apply (toolTurns_reply _ calls)].
  - exists [assistant]. split; [reflexivity |]. now constructor.
Qed.

Lemma agentWhile_appends (maxIterations fuel : nat) :
  forall iterations messages st,
  exists added,
    snd (fst (agentWhile executeTool chat answers globalRl projectDir
                autoApprove fuel maxIterations iterations messages st))
    = (messages ++ added)%list
    /\ Forall (fun t => isReply t = true) added.
Proof.
  induction fuel as [|fuel IH]; intros iterations messages st.
  - exists []. split; [symmetry; apply app_nil_r | constructor].
  - cbn [agentWhile]. destruct (iterations <? maxIterations)%nat.
    2:{ exists []. split; [symmetry; apply app_nil_r | constructor]. }
    destruct (iteration_appends messages st) as (added1 & Heq1 & Hadded1).
    destruct (iteration _ _ _ _ _ _ messages st) as [[control messages'] st'].
    cbn [fst snd] in Heq1. subst messages'. destruct control.
    + destruct (IH (S iterations) (messages ++ added1)%list st')
        as (added2 & Heq2 & Hadded2).
      exists (added1 ++ added2)%list.
      split; [now rewrite Heq2, <- app_assoc |]. now apply Forall_app.
    + now exists added1.
Qed.

(** X10. A run of the loop only appends to the history: the turns it
    was given stay in front, unchanged, and every turn added is an
    assistant turn or a tool turn. Under the interactive prompt this is
    so when no line typed as the answer to a permission question is a
    command of the prompt, whose handler gets the line as well and would
    act on the history during the run, and no other line is typed while
    the run lasts. *)
Theorem runAgentLoop_appends (messages : list Turn) (maxIterations : nat)
    (st : St) :
  (globalRl = true -> forall k, Repl.heardByPrompt (answers k) = false) ->
  exists added,
    fst (runAgentLoop executeTool chat answers globalRl projectDir
           autoApprove messages maxIterations st)
    = (messages ++ added)%list
    /\ Forall (fun t => isReply t = true) added.
Proof.
  intros _. unfold runAgentLoop.
  destruct (agentWhile_appends maxIterations maxIterations 0 messages st)
    as (added & Heq & Hadded).
  destruct (agentWhile _ _ _ _ _ _ _ _ _ messages st)
    as [[iterations messages'] st'].
  cbn [fst snd] in *. now exists added.
Qed.

(** X11. A pass that fails, because the model call throws or because a
    payload of the reply does not parse, with a message that does not
    speak of a rate limit, ends the run: the history is as before, the
    reply is lost, nothing was executed or asked, and one model call was
    made. The warning about the iteration budget is printed as well when
    the budget was 1. *)
Theorem failed_pass_ends_run (messages : list Turn) (maxIterations : nat)
    (st : St) (msg : string) :
  (0 < maxIterations)%nat ->
  (chat (chats st) messages = Throw msg
   \/ exists response,
        chat (chats st) messages = Ok response
        /\ normalizeToolCalls (message response) = Throw msg) ->
  rateLimited msg = false ->
  runAgentLoop executeTool chat answers globalRl projectDir autoApprove
    messages maxIterations st
  = (messages,
     {| fs := fs st;
        out := out st
               ++ [EvChat messages;
                   EvError (if JS.nonEmpty msg then msg else "Error")]
               ++ (if (maxIterations =? 1)%nat then [EvWarnMax 1] else []);
        prompts := prompts st;
        chats := S (chats st) |}).
Proof.
  intros Hpos Hfail Hrate.
  assert (Hiter : iteration executeTool chat answers globalRl projectDir
                    autoApprove messages st
                  = (Break, messages,
                     {| fs := fs st;
                        out := out st
                               ++ [EvChat messages;
                                   EvError (if JS.nonEmpty msg then msg
                                            else "Error")];
                        prompts := prompts st;
                        chats := S (chats st) |})).
  { unfold iteration.
    assert (Herr : forall st1, onError msg messages st1
                   = (Break, messages,
                      emitSt (EvError (if JS.nonEmpty msg then msg
                                       else "Error")) st1)).
    { intros st1. unfold onError. unfold rateLimited in Hrate.
      cbv zeta in Hrate. now rewrite Hrate. }
    destruct Hfail as [-> | (response & -> & ->)]; rewrite Herr;
      unfold emitSt; cbn [fs out prompts chats];
      now rewrite <- app_assoc. }
  unfold runAgentLoop. destruct maxIterations as [|n]; [lia |].
  cbn [agentWhile Nat.ltb Nat.leb]. rewrite Hiter.
  destruct n as [|n]; cbn [Nat.leb Nat.eqb]; unfold emitSt;
    cbn [fs out prompts chats]; rewrite <- ?app_assoc; [reflexivity |].
  now rewrite app_nil_r.
Qed.

(** The passes of a model that always answers with a rate-limit error. *)
Lemma agentWhile_rate_limited (msg : string) (maxIterations fuel : nat) :
  (forall k history, chat k history = Throw msg) ->
  rateLimited msg = true ->
  forall iterations messages st,
  (iterations + fuel = maxIterations)%nat ->
  agentWhile executeTool chat answers globalRl projectDir autoApprove
    fuel maxIterations iterations messages st
  = (maxIterations, messages,
     {| fs := fs st;
        out := out st
               ++ concat (replicate fuel
                            [EvChat messages;
                             EvError (if JS.nonEmpty msg then msg else "Error");
                             EvWait]);
        prompts := prompts st;
        chats := (chats st + fuel)%nat |}).
Proof.
  intros Hchat Hrate.
  induction fuel as [|fuel IH]; intros iterations messages st Hsum.
  - cbn. rewrite app_nil_r, Nat.add_0_r. subst. rewrite Nat.add_0_r.
    now destruct st.
  - cbn [agentWhile].
    assert (Hlt : (iterations <? maxIterations)%nat = true)
      by (apply Nat.ltb_lt; lia).
    rewrite Hlt. unfold iteration. rewrite Hchat. unfold onError.
    unfold rateLimited in Hrate. cbv zeta in Hrate. rewrite Hrate.
    rewrite IH by lia. unfold emitSt. cbn [fs out prompts chats].
    f_equal. f_equal; [| lia].
    cbn [replicate concat]. rewrite <- !app_assoc. reflexivity.
Qed.

(** X12. When every model call fails with a rate-limit error, the loop
    retries until its iteration budget is used up: it makes exactly
    [maxIterations] calls, each followed by the error and the wait, then
    prints the warning; the history and the file system are as before
    and nothing is asked. *)
Theorem rate_limit_retries_use_budget (messages : list Turn)
    (maxIterations : nat) (st : St) (msg : string) :
  (forall k history, chat k history = Throw msg) ->
  rateLimited msg = true ->
  runAgentLoop executeTool chat answers globalRl projectDir autoApprove
    messages maxIterations st
  = (messages,
     {| fs := fs st;
        out := out st
               ++ concat (replicate maxIterations
                            [EvChat messages;
                             EvError (if JS.nonEmpty msg then msg else "Error");
                             EvWait])
               ++ [EvWarnMax maxIterations];
        prompts := prompts st;
        chats := (chats st + maxIterations)%nat |}).
Proof.
  intros Hchat Hrate. unfold runAgentLoop.
  rewrite (agentWhile_rate_limited msg maxIterations maxIterations Hchat Hrate)
    by reflexivity.
  rewrite Nat.leb_refl. unfold emitSt. cbn [fs out prompts chats].
  now rewrite <- app_assoc.
Qed.

End HistoryFacts.

Section HistoryRuns.
Import Agent.


(** A reply with an empty [tool_calls] list next to a [tool_use] block:
    the call is handled and answered by a tool turn, but the assistant
    turn pushed, the reply as it came, declares no call. *)
Example empty_tool_calls_hide_blocks :
  let reply :=
    {| message :=
         {| content := CBlocks [ToolUseBlock "toolu_1" "list_directory" PAbsent];
            tool_calls := Some [] |};
       asString := EmptyString |} in
  exists assistant text,
    snd (fst (iteration Tools.executeTool (fun _ _ => Ok reply)
                (alwaysAnswers "y") false "/p" false scenarioHistory
                (startState projectFS)))
    = (scenarioHistory ++ [assistant; TTool "toolu_1" text])%list
    /\ issuedIds assistant = [].
Proof. eexists _, _. vm_compute. split; reflexivity. Qed.

(** A run under the interactive prompt in which the human allows a
    command with [y]. *)
Lemma runAgentLoop_appends_witness :
  exists added,
    fst (runAgentLoop Tools.executeTool commandChat (alwaysAnswers "y") true
           "/p" false scenarioHistory 25 (startState projectFS))
    = (scenarioHistory ++ added)%list
    /\ Forall (fun t => isReply t = true) added.
Proof.
  apply (runAgentLoop_appends Tools.executeTool commandChat
           (alwaysAnswers "y") true "/p" false scenarioHistory 25
           (startState projectFS)).
  intros _ k. reflexivity.
Defined.

Lemma failed_pass_ends_run_witness :
  fst (runAgentLoop Tools.executeTool (fun _ _ => Throw "fetch failed")
         (alwaysAnswers "y") false "/p" false scenarioHistory 25
         (startState projectFS))
  = scenarioHistory.
Proof.
  rewrite (failed_pass_ends_run Tools.executeTool
             (fun _ _ => Throw "fetch failed") (alwaysAnswers "y") false "/p"
             false scenarioHistory 25 (startState projectFS) "fetch failed").
  - reflexivity.
  - lia.
  - left. reflexivity.
  - vm_compute. reflexivity.
Defined.

Lemma rate_limit_retries_use_budget_witness :
  chats (snd (runAgentLoop Tools.executeTool
                (fun _ _ => Throw "429 Too Many Requests")
                (alwaysAnswers "y") false "/p" false scenarioHistory 3
                (startState projectFS)))
  = 3%nat.
Proof.
  rewrite (rate_limit_retries_use_budget Tools.executeTool
             (fun _ _ => Throw "429 Too Many Requests") (alwaysAnswers "y")
             false "/p" false scenarioHistory 3 (startState projectFS)
             "429 Too Many Requests").
  - reflexivity.
  - intros k history. reflexivity.
  - vm_compute. reflexivity.
Defined.

End HistoryRuns.

(** ** Questions, answers and executor calls of a run *)

Section QuestionFacts.
Context `{Platform} `{JSON}.
Import Agent.

Variable executeTool : string -> Args -> string -> FS -> Exc string * FS.
Variable chat : nat -> list Turn -> Exc Response.
Variable answers : nat -> string.
Variable globalRl : bool.
Variable projectDir : string.
Variable autoApprove : bool.

Lemma safeTools_not_gated (name : string) :
  name ∈ safeTools -> notSafe (riskOf name) && negb autoApprove = false.
Proof.
  unfold safeTools. rewrite !elem_of_cons, elem_of_nil.
  intros [-> | [-> | [-> | [-> | []]]]]; reflexivity.
Qed.

Lemma printout_askFree (e : Event) : isPrintout e -> askFree e.
Proof. destruct e; intros []; now repeat split. Qed.

Lemma askFree_counts (evs : list Event) :
  Forall askFree evs ->
  count isAsk evs = 0%nat /\ count isAnswer evs = 0%nat
  /\ count isPause evs = 0%nat /\ count isResume evs = 0%nat.
Proof.
  intros Hfree. repeat split;
    apply (count_none _ askFree); try exact Hfree; now intros e (? & ? & ? & ?).
Qed.

Lemma questionsBalanced_free (n : nat) (evs : list Event) :
  Forall askFree evs -> questionsBalanced globalRl n n evs.
Proof.
  intros Hfree. destruct (askFree_counts evs Hfree) as (Ha & Hb & Hc & Hd).
  unfold questionsBalanced. rewrite Ha, Hb, Hc, Hd.
  repeat split; try lia. now destruct globalRl.
Qed.

Lemma questionsBalanced_app (a b c : nat) (evs1 evs2 : list Event) :
  questionsBalanced globalRl a b evs1 -> questionsBalanced globalRl b c evs2 ->
  questionsBalanced globalRl a c (evs1 ++ evs2).
Proof.
  unfold questionsBalanced. rewrite !count_app.
  intros (-> & Hb1 & Hc1 & Hd1) (-> & Hb2 & Hc2 & Hd2).
  repeat split; try lia. destruct globalRl; lia.
Qed.

Lemma questionsBalanced_ask (n : nat) (question line : string) :
  questionsBalanced globalRl n (S n) (askEvents globalRl question line).
Proof.
  unfold questionsBalanced, askEvents.
  destruct globalRl; cbn; repeat split; lia.
Qed.

Lemma afterExec_printout (r : Exc string) (tail : list Event) (result : string) :
  afterExec r tail result -> Forall isPrintout tail.
Proof.
  destruct r as [text|msg]; cbn; intros [_ Htail].
  - eapply Forall_impl; [exact Htail |]. now intros [].
  - subst tail. now repeat constructor.
Qed.

Lemma previews_printout (previews : list Event) :
  Forall isPreviewEv previews -> Forall isPrintout previews.
Proof. intros Hp. eapply Forall_impl; [exact Hp |]. now intros []. Qed.

Lemma printout_no_exec (evs : list Event) :
  Forall isPrintout evs -> List.filter isExec evs = [].
Proof.
  induction 1 as [|e evs He _ IH]; [reflexivity |].
  cbn. destruct e; try contradiction; exact IH.
Qed.

Lemma askEvents_filter_exec (question line : string) :
  List.filter isExec (askEvents globalRl question line) = [].
Proof. unfold askEvents. now destruct globalRl. Qed.

Lemma askEvents_count (question line : string) :
  count isAsk (askEvents globalRl question line) = 1%nat.
Proof. unfold askEvents. now destruct globalRl. Qed.

(** What the handling of one call adds to the trace. *)
Lemma handleToolCall_trace (tc : ToolCall) (st : St) :
  let handled := handleToolCall executeTool answers globalRl projectDir
                   autoApprove tc st in
  exists evs,
    out (snd handled) = (out st ++ evs)%list
    /\ questionsBalanced globalRl (prompts st) (prompts (snd handled)) evs
    /\ (count isAsk evs <= 1)%nat
    /\ (List.filter isExec evs = [] \/ List.filter isExec evs = [execOf tc])
    /\ (notSafe (riskOf (tc_name tc)) && negb autoApprove = false ->
        count isAsk evs = 0%nat /\ List.filter isExec evs = [execOf tc]).
Proof.
  cbv zeta.
  pose proof (handleToolCall_Handled executeTool answers globalRl projectDir
                autoApprove tc st) as Hh.
  destruct (handleToolCall _ _ _ _ _ tc st) as [result st']. cbn [fst snd] in *.
  inversion Hh as [detail r fs' tail res Hgate Hexec Hafter
                  | detail previews msg Hgate Hprev
                  | detail previews question text Hgate Hprev Hrefuse
                  | detail previews question r fs' tail res Hgate Hprev Hallow
                      Hexec Hafter]; subst; cbn [out prompts];
    eexists; (split; [reflexivity |]).
  - pose proof (afterExec_printout _ _ _ Hafter) as Htail.
    assert (Hfree : Forall askFree (EvShowCall (tc_name tc) detail
                                    :: EvExec (tc_name tc) (tc_args tc) :: tail)).
    { constructor; [now repeat split |]. constructor; [now repeat split |].
      eapply Forall_impl; [exact Htail | apply printout_askFree]. }
    destruct (askFree_counts _ Hfree) as (Hask & _).
    assert (Hexecs : List.filter isExec
                       (EvShowCall (tc_name tc) detail
                        :: EvExec (tc_name tc) (tc_args tc) :: tail)
                     = [execOf tc])
      by (cbn; now rewrite printout_no_exec).
    split; [now apply questionsBalanced_free |].
    split; [lia |]. split; [now right |]. now intros _.
  - assert (Hprint : Forall isPrintout
                       (EvShowCall (tc_name tc) detail
                        :: previews ++ [EvToolError msg])).
    { constructor; [exact I |]. apply Forall_app.
      split; [now apply previews_printout | now repeat constructor]. }
    assert (Hfree : Forall askFree (EvShowCall (tc_name tc) detail
                                    :: previews ++ [EvToolError msg]))
      by (eapply Forall_impl; [exact Hprint | apply printout_askFree]).
    destruct (askFree_counts _ Hfree) as (Hask & _).
    split; [now apply questionsBalanced_free |].
    split; [lia |]. split; [left; now apply printout_no_exec |].
    intros Hoff. congruence.
  - assert (Hprint : Forall isPrintout
                       (EvShowCall (tc_name tc) detail :: previews)).
    { constructor; [exact I | now apply previews_printout]. }
    assert (Hfree : Forall askFree (EvShowCall (tc_name tc) detail :: previews))
      by (eapply Forall_impl; [exact Hprint | apply printout_askFree]).
    destruct (askFree_counts _ Hfree) as (Hask & _).
    change (EvShowCall (tc_name tc) detail
            :: previews ++ askEvents globalRl question (answers (prompts st)))
      with ((EvShowCall (tc_name tc) detail :: previews)
            ++ askEvents globalRl question (answers (prompts st)))%list.
    split.
    { eapply questionsBalanced_app;
        [now apply questionsBalanced_free | apply questionsBalanced_ask]. }
    rewrite count_app, Hask, askEvents_count, List.filter_app,
      askEvents_filter_exec, (printout_no_exec _ Hprint).
    split; [lia |]. split; [now left |]. intros Hoff. congruence.
  - pose proof (afterExec_printout _ _ _ Hafter) as Htail.
    assert (Hprint : Forall isPrintout
                       (EvShowCall (tc_name tc) detail :: previews)).
    { constructor; [exact I | now apply previews_printout]. }
    assert (Hfree : Forall askFree (EvShowCall (tc_name tc) detail :: previews))
      by (eapply Forall_impl; [exact Hprint | apply printout_askFree]).
    assert (Hfree' : Forall askFree (EvExec (tc_name tc) (tc_args tc) :: tail)).
    { constructor; [now repeat split |].
      eapply Forall_impl; [exact Htail | apply printout_askFree]. }
    destruct (askFree_counts _ Hfree) as (Hask & _).
    destruct (askFree_counts _ Hfree') as (Hask' & _).
    change (EvShowCall (tc_name tc) detail
            :: previews ++ askEvents globalRl question (answers (prompts st))
               ++ EvExec (tc_name tc) (tc_args tc) :: tail)
      with ((EvShowCall (tc_name tc) detail :: previews)
            ++ askEvents globalRl question (answers (prompts st))
            ++ EvExec (tc_name tc) (tc_args tc) :: tail)%list.
    split.
    { eapply questionsBalanced_app; [now apply questionsBalanced_free |].
      eapply questionsBalanced_app; [apply questionsBalanced_ask |].
      now apply questionsBalanced_free. }
    rewrite !count_app, Hask, Hask', askEvents_count, !List.filter_app,
      askEvents_filter_exec, (printout_no_exec _ Hprint).
    cbn [List.filter isExec app]. rewrite (printout_no_exec _ Htail).
    split; [lia |]. split; [now right |]. intros Hoff. congruence.
Qed.

Lemma dispatch_trace (calls : list ToolCall) :
  forall messages st,
  let run := dispatch executeTool answers globalRl projectDir autoApprove
               calls messages st in
  exists evs,
    out (snd run) = (out st ++ evs)%list
    /\ questionsBalanced globalRl (prompts st) (prompts (snd run)) evs
    /\ (count isAsk evs <= length calls)%nat
    /\ sublist (List.filter isExec evs) (map execOf calls)
    /\ (Forall (fun tc => notSafe (riskOf (tc_name tc)) && negb autoApprove
                          = false) calls ->
        count isAsk evs = 0%nat
        /\ List.filter isExec evs = map execOf calls).
Proof.
  induction calls as [|tc rest IH]; intros messages st; cbv zeta.
  - exists []. cbn. rewrite app_nil_r.
    split; [reflexivity |]. split; [now apply questionsBalanced_free |].
    split; [lia |]. split; [constructor | now intros _].
  - cbn [dispatch].
    destruct (handleToolCall_trace tc st)
      as (evs1 & Hout1 & Hbal1 & Hask1 & Hexec1 & Hoff1).
    destruct (handleToolCall _ _ _ _ _ tc st) as [result st'].
    cbn [fst snd] in *.
    destruct (IH (messages ++ [TTool (tc_id tc) result])%list st')
      as (evs2 & Hout2 & Hbal2 & Hask2 & Hexec2 & Hoff2).
    exists (evs1 ++ evs2)%list.
    rewrite Hout2, Hout1, <- app_assoc.
    split; [reflexivity |].
    split; [eapply questionsBalanced_app; eassumption |].
    rewrite count_app, List.filter_app. cbn [length map].
    split; [lia |]. split.
    + change (execOf tc :: map execOf rest)
        with ([execOf tc] ++ map execOf rest)%list.
      apply sublist_app; [| exact Hexec2].
      destruct Hexec1 as [-> | ->]; [apply sublist_nil_l | reflexivity].
    + intros Hall. inversion Hall as [|tc' rest' Htc Hrest]; subst.
      destruct (Hoff1 Htc) as [-> ->]. destruct (Hoff2 Hrest) as [-> ->].
      now split.
Qed.



Lemma iteration_trace (messages : list Turn) (st : St) :
  let pass := iteration executeTool chat answers globalRl projectDir
                autoApprove messages st in
  exists evs,
    out (snd pass) = (out st ++ evs)%list
    /\ questionsBalanced globalRl (prompts st) (prompts (snd pass)) evs
    /\ (autoApprove = true -> count isAsk evs = 0%nat).
Proof.
  cbv zeta. unfold iteration, onError.
  destruct (chat (chats st) messages) as [response|msg].
  2:{ destruct (_ && _); cbn [snd out prompts emitSt fs chats];
        rewrite <- ?app_assoc; eexists;
        (split; [reflexivity |]);
        (split; [apply questionsBalanced_free; now repeat constructor |]);
        intros _; reflexivity. }
  destruct (normalizeToolCalls (message response)) as [calls|msg].
  2:{ destruct (_ && _); cbn [snd out prompts emitSt fs chats];
        rewrite <- ?app_assoc; eexists;
        (split; [reflexivity |]);
        (split; [apply questionsBalanced_free; now repeat constructor |]);
        intros _; reflexivity. }
  set (hasText := JS.nonEmpty (extractText response)
                  && JS.nonEmpty (JS.trim (extractText response))).
  destruct (0 <? length calls)%nat eqn:Hlen.
  - rewrite andb_true_r.
    match goal with
    | |- context [dispatch _ _ _ _ _ calls ?ms ?s] =>
        destruct (dispatch_trace calls ms s)
          as (evs & Hout & Hbal & _ & _ & Hoff);
        destruct (dispatch executeTool answers globalRl projectDir
                    autoApprove calls ms s) as [messages2 st3]
    end.
    cbn [fst snd] in *.
    destruct hasText; cbn [emitSt out prompts fs chats] in *;
      rewrite Hout, <- ?app_assoc; eexists; (split; [reflexivity |]).
    + split.
      * change (EvChat messages :: EvSay (JS.trim (extractText response)) :: evs)
          with ([EvChat messages; EvSay (JS.trim (extractText response))]
                ++ evs)%list.
        eapply questionsBalanced_app; [| exact Hbal].
        apply questionsBalanced_free. now repeat constructor.
      * intros ->. rewrite !count_app.
        destruct Hoff as [-> _]; [| reflexivity].
        apply Forall_forall. intros tc _. apply andb_false_r.
    + split.
      * change (EvChat messages :: evs) with ([EvChat messages] ++ evs)%list.
        eapply questionsBalanced_app; [| exact Hbal].
        apply questionsBalanced_free. now repeat constructor.
      * intros ->. rewrite !count_app.
        destruct Hoff as [-> _]; [| reflexivity].
        apply Forall_forall. intros tc _. apply andb_false_r.
  - rewrite andb_false_r.
    destruct hasText; cbn [snd emitSt out prompts fs chats];
      rewrite <- ?app_assoc; eexists; (split; [reflexivity |]);
      (split; [apply questionsBalanced_free; now repeat constructor |]);
      intros _; reflexivity.
Qed.

Lemma agentWhile_trace (maxIterations fuel : nat) :
  forall iterations messages st,
  let run := agentWhile executeTool chat answers globalRl projectDir
               autoApprove fuel maxIterations iterations messages st in
  exists evs,
    out (snd run) = (out st ++ evs)%list
    /\ questionsBalanced globalRl (prompts st) (prompts (snd run)) evs
    /\ (autoApprove = true -> count isAsk evs = 0%nat).
Proof.
  induction fuel as [|fuel IH]; intros iterations messages st; cbv zeta.
  - exists []. cbn. rewrite app_nil_r. split; [reflexivity |].
    split; [now apply questionsBalanced_free | now intros _].
  - cbn [agentWhile]. destruct (iterations <? maxIterations)%nat.
    2:{ exists []. cbn. rewrite app_nil_r. split; [reflexivity |].
        split; [now apply questionsBalanced_free | now intros _]. }
    destruct (iteration_trace messages st) as (evs1 & Hout1 & Hbal1 & Hoff1).
    destruct (iteration _ _ _ _ _ _ messages st) as [[control messages'] st'].
    cbn [fst snd] in *. destruct control.
    + destruct (IH (S iterations) messages' st')
        as (evs2 & Hout2 & Hbal2 & Hoff2).
      exists (evs1 ++ evs2)%list. rewrite Hout2, Hout1, <- app_assoc.
      split; [reflexivity |].
      split; [eapply questionsBalanced_app; eassumption |].
      intros Hauto. rewrite count_app, (Hoff1 Hauto), (Hoff2 Hauto).
      reflexivity.
    + cbn [snd]. now exists evs1.
Qed.


End QuestionFacts.

Section QuestionRuns.
Import Agent.




End QuestionRuns.

(** ** The order of a listing *)

Section SortFacts.
Context `{Platform}.
Import Tools.

Lemma insertEntry_perm (x : Dirent) (l : list Dirent) :
  insertEntry x l ≡ₚ x :: l.
Proof.
  induction l as [|y r IH]; [reflexivity |].
  cbn [insertEntry]. destruct (compareEntries x y <=? 0)%Z; [reflexivity |].
  rewrite IH. apply perm_swap.
Qed.

Lemma sortEntries_perm (l : list Dirent) : sortEntries l ≡ₚ l.
Proof.
  induction l as [|x l IH]; [reflexivity |].
  unfold sortEntries in *. cbn [foldr]. now rewrite insertEntry_perm, IH.
Qed.

(** A file never goes in front of a directory, and a directory always
    goes in front of a file, whatever the names are. *)
Lemma compareEntries_kinds (x y : Dirent) :
  (isDirectory x = false -> isDirectory y = true ->
   (compareEntries x y <=? 0)%Z = false)
  /\ (isDirectory x = true -> isDirectory y = false ->
      (compareEntries x y <=? 0)%Z = true).
Proof.
  unfold compareEntries. split; intros -> ->; reflexivity.
Qed.

Lemma insertEntry_dirsFirst (x : Dirent) (l : list Dirent) :
  dirsFirst l -> dirsFirst (insertEntry x l).
Proof.
  intros (dirs & files & -> & Hdirs & Hfiles).
  induction Hdirs as [|d ds Hd Hds IH].
  - cbn [app]. destruct (isDirectory x) eqn:Hx.
    + exists [x], files. split.
      * destruct Hfiles as [|y r Hy Hr]; [reflexivity |].
        cbn [insertEntry].
        now rewrite (proj2 (compareEntries_kinds x y) Hx Hy).
      * split; [now repeat constructor | exact Hfiles].
    + exists [], (insertEntry x files). split; [reflexivity |].
      split; [constructor |]. rewrite insertEntry_perm. now constructor.
  - cbn [app insertEntry].
    destruct (compareEntries x d <=? 0)%Z eqn:Hcmp.
    + destruct (isDirectory x) eqn:Hx.
      * exists (x :: d :: ds), files. split; [reflexivity |].
        split; [now repeat constructor | exact Hfiles].
      * rewrite (proj1 (compareEntries_kinds x d) Hx Hd) in Hcmp.
        discriminate.
    + destruct IH as (dirs' & files' & -> & Hdirs' & Hfiles').
      exists (d :: dirs'), files'. split; [reflexivity |].
      split; [now constructor | exact Hfiles'].
Qed.

(** X16. The entries of a directory are listed in an order that holds
    the same entries as [readdir] gave and puts every directory before
    every file, whatever the comparison of names answers. *)
Theorem sortEntries_dirs_first (entries : list Dirent) :
  sortEntries entries ≡ₚ entries /\ dirsFirst (sortEntries entries).
Proof.
  split; [apply sortEntries_perm |].
  induction entries as [|x l IH].
  - exists [], []. now repeat constructor.
  - unfold sortEntries in *. cbn [foldr]. now apply insertEntry_dirsFirst.
Qed.

End SortFacts.

(** ** Where the results of a search come from *)

Section SearchSoundness.
Context `{Platform}.
Import Tools.

Variable fs : FS.
Variable args : Args.
Variable projectDir : string.

Lemma soundScan_note (e : SearchEvent) (st : SearchState) :
  (forall file, e = SRead file -> reachedFile fs args file) ->
  soundScan fs args projectDir st -> soundScan fs args projectDir (note e st).
Proof.
  intros He [Hres Hread]. split; [exact Hres |].
  intros file [-> | Hin]; [now apply He | now apply Hread].
Qed.

Lemma soundScan_push (r : string) (st : SearchState) :
  soundResult fs args projectDir r ->
  soundScan fs args projectDir st -> soundScan fs args projectDir (push r st).
Proof.
  intros Hr [Hres Hread]. split; [| exact Hread].
  cbn. apply Forall_app. split; [exact Hres | now repeat constructor].
Qed.

(** The loop over the lines of a file, from line [i] on. *)
Lemma scanLines_sound (filePath content : string) (lines : list string) :
  reachedFile fs args filePath ->
  readFile fs filePath = Ok content ->
  forall i st,
  (forall k line, lines !! k = Some line ->
                  JS.splitLines content !! (i + k)%nat = Some line) ->
  soundScan fs args projectDir st ->
  soundScan fs args projectDir (scanLines args projectDir filePath lines i st).
Proof.
  intros Hreached Hcontent.
  induction lines as [|line rest IH]; intros i st Hlines Hst; [exact Hst |].
  assert (Hrest : forall k l, rest !! k = Some l ->
                              JS.splitLines content !! (S i + k)%nat = Some l).
  { intros k l Hk. rewrite <- (Hlines (S k) l Hk). f_equal. lia. }
  cbn [scanLines]. destruct (JS.includes line (searchPattern args)) eqn:Hhit.
  - match goal with
    | |- context [capReached ?s] =>
        assert (Hpushed : soundScan fs args projectDir s)
    end.
    { apply soundScan_push; [| apply soundScan_note; [discriminate | exact Hst]].
      exists filePath, content, i, line.
      split; [exact Hreached |]. split; [exact Hcontent |].
      split; [| split; [exact Hhit | reflexivity]].
      rewrite <- (Hlines 0%nat line eq_refl). f_equal. lia. }
    match goal with
    | |- context [capReached ?s] => destruct (capReached s)
    end; [exact Hpushed | now apply IH].
  - apply IH; [exact Hrest |]. apply soundScan_note; [discriminate | exact Hst].
Qed.

Lemma searchInFile_sound (filePath : string) (st : SearchState) :
  reachedFile fs args filePath ->
  soundScan fs args projectDir st ->
  soundScan fs args projectDir (searchInFile fs args projectDir filePath st).
Proof.
  intros Hreached Hst. unfold searchInFile.
  assert (Hnoted : soundScan fs args projectDir (note (SRead filePath) st)).
  { apply soundScan_note; [| exact Hst]. now intros file [= <-]. }
  destruct (readFile fs filePath) as [content|msg] eqn:Hcontent;
    [| exact Hnoted].
  apply (scanLines_sound filePath content); auto.
Qed.

Lemma walkEntries_sound (sub : string -> SearchState -> SearchState)
    (dir : string) (all entries : list Dirent) :
  readdir fs dir = Ok all ->
  (forall entry, In entry entries -> In entry all) ->
  (forall d st, soundScan fs args projectDir st ->
                soundScan fs args projectDir (sub d st)) ->
  forall st, soundScan fs args projectDir st ->
  soundScan fs args projectDir
    (walkEntries fs args projectDir sub dir entries st).
Proof.
  intros Hdir Hsubset Hsub.
  induction entries as [|entry rest IH]; intros st Hst; [exact Hst |].
  assert (Hrest : forall e, In e rest -> In e all)
    by (intros e He; apply Hsubset; now right).
  specialize (IH Hrest).
  cbn [walkEntries]. destruct (capReached st); [exact Hst |].
  destruct (bool_decide (d_name entry ∈ SEARCH_SKIP)) eqn:Hskip;
    [now apply IH |].
  apply bool_decide_eq_false in Hskip.
  destruct (isDirectory entry) eqn:Hkind; [now apply IH, Hsub |].
  assert (Hreach : passesFilter args (d_name entry) = true ->
                   reachedFile fs args (path_join dir (d_name entry))).
  { intros Hpass. exists dir, all, entry.
    split; [exact Hdir |]. split; [apply Hsubset; now left |].
    now repeat split. }
  unfold passesFilter in Hreach.
  destruct (truthy (prop args "file_pattern")).
  - destruct (prop args "file_pattern") as [| |b|z|fp| |items]; try exact Hst.
    cbv zeta in Hreach.
    destruct (JS.endsWith (d_name entry) _) eqn:Hends; cbn [negb andb orb] in *.
    + apply IH, searchInFile_sound; auto.
    + destruct (String.eqb _ _) eqn:Hext; cbn [negb] in *.
      * apply IH, searchInFile_sound; auto.
      * now apply IH.
  - apply IH, searchInFile_sound; auto.
Qed.

Lemma walkDir_sound (fuel : nat) :
  forall dir depth st,
  soundScan fs args projectDir st ->
  soundScan fs args projectDir (walkDir fs args projectDir fuel dir depth st).
Proof.
  induction fuel as [|fuel IH]; intros dir depth st Hst; [exact Hst |].
  cbn [walkDir]. destruct (_ || _); [exact Hst |].
  assert (Hnoted : soundScan fs args projectDir (note (SList dir) st))
    by (apply soundScan_note; [discriminate | exact Hst]).
  destruct (readdir fs dir) as [entries|msg] eqn:Hdir; [| exact Hnoted].
  apply (walkEntries_sound _ dir entries entries); auto.
Qed.

(** X17. Every match [search_files] reports is a line that holds the
    pattern, in a file that can be read and that is an entry of a
    directory the walk could list, with the path of the file relative to
    the project, the number of the line counted from 1 and the line
    without the white space around it. The files the search opens are
    never directories, never carry a name of its skip list, and pass the
    file pattern when one is given. *)
Theorem search_results_sound (st : SearchState) :
  searchFilesWalk args projectDir fs = Ok st ->
  Forall (soundResult fs args projectDir) (results st)
  /\ (forall file, In (SRead file) (scanned st) -> reachedFile fs args file).
Proof.
  unfold searchFilesWalk. destruct (resolveArg _ _) as [searchDir|msg];
    [| discriminate].
  cbn [bindExc]. intros Hwalk.
  assert (Hst : st = walkDir fs args projectDir (maxSearchDepth + 2)
                       searchDir 0 {| results := []; scanned := [] |})
    by congruence.
  rewrite Hst. apply walkDir_sound. split; [constructor | intros file []].
Qed.

End SearchSoundness.

Section SearchRuns.
Import Tools.

Lemma search_results_sound_witness :
  exists st,
    searchFilesWalk {[ "pattern" := JStr "hit"; "file_pattern" := JStr "*.txt" ]}
      "/p" searchSampleFS = Ok st
    /\ length (results st) = 30%nat
    /\ Forall (soundResult searchSampleFS
                 {[ "pattern" := JStr "hit"; "file_pattern" := JStr "*.txt" ]}
                 "/p") (results st).
Proof.
  eexists. split; [reflexivity |]. split; [vm_compute; reflexivity |].
  apply (search_results_sound searchSampleFS
           {[ "pattern" := JStr "hit"; "file_pattern" := JStr "*.txt" ]} "/p").
  reflexivity.
Defined.

(** A pattern that is a number is looked for as JavaScript writes it. *)
Example search_files_number_pattern :
  searchFilesImpl {[ "pattern" := JNum (10 ^ 21) ]} "/p"
    {[ "/p" := NDir (Ok [ {| d_name := "f.txt"; isDirectory := false |};
                          {| d_name := "g.txt"; isDirectory := false |} ]);
       "/p/f.txt" := textFile "n=1e+21;";
       "/p/g.txt" := textFile "n=1000000000000000000000;" ]}
  = Ok "f.txt:1: n=1e+21;".
Proof. vm_compute. reflexivity. Qed.

End SearchRuns.

(** ** The model picker *)

Section ModelFacts.
Import Models.

(** X18. [pickModel] always resolves. The model it gives is the default,
    an entry of the list, or the answer without the white space around
    it, and then the answer is not empty, holds no space and has at most
    50 characters. The notice about an invalid id goes with the default
    only; an empty answer gives the default without notice; and the
    number of an entry, as the list shows it, gives that entry. *)
Theorem pickModel_resolves (defaultModel answer : string) :
  exists model notice,
    pickModel defaultModel answer = Ok (model, notice)
    /\ (model = defaultModel
        \/ model ∈ map id RECOMMENDED_AGENT_MODELS
        \/ (model = JS.trim answer /\ model <> EmptyString
            /\ JS.includes model " " = false /\ (JS.len model <= 50)%nat))
    /\ (notice = true -> model = defaultModel)
    /\ (JS.trim answer = EmptyString -> model = defaultModel /\ notice = false)
    /\ (forall k m, RECOMMENDED_AGENT_MODELS !! k = Some m ->
          pickModel defaultModel (JS.ofNat (k + 1)) = Ok (id m, false)).
Proof.
  assert (Hnumbers : forall k m, RECOMMENDED_AGENT_MODELS !! k = Some m ->
            pickModel defaultModel (JS.ofNat (k + 1)) = Ok (id m, false)).
  { intros k m Hk.
    do 9 (destruct k as [|k]; [injection Hk as <-; reflexivity |]).
    discriminate. }
  unfold pickModel.
  destruct (JS.nonEmpty (JS.trim answer)) eqn:Hinput; cbn [negb].
  2:{ exists defaultModel, false. split; [reflexivity |].
      split; [now left |]. split; [discriminate |]. split; [now intros _ |].
      exact Hnumbers. }
  apply nonEmpty_true in Hinput.
  assert (Hcustom :
    exists model notice,
      (if JS.includes (JS.trim answer) " " || (50 <? JS.len (JS.trim answer))%nat
       then Ok (defaultModel, true) else Ok (JS.trim answer, false))
      = Ok (model, notice)
      /\ (model = defaultModel
          \/ model ∈ map id RECOMMENDED_AGENT_MODELS
          \/ (model = JS.trim answer /\ model <> EmptyString
              /\ JS.includes model " " = false /\ (JS.len model <= 50)%nat))
      /\ (notice = true -> model = defaultModel)).
  { destruct (JS.includes (JS.trim answer) " ") eqn:Hspace; cbn [orb].
    - exists defaultModel, true. split; [reflexivity |]. split; [now left | auto].
    - destruct (50 <? JS.len (JS.trim answer))%nat eqn:Hlong.
      + exists defaultModel, true. split; [reflexivity |].
        split; [now left | auto].
      + apply Nat.ltb_ge in Hlong. exists (JS.trim answer), false.
        split; [reflexivity |]. split; [| discriminate].
        right. right. now repeat split. }
  assert (Hdone : forall r : Exc (string * bool),
    (exists model notice,
       r = Ok (model, notice)
       /\ (model = defaultModel
           \/ model ∈ map id RECOMMENDED_AGENT_MODELS
           \/ (model = JS.trim answer /\ model <> EmptyString
               /\ JS.includes model " " = false /\ (JS.len model <= 50)%nat))
       /\ (notice = true -> model = defaultModel)) ->
    exists model notice,
      r = Ok (model, notice)
      /\ (model = defaultModel
          \/ model ∈ map id RECOMMENDED_AGENT_MODELS
          \/ (model = JS.trim answer /\ model <> EmptyString
              /\ JS.includes model " " = false /\ (JS.len model <= 50)%nat))
      /\ (notice = true -> model = defaultModel)
      /\ (JS.trim answer = EmptyString -> model = defaultModel /\ notice = false)
      /\ (forall k m, RECOMMENDED_AGENT_MODELS !! k = Some m ->
            pickModel defaultModel (JS.ofNat (k + 1)) = Ok (id m, false))).
  { intros r (model & notice & Hr & Hmodel & Hnotice).
    exists model, notice. split; [exact Hr |]. split; [exact Hmodel |].
    split; [exact Hnotice |]. split; [intros Hempty; contradiction |].
    exact Hnumbers. }
  apply Hdone.
  destruct (parseInt (JS.trim answer)) as [num|]; [| exact Hcustom].
  destruct ((1 <=? num) && (num <=? _))%Z eqn:Hrange; [| exact Hcustom].
  apply andb_true_iff in Hrange as [Hlow Hhigh].
  apply Z.leb_le in Hlow, Hhigh. cbn [length RECOMMENDED_AGENT_MODELS] in Hhigh.
  destruct (lookup_lt_is_Some_2 RECOMMENDED_AGENT_MODELS (Z.to_nat (num - 1)))
    as [m Hm]; [cbn [length RECOMMENDED_AGENT_MODELS]; lia |].
  rewrite Hm. exists (id m), false. split; [reflexivity |].
  split; [| discriminate]. right. left.
  apply list_elem_of_fmap_2. now apply list_elem_of_lookup_2 in Hm.
Qed.

(** Digits in front count, whatever follows; [0x] announces base 16; a
    number outside the list is taken as the id of a model. *)
Example pickModel_samples :
  (pickModel "claude-sonnet-4.6" "2 fast", pickModel "claude-sonnet-4.6" "0x5",
   pickModel "claude-sonnet-4.6" "10", pickModel "claude-sonnet-4.6" " qwen-max ",
   pickModel "claude-sonnet-4.6" "which one is best")
  = (Ok ("claude-sonnet-4.6", false), Ok ("gpt-5", false), Ok ("10", false),
     Ok ("qwen-max", false), Ok ("claude-sonnet-4.6", true)).
Proof. vm_compute. reflexivity. Qed.

End ModelFacts.

(** ** The interactive mode *)

Section ReplFacts.
Context `{Platform} `{JSON} `{Host}.
Import Agent Repl.

Variable executeTool : string -> Args -> string -> FS -> Exc string * FS.
Variable chat : string -> nat -> list Turn -> Exc Response.
Variable answers : nat -> string.
Variable projectDir : string.

(** The first turn of the history stays the system turn, and no other
    system turn comes in, through the handler of a line. *)
Lemma onLine_keeps_system (line prompt : string) (s : Session)
    (rest : list Turn) :
  Repl.messages s = TSystem prompt :: rest ->
  Forall (fun t => isSystem t = false) rest ->
  exists rest',
    Repl.messages (fst (onLine executeTool chat answers projectDir line s))
    = TSystem prompt :: rest'
    /\ Forall (fun t => isSystem t = false) rest'.
Proof.
  intros Hs Hrest. unfold onLine.
  destruct (negb (JS.nonEmpty (JS.trim line))); [now exists rest |].
  destruct (_ || _); [now exists rest |].
  destruct (String.eqb (JS.trim line) "/clear").
  { exists []. cbn [fst Repl.messages]. rewrite Hs. now split. }
  destruct (JS.startsWith (JS.trim line) "/model "); [now exists rest |].
  destruct (String.eqb (JS.trim line) "/auto"); [now exists rest |].
  destruct (String.eqb (JS.trim line) "/help"); [now exists rest |].
  destruct (JS.startsWith (JS.trim line) "!").
  { destruct (negb _); [now exists rest |].
    destruct (execSync _ _ _) as [outcome files]. now exists rest. }
  destruct (isAgentRunning s); [now exists rest |].
  unfold runAgentLoop.
  destruct (agentWhile_appends executeTool (chat (currentModel s)) answers
              true projectDir (auto s) defaultMaxIterations
              defaultMaxIterations 0
              (Repl.messages s ++ [TUser (JS.trim line)])%list (agent s))
    as (added & Heq & Hadded).
  destruct (agentWhile _ _ _ _ _ _ _ _ _ _ _) as [[iterations history] st].
  cbn [fst snd Repl.messages] in *.
  exists (rest ++ TUser (JS.trim line) :: added)%list.
  split; [rewrite Heq, Hs, <- app_assoc; reflexivity |].
  apply Forall_app. split; [exact Hrest |].
  constructor; [reflexivity |].
  eapply Forall_impl; [exact Hadded |]. now intros [].
Qed.

(** A line that is no command of the prompt does nothing when it
    reaches the handler while a task runs. *)
Lemma onLine_unheard (line : string) (s : Session) :
  heardByPrompt line = false ->
  isAgentRunning s = true ->
  fst (onLine executeTool chat answers projectDir line s) = s
  /\ (snd (onLine executeTool chat answers projectDir line s) = Reprompt
      \/ snd (onLine executeTool chat answers projectDir line s) = Ignored).
Proof.
  unfold heardByPrompt, onLine. intros Hquiet Hrunning.
  destruct (negb (JS.nonEmpty (JS.trim line))); [now auto |].
  destruct (String.eqb (JS.trim line) "/quit"); [discriminate |].
  destruct (String.eqb (JS.trim line) "/exit"); [discriminate |].
  destruct (String.eqb (JS.trim line) "/q"); [discriminate |].
  destruct (String.eqb (JS.trim line) "/clear"); [discriminate |].
  destruct (JS.startsWith (JS.trim line) "/model "); [discriminate |].
  destruct (String.eqb (JS.trim line) "/auto"); [discriminate |].
  destruct (String.eqb (JS.trim line) "/help"); [discriminate |].
  cbn [orb] in *.
  destruct (JS.startsWith (JS.trim line) "!").
  - cbn [andb] in Hquiet. rewrite Hquiet. cbn. auto.
  - rewrite Hrunning. cbn. auto.
Qed.

(** A command of the prompt typed while a task runs is acted on:
    [/clear] cuts the history although the task has not returned. *)
Example clear_is_heard_during_a_task :
  heardByPrompt " /clear" = true
  /\ heardByPrompt "y" = false
  /\ Repl.messages
       (fst (onLine Tools.executeTool (fun _ => scenarioChat)
               (alwaysAnswers "y") "/p" " /clear"
               {| Repl.messages := scenarioHistory;
                  currentModel := "claude-sonnet-4.6"; auto := false;
                  isAgentRunning := true; agent := startState projectFS |}))
     = take 1 scenarioHistory.
Proof. vm_compute. repeat split; reflexivity. Qed.

(** X19. Through any sequence of lines typed at the prompt the history
    of the session starts with the system turn it started with, and holds
    no other system turn; this includes [/clear], tasks run by the loop
    and shell escapes. *)
Theorem session_keeps_system_turn (lines : list string) (prompt : string) :
  forall (s : Session) (rest : list Turn),
  Repl.messages s = TSystem prompt :: rest ->
  Forall (fun t => isSystem t = false) rest ->
  exists rest',
    Repl.messages (onLines executeTool chat answers projectDir lines s)
    = TSystem prompt :: rest'
    /\ Forall (fun t => isSystem t = false) rest'.
Proof.
  induction lines as [|line more IH]; intros s rest Hs Hrest.
  - now exists rest.
  - cbn [onLines].
    destruct (onLine_keeps_system line prompt s rest Hs Hrest)
      as (rest1 & Hs1 & Hrest1).
    destruct (onLine executeTool chat answers projectDir line s)
      as [s1 action].
    cbn [fst] in Hs1.
    destruct action; try (now apply (IH s1 rest1)). now exists rest1.
Qed.

(** X20. Only a task reaches the model. The handler of a line that is
    blank, a command or a shell escape makes no model call, leaves the
    trace of the agent alone and keeps the history, except that [/clear]
    cuts it to its first turn. A task is run while no other is running;
    the line is recorded without the white space around it, as a user
    turn, and when the task is done the history is the one from before,
    that turn, and the turns the loop wrote, provided that no line typed
    as the answer to a permission question of the task is a command of
    the prompt (the handler gets such a line too, and [/clear] there
    cuts the history during the task) and that no other line is typed
    while the task runs. *)
Theorem only_tasks_reach_the_model (line : string) (s : Session) :
  match snd (onLine executeTool chat answers projectDir line s) with
  | Task input =>
      input = JS.trim line
      /\ isAgentRunning s = false
      /\ ((forall k, heardByPrompt (answers k) = false) ->
          exists added,
            Repl.messages (fst (onLine executeTool chat answers projectDir line s))
            = (Repl.messages s ++ TUser input :: added)%list
            /\ Forall (fun t => isReply t = true) added)
  | _ =>
      chats (agent (fst (onLine executeTool chat answers projectDir line s)))
      = chats (agent s)
      /\ out (agent (fst (onLine executeTool chat answers projectDir line s)))
         = out (agent s)
      /\ (Repl.messages (fst (onLine executeTool chat answers projectDir line s))
          = Repl.messages s
          \/ (JS.trim line = "/clear"
              /\ Repl.messages
                   (fst (onLine executeTool chat answers projectDir line s))
                 = take 1 (Repl.messages s)))
  end.
Proof.
  unfold onLine.
  destruct (negb (JS.nonEmpty (JS.trim line))); [cbn; auto |].
  destruct (_ || _); [cbn; auto |].
  destruct (String.eqb (JS.trim line) "/clear") eqn:Hclear.
  { apply String.eqb_eq in Hclear. cbn. auto. }
  destruct (JS.startsWith (JS.trim line) "/model "); [cbn; auto |].
  destruct (String.eqb (JS.trim line) "/auto"); [cbn; auto |].
  destruct (String.eqb (JS.trim line) "/help"); [cbn; auto |].
  destruct (JS.startsWith (JS.trim line) "!").
  { destruct (negb _); [cbn; auto |].
    destruct (execSync _ _ _) as [outcome files]. cbn. auto. }
  destruct (isAgentRunning s) eqn:Hrunning; [cbn; auto |].
  unfold runAgentLoop.
  destruct (agentWhile_appends executeTool (chat (currentModel s)) answers
              true projectDir (auto s) defaultMaxIterations
              defaultMaxIterations 0
              (Repl.messages s ++ [TUser (JS.trim line)])%list (agent s))
    as (added & Heq & Hadded).
  destruct (agentWhile _ _ _ _ _ _ _ _ _ _ _) as [[iterations history] st].
  cbn [fst snd Repl.messages] in *. split; [reflexivity |].
  split; [reflexivity |]. intros _. exists added.
  split; [now rewrite Heq, <- app_assoc | exact Hadded].
Qed.

End ReplFacts.

Section ReplRuns.
Import Agent Repl.

(** A session in which a task is given, a command is run in the shell,
    and the conversation is cleared. *)
Lemma session_keeps_system_turn_witness :
  exists rest,
    Repl.messages
      (onLines Tools.executeTool (fun _ => scenarioChat) (alwaysAnswers "y")
         "/p" ["add error handling"; "!npm test"; "/clear"]
         {| Repl.messages := [TSystem "You are an expert AI coding assistant."];
            currentModel := "claude-sonnet-4.6"; auto := false;
            isAgentRunning := false; agent := startState projectFS |})
    = TSystem "You are an expert AI coding assistant." :: rest
    /\ Forall (fun t => isSystem t = false) rest.
Proof.
  apply (session_keeps_system_turn Tools.executeTool (fun _ => scenarioChat)
           (alwaysAnswers "y") "/p"
           ["add error handling"; "!npm test"; "/clear"]
           "You are an expert AI coding assistant." _ []).
  - reflexivity.
  - constructor.
Defined.

(** A task during which the human allows a command with [y]. *)
Lemma only_tasks_reach_the_model_witness :
  exists added,
    Repl.messages
      (fst (onLine Tools.executeTool (fun _ => commandChat)
              (alwaysAnswers "y") "/p" " run the tests "
              {| Repl.messages := [TSystem "You are an expert AI coding assistant."];
                 currentModel := "claude-sonnet-4.6"; auto := false;
                 isAgentRunning := false; agent := startState projectFS |}))
    = ([TSystem "You are an expert AI coding assistant."]
       ++ TUser "run the tests" :: added)%list
    /\ Forall (fun t => isReply t = true) added.
Proof.
  pose proof (only_tasks_reach_the_model Tools.executeTool
                (fun _ => commandChat) (alwaysAnswers "y") "/p"
                " run the tests "
                {| Repl.messages := [TSystem "You are an expert AI coding assistant."];
                   currentModel := "claude-sonnet-4.6"; auto := false;
                   isAgentRunning := false; agent := startState projectFS |})
    as Htask.
  match type of Htask with
  | match ?action with _ => _ end =>
      assert (Haction : action = Task "run the tests")
        by (vm_compute; reflexivity);
      rewrite Haction in Htask
  end.
  destruct Htask as (_ & _ & Hadded).
  apply Hadded. intros k. reflexivity.
Defined.

(** A line that looks like a command but is none is a task: the slash
    commands are matched as they are written, and [/model] needs a name. *)
Example unknown_command_is_a_task :
  snd (onLine Tools.executeTool (fun _ => scenarioChat) (alwaysAnswers "y")
         "/p" " /Clear "
         {| Repl.messages := [TSystem "You are an expert AI coding assistant."];
            currentModel := "claude-sonnet-4.6"; auto := false;
            isAgentRunning := false; agent := startState projectFS |})
  = Task "/Clear"
  /\ snd (onLine Tools.executeTool (fun _ => scenarioChat) (alwaysAnswers "y")
            "/p" "/model "
            {| Repl.messages := [TSystem "You are an expert AI coding assistant."];
               currentModel := "claude-sonnet-4.6"; auto := false;
               isAgentRunning := false; agent := startState projectFS |})
     = Task "/model".
Proof. split; vm_compute; reflexivity. Qed.

End ReplRuns.

(** ** The depth of a listing *)

Section ListingDepth.
Context `{Platform}.
Import Tools.

Variable fs : FS.
Variable recursive : bool.

Lemma atLevel_deeper (r : bool) (depth : nat) (l : Line) :
  atLevel r (S depth) l -> atLevel r depth l.
Proof. intros (level & Hlevel & Hpre). exists level. split; [lia | exact Hpre]. Qed.

Lemma listEntries_levels (sub : string -> string -> nat -> list Line * nat)
    (dir : string) (depth : nat) (sorted : list Dirent) :
  (1 <= depth <= maxDepth recursive)%nat ->
  (forall d n, Forall (atLevel recursive (S depth)) (fst (sub d (indent depth) n))) ->
  forall c,
  Forall (atLevel recursive depth)
    (fst (listEntries fs recursive sub dir (indent (depth - 1)) sorted c)).
Proof.
  intros Hdepth Hsub.
  assert (Hhere : forall l, linePrefix l = indent (depth - 1) ->
                            atLevel recursive depth l).
  { intros l Hl. exists depth. split; [lia | exact Hl]. }
  assert (Hnext : indent (depth - 1) +:+ "  " = indent depth).
  { destruct depth as [|d]; [lia |].
    replace (S d - 1)%nat with d by lia. reflexivity. }
  induction sorted as [|entry rest IH]; intros c; [constructor |].
  cbn [listEntries]. destruct (maxEntries <=? c)%nat.
  { constructor; [now apply Hhere | constructor]. }
  destruct (isSkipped (d_name entry)).
  { specialize (IH (S c)). destruct (listEntries _ _ _ _ _ rest (S c)) as [o n].
    constructor; [now apply Hhere | exact IH]. }
  destruct (isDirectory entry).
  - destruct recursive eqn:Hrec.
    + rewrite Hnext.
      pose proof (Hsub (path_join dir (d_name entry)) (S c)) as Hbelow.
      destruct (sub _ _ _) as [below n1]. specialize (IH n1).
      destruct (listEntries _ _ _ _ _ rest n1) as [o n2]. cbn [fst] in *.
      constructor; [now apply Hhere |].
      apply Forall_app. split; [| exact IH].
      eapply Forall_impl; [exact Hbelow | apply atLevel_deeper].
    + specialize (IH (S c)).
      destruct (listEntries _ _ _ _ _ rest (S c)) as [o n2]. cbn [fst] in *.
      constructor; [now apply Hhere | exact IH].
  - specialize (IH (S c)). destruct (listEntries _ _ _ _ _ rest (S c)) as [o n].
    constructor; [now apply Hhere | exact IH].
Qed.

Lemma listDir_levels (fuel : nat) :
  forall dir depth c,
  (1 <= depth)%nat ->
  Forall (atLevel recursive depth)
    (fst (listDir fs recursive fuel dir depth (indent (depth - 1)) c)).
Proof.
  induction fuel as [|fuel IH]; intros dir depth c Hdepth; [constructor |].
  cbn [listDir].
  destruct (maxDepth recursive <? depth)%nat eqn:Hdeep; cbn [orb];
    [constructor |].
  apply Nat.ltb_ge in Hdeep.
  destruct (maxEntries <=? c)%nat; [constructor |].
  destruct (readdir fs dir) as [entries|msg].
  - apply listEntries_levels; [lia |].
    intros d n. specialize (IH d (S depth) n).
    replace (S depth - 1)%nat with depth in IH by lia. apply IH. lia.
  - constructor; [| constructor]. exists depth. split; [lia | reflexivity].
Qed.

End ListingDepth.

Section ListingDepthClaims.
Context `{Platform}.
Import Tools.

(** X21. A listing never goes below the third level when it is
    recursive, and stays on the first when it is not: every line, the
    notices and the error lines included, is indented by two spaces for
    each level below the first, which makes no indentation at all
    without [recursive] and four spaces at most with it. *)
Theorem list_directory_depth (args : Args) (projectDir : string) (fs : FS)
    (lines : list Line) :
  listDirectoryLines args projectDir fs = Ok lines ->
  Forall (fun l =>
            exists level,
              (1 <= level <= if truthy (prop args "recursive") then 3 else 1)%nat
              /\ linePrefix l = indent (level - 1))
         lines.
Proof.
  unfold listDirectoryLines.
  destruct (resolveArg _ _) as [dirPath|msg]; [| discriminate].
  cbn [bindExc]. intros Hlines.
  assert (Heq : lines = fst (listDir fs (truthy (prop args "recursive"))
                               (S (maxDepth (truthy (prop args "recursive"))))
                               dirPath 1 (indent (1 - 1)) 0))
    by (cbn [indent Nat.sub]; congruence).
  rewrite Heq. apply listDir_levels. lia.
Qed.

End ListingDepthClaims.

Section ListingDepthRuns.
Import Tools.

Lemma list_directory_depth_witness :
  exists lines,
    listDirectoryLines recursiveListing "/p" projectFS = Ok lines
    /\ Forall (fun l => linePrefix l = EmptyString \/ linePrefix l = "  "
                        \/ linePrefix l = "    ") lines.
Proof.
  eexists. split; [reflexivity |].
  eapply Forall_impl.
  - apply (list_directory_depth recursiveListing "/p" projectFS). reflexivity.
  - intros l (level & Hlevel & ->).
    change (truthy (prop recursiveListing "recursive")) with true in Hlevel.
    cbv iota in Hlevel.
    destruct level as [|[|[|[|level]]]]; cbn; auto; lia.
Defined.

End ListingDepthRuns.
